(** * Visions Studio: the scene editor of [App.tsx] and the retry helper of the
    generation service, embedded in Rocq.

    The browser's document is a mutable graph of element objects that the
    component holds references to (the selection is an array of such
    references).  It is modelled as a store from node references to element
    records; every handler of the component is a function on the editor state.

    Conventions of the model.
    - JavaScript numbers that the editor reads with [parseInt] or measures with
      [getBBox] are integers or [NaN]; measured boxes are taken to be
      integer-valued, so that the printed form of a number is its decimal
      expansion.
    - [Math.cos] and [Math.sin] are the real functions; [Math.round] is
      rounding half up.
    - [Math.random] is an explicit table of draws handed to the handler.
    - [setSvgContent(outerHTML)] republishes a serialization of the document and
      does not touch the document; it is left out, as are the layout, shadow
      and bounding-box panels of the selection effect. *)

From Stdlib Require Import ZArith Reals Lra Lia Ascii String.
From stdpp Require Import base option list strings gmap pretty.

Local Open Scope Z_scope.

(** ** JavaScript values used by the editor *)

Module Js.

(** A number that is either an integer or [NaN].  [Int z] stands for the
    double of value [z], and the arithmetic below is exact: it is the
    arithmetic of the code as long as every integer involved is a safe one
    (of magnitude below [2^53]); beyond that, and on fractions, doubles
    round, which this type does not follow.  The properties that depend on
    sums say so with [Scope.exactSums] and [Scope.exactRun]. *)
Inductive number : Type :=
  | NaN
  | Int (z : Z).

Global Instance number_eq_dec : EqDecision number.
Proof. solve_decision. Defined.

Definition num_add (a b : number) : number :=
  match a, b with
  | Int x, Int y => Int (x + y)
  | _, _ => NaN
  end.

(** Template-literal conversion [`${n}`]. *)
Definition show (n : number) : string :=
  match n with
  | NaN => "NaN"
  | Int z => pretty z
  end.

(** [a || b] on a possibly absent string: [null] and the empty string are
    falsy. *)
Definition truthy (o : option string) : bool :=
  match o with
  | Some s => negb (bool_decide (s = EmptyString))
  | None => false
  end.

Definition or_else (o : option string) (dflt : string) : string :=
  match o with
  | Some s => if bool_decide (s = EmptyString) then dflt else s
  | None => dflt
  end.

(** [s.startsWith(p)]. *)
Fixpoint startsWith (p s : string) : bool :=
  match p, s with
  | EmptyString, _ => true
  | String a p', String b s' => bool_decide (a = b) && startsWith p' s'
  | String _ _, EmptyString => false
  end.

(** [s.includes(needle)]. *)
Fixpoint includes (needle s : string) : bool :=
  startsWith needle s ||
  match s with
  | EmptyString => false
  | String _ s' => includes needle s'
  end.

Definition lower_ascii (a : ascii) : ascii :=
  let n := N_of_ascii a in
  if ((65 <=? n)%N && (n <=? 90)%N)%bool then ascii_of_N (n + 32) else a.

(** [s.toLowerCase()] on ASCII text. *)
Fixpoint toLowerCase (s : string) : string :=
  match s with
  | EmptyString => EmptyString
  | String a s' => String (lower_ascii a) (toLowerCase s')
  end.

(** [s.slice(5, -1)]: drop the first five characters and the last one. *)
Fixpoint drop_str (n : nat) (s : string) : string :=
  match n, s with
  | O, _ => s
  | S _, EmptyString => EmptyString
  | S k, String _ s' => drop_str k s'
  end.

Fixpoint drop_last (s : string) : string :=
  match s with
  | EmptyString => EmptyString
  | String _ EmptyString => EmptyString
  | String a s' => String a (drop_last s')
  end.

Definition slice_5_m1 (s : string) : string := drop_last (drop_str 5 s).

(** [parseInt(s)] without a radix: leading white space, an optional sign, an
    optional [0x] prefix, then the longest run of digits; [NaN] when there is
    no digit.  The integer read is exact, which is what the code reads when
    it is a safe integer; a longer run of digits is rounded by the code. *)
Definition is_space (a : ascii) : bool :=
  let n := N_of_ascii a in
  ((n =? 32) || ((9 <=? n) && (n <=? 13)))%N.

Fixpoint skip_space (s : string) : string :=
  match s with
  | String a s' => if is_space a then skip_space s' else s
  | EmptyString => EmptyString
  end.

Definition digit_value (radix : N) (a : ascii) : option N :=
  let n := N_of_ascii a in
  let v :=
    if ((48 <=? n) && (n <=? 57))%N then Some (n - 48)%N
    else if ((97 <=? n) && (n <=? 122))%N then Some (n - 87)%N
    else if ((65 <=? n) && (n <=? 90))%N then Some (n - 55)%N
    else None in
  match v with
  | Some k => if (k <? radix)%N then Some k else None
  | None => None
  end.

Fixpoint read_digits (radix : N) (s : string) (acc : option N) : option N :=
  match s with
  | EmptyString => acc
  | String a s' =>
      match digit_value radix a with
      | Some v => read_digits radix s' (Some (radix * default 0 acc + v)%N)
      | None => acc
      end
  end.

Definition parseInt (s : string) : number :=
  let s1 := skip_space s in
  let '(neg, s2) :=
    match s1 with
    | String "-" r => (true, r)
    | String "+" r => (false, r)
    | _ => (false, s1)
    end in
  let '(radix, s3) :=
    match s2 with
    | String "0" (String "x" r) => (16%N, r)
    | String "0" (String "X" r) => (16%N, r)
    | _ => (10%N, s2)
    end in
  match read_digits radix s3 None with
  | None => NaN
  | Some n => Int (if neg then - Z.of_N n else Z.of_N n)
  end.

End Js.

(** ** The retry helper of the generation service ([withRetry]) *)

Module Retry.

Import Js.

(** A rejected promise's reason: the fields [withRetry] inspects.  [json] is
    [JSON.stringify(error)]. *)
Record JsError : Type := mkJsError {
  status : option Z;
  message : option string;
  json : string
}.

(** [new Error(msg)]: no status, and no enumerable field to serialize. *)
Definition Error (msg : string) : JsError :=
  {| status := None; message := Some msg; json := "{}" |}.

Inductive Outcome (T : Type) : Type :=
  | Resolved (v : T)
  | Rejected (e : JsError).
Arguments Resolved {T} v.
Arguments Rejected {T} e.

(** What a run does besides returning: the calls of [fn] and the timers it
    waits on, in order. *)
Inductive Event : Type :=
  | Call (attempt : nat)
  | Sleep (ms : Z).

Definition isQuotaError (error : JsError) : bool :=
  bool_decide (status error = Some 429)
  || includes "429" (json error)
  || includes "RESOURCE_EXHAUSTED" (json error).

Definition isEntityError (error : JsError) : bool :=
  includes "Requested entity was not found." (json error).

Section WithRetry.
Context {T : Type}.
(** [fn i] is what the [i]-th invocation of the wrapped call settles to. *)
Variable fn : nat -> Outcome T.
Variable maxRetries : Z.

(** The [for] loop: [remaining] counts the iterations for which
    [i <= maxRetries] still holds. *)
Fixpoint attempts (remaining : nat) (i : nat) (delay : Z)
  : list Event * Outcome T :=
  match remaining with
  | O => ([], Rejected (Error "RETRY_LIMIT_REACHED"))
  | S k =>
      match fn i with
      | Resolved v => ([Call i], Resolved v)
      | Rejected error =>
          if isEntityError error then
            ([Call i], Rejected (Error "ENTITY_NOT_FOUND"))
          else if isQuotaError error && bool_decide (Z.of_nat i < maxRetries) then
            let '(tr, r) := attempts k (S i) (delay * 2) in
            (Call i :: Sleep delay :: tr, r)
          else ([Call i], Rejected error)
      end
  end.

Definition withRetry : list Event * Outcome T :=
  attempts (Z.to_nat (maxRetries + 1)) 0 2000.
End WithRetry.

(** The calls and waits of [k] retried attempts. *)
Definition backoff (k : nat) : list Event :=
  flat_map (fun i => [Call i; Sleep (2000 * 2 ^ Z.of_nat i)]) (seq 0 k).

(** A failure that the loop retries: quota-classified, and not the
    session-invalid signal, which is tested first. *)
Definition retryable (e : JsError) : bool :=
  isQuotaError e && negb (isEntityError e).

End Retry.

(** ** The document: a store of element objects

    Every element object has a reference; the store gives its tag, its
    attributes, the references of its children in document order and the
    reference of its parent.  The functions below are the DOM calls that the
    component makes.  They are total: the DOM raises when a node is inserted
    under one of its own descendants or before a node that is not a child of
    the target, which the handlers never do on a document that is a tree, and
    the properties below are stated for such calls only.  An id selector is
    read as a search for the element whose [id] attribute is the given
    text. *)

Module Dom.

Import Js.

(** A reference to an element object. *)
Definition ref : Type := positive.

Record Element : Type := mkElement {
  tagName : string;
  attributes : gmap string string;
  children : list ref;
  parentNode : option ref
}.

Abbreviation Document := (gmap positive Element).

Definition with_attributes (f : gmap string string -> gmap string string)
    (e : Element) : Element :=
  mkElement (tagName e) (f (attributes e)) (children e) (parentNode e).

Definition with_children (l : list ref) (e : Element) : Element :=
  mkElement (tagName e) (attributes e) l (parentNode e).

Definition with_parent (p : option ref) (e : Element) : Element :=
  mkElement (tagName e) (attributes e) (children e) p.

Definition getAttribute (d : Document) (r : ref) (k : string) : option string :=
  match d !! r with
  | Some e => attributes e !! k
  | None => None
  end.

Definition tagOf (d : Document) (r : ref) : string :=
  match d !! r with
  | Some e => tagName e
  | None => EmptyString
  end.

Definition childrenOf (d : Document) (r : ref) : list ref :=
  match d !! r with
  | Some e => children e
  | None => []
  end.

Definition parentOf (d : Document) (r : ref) : option ref :=
  match d !! r with
  | Some e => parentNode e
  | None => None
  end.

(** What a node is labelled with, and how it is linked. *)
Definition labels (d : Document) (x : ref) : option (string * gmap string string) :=
  (fun e => (tagName e, attributes e)) <$> d !! x.

Definition links (d : Document) (x : ref) : option (list ref * option ref) :=
  (fun e => (children e, parentNode e)) <$> d !! x.

(** [frame W d d']: every object of [d] is still in [d'], with its tag and
    with every attribute that [W] does not list. *)
Definition frame (W : ref -> string -> Prop) (d d' : Document) : Prop :=
  forall x, is_Some (d !! x) ->
    is_Some (d' !! x) /\
    tagOf d' x = tagOf d x /\
    forall k, ~ W x k -> getAttribute d' x k = getAttribute d x k.

Definition setAttribute (r : ref) (k v : string) (d : Document) : Document :=
  alter (with_attributes (insert k v)) r d.

Definition setChildren (r : ref) (l : list ref) (d : Document) : Document :=
  alter (with_children l) r d.

Definition setParent (r : ref) (p : option ref) (d : Document) : Document :=
  alter (with_parent p) r d.

(** [document.createElementNS(svgNS, tag)]: a new object, attached nowhere. *)
Definition createElementNS (tag : string) (d : Document) : ref * Document :=
  let r := fresh (dom d) in
  (r, <[r := mkElement tag ∅ [] None]> d).

(** Taking a node out of its parent's child list, as every insertion of an
    already attached node does first. *)
Definition unlink (c : ref) (d : Document) : Document :=
  match parentOf d c with
  | None => d
  | Some p =>
      setParent c None
        (setChildren p (filter (fun x => x ≠ c) (childrenOf d p)) d)
  end.

Fixpoint insert_before (new refc : ref) (l : list ref) : list ref :=
  match l with
  | [] => [new]
  | x :: l' =>
      if decide (x = refc) then new :: x :: l'
      else x :: insert_before new refc l'
  end.

(** [p.insertBefore(new, refc)], called here only with [refc] a child of
    [p]. *)
Definition insertBefore (p new refc : ref) (d : Document) : Document :=
  let d1 := unlink new d in
  setParent new (Some p)
    (setChildren p (insert_before new refc (childrenOf d1 p)) d1).

(** [p.appendChild(c)], for a [c] that is not [p] or one of its ancestors
    (there the call throws).  The handlers append new nodes, and selected
    nodes to a container put next to the first of them: the properties of
    grouping are stated for selected siblings. *)
Definition appendChild (p c : ref) (d : Document) : Document :=
  let d1 := unlink c d in
  setParent c (Some p) (setChildren p (childrenOf d1 p ++ [c]) d1).

(** [p.prepend(c)]. *)
Definition prepend (p c : ref) (d : Document) : Document :=
  let d1 := unlink c d in
  setParent c (Some p) (setChildren p (c :: childrenOf d1 p) d1).

(** [c.remove()]. *)
Definition remove (c : ref) (d : Document) : Document := unlink c d.

(** [old.replaceWith(new)]: [new] takes the place of [old] under its
    parent. *)
Definition replaceWith (old new : ref) (d : Document) : Document :=
  match parentOf d old with
  | None => d
  | Some p =>
      let d1 := unlink new d in
      setParent old None
        (setParent new (Some p)
           (setChildren p
              (map (fun x => if decide (x = old) then new else x)
                 (childrenOf d1 p)) d1))
  end.

(** [r.innerHTML = ''] (written with the empty string): all children go. *)
Definition clearChildren (r : ref) (d : Document) : Document :=
  setChildren r []
    (foldr (fun c acc => setParent c None acc) d (childrenOf d r)).

(** The descendants of [r] in document order.  [fuel] bounds the depth; the
    number of objects of the store is enough for a tree. *)
Fixpoint descendants (fuel : nat) (d : Document) (r : ref) : list ref :=
  match fuel with
  | O => []
  | S f => flat_map (fun c => c :: descendants f d c) (childrenOf d r)
  end.

Definition matching (sel : Element -> bool) (d : Document) (x : ref) : bool :=
  match d !! x with
  | Some e => sel e
  | None => false
  end.

(** [r.querySelectorAll(sel)] and [r.querySelector(sel)]. *)
Definition querySelectorAll (sel : Element -> bool) (d : Document) (r : ref)
    : list ref :=
  List.filter (matching sel d) (descendants (size d) d r).

Definition querySelector (sel : Element -> bool) (d : Document) (r : ref)
    : option ref :=
  head (querySelectorAll sel d r).

(** The type selector [tag] and the id selector [#id].  [by_id id] is
    what the selector text [#id] selects when [id] is a plain name
    ([Scope.cssName]); with other characters in it the text is another
    selector, or none at all and [querySelector] throws.  The handlers
    build the text from ids of the document, so the properties of their
    enabled passes are stated for plain ids ([Scope.plainIds]). *)
Definition by_tag (tag : string) (e : Element) : bool :=
  bool_decide (tagName e = tag).

Definition by_id (id : string) (e : Element) : bool :=
  bool_decide (attributes e !! "id" = Some id).

(** [r.closest(sel)]: the nearest inclusive ancestor whose tag is in [tags]. *)
Fixpoint closest (fuel : nat) (tags : list string) (d : Document) (r : ref)
    : option ref :=
  match fuel with
  | O => None
  | S f =>
      match d !! r with
      | None => None
      | Some e =>
          if bool_decide (tagName e ∈ tags) then Some r
          else match parentNode e with
               | Some p => closest f tags d p
               | None => None
               end
      end
  end.

End Dom.

(** ** The editor component ([App.tsx]) *)

Module Editor.

Import Js Dom.

(** A box with whole-number sides: the boxes for which the sums of the
    layout are exact (see [Js.number]). *)
Record BoundingBox : Type := mkBox {
  x : Z;
  y : Z;
  width : Z;
  height : Z
}.

Inductive GradientType : Type :=
  | linear
  | radial.

Global Instance GradientType_eq_dec : EqDecision GradientType.
Proof. solve_decision. Defined.

Record GradientStop : Type := mkStop {
  offset : number;
  color : string
}.

Record GradientProps : Type := mkGradient {
  enabled : bool;
  type : GradientType;
  angle : Z;
  stops : list GradientStop
}.

(** The part of the component's state that the handlers below read and write.
    [rootSvg] is the value of [canvasRef.current?.querySelector('svg')]. *)
Record State : Type := mkState {
  document : Document;
  rootSvg : option ref;
  selectedElements : list ref;
  gradientProps : GradientProps
}.

Definition set_selection (sel : list ref) (st : State) : State :=
  mkState (document st) (rootSvg st) sel (gradientProps st).

(** *** Auto layout *)

Definition translate (a b : number) : string :=
  "translate(" +:+ show a +:+ ", " +:+ show b +:+ ")".

(** The sum of [w + gap] over the widths [ws]. *)
Definition advance (gap : Z) (ws : list Z) : Z :=
  foldr (fun w acc => (w + gap) + acc) 0 ws.

Section Layout.
(** The renderer's measurement of a node's own box; [None] when the call
    throws. *)
Variable getBBox : ref -> option BoundingBox.

Definition layoutChild (direction : string) (gap padding : number)
    (acc : Document * number) (child : ref) : Document * number :=
  let '(d, currentOffset) := acc in
  match getBBox child with
  | None => (d, currentOffset)
  | Some childBBox =>
      if bool_decide (direction = "horizontal") then
        (setAttribute child "transform" (translate currentOffset padding) d,
         num_add currentOffset (num_add (Int (width childBBox)) gap))
      else
        (setAttribute child "transform" (translate padding currentOffset) d,
         num_add currentOffset (num_add (Int (height childBBox)) gap))
  end.

Definition layoutChildren (d : Document) (group : ref) : list ref :=
  filter (fun c => tagOf d c ≠ "title" ∧ tagOf d c ≠ "desc")
    (childrenOf d group).

Definition runAutoLayout (group : ref) (d : Document) : Document :=
  if bool_decide (getAttribute d group "data-layout" = Some "flex") then
    let direction := or_else (getAttribute d group "data-direction") "horizontal" in
    let gap := parseInt (or_else (getAttribute d group "data-gap") "0") in
    let padding := parseInt (or_else (getAttribute d group "data-padding") "0") in
    let currentOffset := padding in
    fst (foldl (layoutChild direction gap padding) (d, currentOffset)
           (layoutChildren d group))
  else d.

(** The child [c] measures, and its box is [w] wide. *)
Definition measures (c : ref) (w : Z) : Prop :=
  exists b, getBBox c = Some b /\ width b = w.

(** *** Grouping and ungrouping *)

(** [rnd] is the draw [Math.random().toString(36).substr(2, 9)]. *)
Definition createAutoLayoutGroup (rnd : string) (st : State) : State :=
  if (length (selectedElements st) <? 2)%nat then st
  else
    match rootSvg st, selectedElements st with
    | None, _ => st
    | Some _, [] => st
    | Some _, firstElem :: _ =>
        let '(group, d0) := createElementNS "g" (document st) in
        let d1 :=
          setAttribute group "id" ("layout-" +:+ rnd)
            (setAttribute group "data-padding" "16"
               (setAttribute group "data-gap" "16"
                  (setAttribute group "data-direction" "horizontal"
                     (setAttribute group "data-layout" "flex" d0)))) in
        let d2 :=
          match parentOf d1 firstElem with
          | Some p => insertBefore p group firstElem d1
          | None => d1
          end in
        let d3 :=
          foldl (fun d el => appendChild group el d) d2 (selectedElements st) in
        let d4 := runAutoLayout group d3 in
        mkState d4 (rootSvg st) [group] (gradientProps st)
    end.
End Layout.

Definition ungroup (st : State) : State :=
  match selectedElements st with
  | [group] =>
      if bool_decide (tagOf (document st) group = "g") then
        match parentOf (document st) group with
        | None => st
        | Some parent =>
            let children := childrenOf (document st) group in
            let d1 :=
              foldl (fun d child => insertBefore parent child group d)
                (document st) children in
            let d2 := remove group d1 in
            mkState d2 (rootSvg st) children (gradientProps st)
        end
      else st
  | _ => st
  end.

(** *** Selection *)

Definition eligible : list string :=
  ["path"; "rect"; "circle"; "ellipse"; "text"; "g"].

(** [target] is the event's target and [shiftKey] its modifier. *)
Definition handleCanvasMouseDown (target : ref) (shiftKey : bool) (st : State)
    : State :=
  let d := document st in
  match closest (S (size d)) eligible d target with
  | Some svgEl =>
      if bool_decide (tagOf d svgEl ≠ "svg") then
        let nextSelection := selectedElements st in
        let nextSelection :=
          if shiftKey then
            if bool_decide (svgEl ∈ nextSelection) then
              filter (fun item => item ≠ svgEl) nextSelection
            else nextSelection ++ [svgEl]
          else [svgEl] in
        set_selection nextSelection st
      else set_selection [] st
  | None => set_selection [] st
  end.

(** *** Gradients *)

(** [Math.round]: the nearest integer, halves upwards. *)
Definition Math_round (v : R) : Z := Int_part (v + / 2)%R.

Definition rad (angle : Z) : R := (IZR angle * PI / 180)%R.

Definition percent (z : Z) : string := pretty z +:+ "%".

Definition x1_of (angle : Z) : Z := Math_round (50 - cos (rad angle) * 50)%R.
Definition y1_of (angle : Z) : Z := Math_round (50 - sin (rad angle) * 50)%R.
Definition x2_of (angle : Z) : Z := Math_round (50 + cos (rad angle) * 50)%R.
Definition y2_of (angle : Z) : Z := Math_round (50 + cos (rad angle) * 50)%R.

Definition gradTag (t : GradientType) : string :=
  match t with
  | linear => "linearGradient"
  | radial => "radialGradient"
  end.

(** The paint server of id [gradId] under [defs]: found, created at the end
    of [defs], or replaced in place when it is of the other kind. *)
Definition findOrCreateGradEl (defs : ref) (gradId : string)
    (t : GradientType) (d : Document) : ref * Document :=
  match querySelector (by_id gradId) d defs with
  | None =>
      let '(gradEl, d1) := createElementNS (gradTag t) d in
      (gradEl, appendChild defs gradEl (setAttribute gradEl "id" gradId d1))
  | Some gradEl =>
      if bool_decide (toLowerCase (tagOf d gradEl) ≠ toLowerCase (gradTag t)) then
        let '(newGradEl, d1) := createElementNS (gradTag t) d in
        (newGradEl,
         replaceWith gradEl newGradEl (setAttribute newGradEl "id" gradId d1))
      else (gradEl, d)
  end.

Definition setGeometry (g : GradientProps) (gradEl : ref) (d : Document)
    : Document :=
  match type g with
  | linear =>
      setAttribute gradEl "y2" (percent (y2_of (angle g)))
        (setAttribute gradEl "x2" (percent (x2_of (angle g)))
           (setAttribute gradEl "y1" (percent (y1_of (angle g)))
              (setAttribute gradEl "x1" (percent (x1_of (angle g))) d)))
  | radial =>
      setAttribute gradEl "r" "50%"
        (setAttribute gradEl "cy" "50%" (setAttribute gradEl "cx" "50%" d))
  end.

Definition appendStop (gradEl : ref) (d : Document) (stop : GradientStop)
    : Document :=
  let '(stopEl, d1) := createElementNS "stop" d in
  appendChild gradEl stopEl
    (setAttribute stopEl "stop-color" (color stop)
       (setAttribute stopEl "offset" (show (offset stop) +:+ "%") d1)).

(** The body of [selectedElements.forEach] in [updateGradientProperty].  The
    second component counts the draws of [Math.random] made so far; [rnd n]
    is the [n]-th draw, already cut to its five characters. *)
Definition gradientStep (rnd : nat -> string) (newGradient : GradientProps)
    (defs : ref) (acc : Document * nat) (el : ref) : Document * nat :=
  let '(d, n) := acc in
  if negb (enabled newGradient) then
    (setAttribute el "fill"
       (or_else (getAttribute d el "data-orig-fill")
          (or_else (getAttribute d el "fill") "#cccccc")) d, n)
  else
    let d1 :=
      if truthy (getAttribute d el "data-orig-fill") then d
      else setAttribute el "data-orig-fill"
             (or_else (getAttribute d el "fill") "#cccccc") d in
    let '(gradId, n') :=
      if truthy (getAttribute d1 el "id")
      then ("grad-" +:+ default EmptyString (getAttribute d1 el "id"), n)
      else ("grad-" +:+ rnd n, S n) in
    let '(gradEl, d2) := findOrCreateGradEl defs gradId (type newGradient) d1 in
    let d3 := setGeometry newGradient gradEl d2 in
    let d4 := clearChildren gradEl d3 in
    let d5 := foldl (appendStop gradEl) d4 (stops newGradient) in
    (setAttribute el "fill" ("url(#" +:+ gradId +:+ ")") d5, n').

(** The attributes that one pass of the loop may write: the fill and its
    record on the element itself, and the geometry of a paint server. *)
Definition geometryKeys : list string := ["x1"; "y1"; "x2"; "y2"; "cx"; "cy"; "r"].

Definition step_writes (el : ref) (x : ref) (k : string) : Prop :=
  (x = el /\ (k = "fill" \/ k = "data-orig-fill")) \/ k ∈ geometryKeys.

Definition fold_writes (sel : list ref) (x : ref) (k : string) : Prop :=
  (x ∈ sel /\ (k = "fill" \/ k = "data-orig-fill")) \/ k ∈ geometryKeys.

Definition no_writes (x : ref) (k : string) : Prop := False.

(** The id of the paint server that the loop binds [el] to, when [n] draws
    have been made. *)
Definition gradIdFor (rnd : nat -> string) (d : Document) (n : nat) (el : ref)
    : string :=
  if truthy (getAttribute d el "id")
  then "grad-" +:+ default EmptyString (getAttribute d el "id")
  else "grad-" +:+ rnd n.

Definition url (gradId : string) : string := "url(#" +:+ gradId +:+ ")".

(** An element without an explicit id ([el.id] is falsy). *)
Definition idless (d : Document) (el : ref) : bool :=
  negb (truthy (getAttribute d el "id")).

(** The fill that a disabled descriptor gives back to [el]. *)
Definition restoredFill (d : Document) (el : ref) : string :=
  or_else (getAttribute d el "data-orig-fill")
    (or_else (getAttribute d el "fill") "#cccccc").

(** The endpoints of a linear paint server are those of the angle [a]. *)
Definition linearGeometry (a : Z) (d : Document) (x : ref) : Prop :=
  getAttribute d x "x1" = Some (percent (x1_of a)) /\
  getAttribute d x "y1" = Some (percent (y1_of a)) /\
  getAttribute d x "x2" = Some (percent (x2_of a)) /\
  getAttribute d x "y2" = Some (percent (y2_of a)).

(** A linear paint server: an object that carries the id [gid], is of the
    linear kind, and has the endpoints of the angle [a]. *)
Definition linearServer (a : Z) (gid : string) (d : Document) (ge : ref) : Prop :=
  getAttribute d ge "id" = Some gid /\
  toLowerCase (tagOf d ge) = toLowerCase (gradTag linear) /\
  linearGeometry a d ge.

(** [{ ...gradientProps, [prop]: value }]. *)
Inductive GradientUpdate : Type :=
  | SetEnabled (b : bool)
  | SetType (t : GradientType)
  | SetAngle (a : Z)
  | SetStops (l : list GradientStop).

Definition applyUpdate (g : GradientProps) (u : GradientUpdate) : GradientProps :=
  match u with
  | SetEnabled b => mkGradient b (type g) (angle g) (stops g)
  | SetType t => mkGradient (enabled g) t (angle g) (stops g)
  | SetAngle a => mkGradient (enabled g) (type g) a (stops g)
  | SetStops l => mkGradient (enabled g) (type g) (angle g) l
  end.

(** The definitions container of the document, created and put first under
    the root when there is none. *)
Definition ensureDefs (root : ref) (d : Document) : ref * Document :=
  match querySelector (by_tag "defs") d root with
  | Some defs => (defs, d)
  | None =>
      let '(defs, d0) := createElementNS "defs" d in
      (defs, prepend root defs d0)
  end.

Definition updateGradientProperty (rnd : nat -> string) (u : GradientUpdate)
    (st : State) : State :=
  match selectedElements st with
  | [] => st
  | _ :: _ =>
      let newGradient := applyUpdate (gradientProps st) u in
      match rootSvg st with
      | None =>
          mkState (document st) (rootSvg st) (selectedElements st) newGradient
      | Some root =>
          let '(defs, d1) := ensureDefs root (document st) in
          let '(d2, _) :=
            foldl (gradientStep rnd newGradient defs) (d1, O)
              (selectedElements st) in
          mkState d2 (rootSvg st) (selectedElements st) newGradient
      end
  end.

(** [stops.filter((_, i) => i !== index)]. *)
Definition filter_index {A : Type} (index : nat) (l : list A) : list A :=
  map snd (List.filter (fun p => negb (fst p =? index)%nat) (imap pair l)).

Definition removeGradientStop (rnd : nat -> string) (index : nat) (st : State)
    : State :=
  if (length (stops (gradientProps st)) <=? 2)%nat then st
  else
    let newStops := filter_index index (stops (gradientProps st)) in
    updateGradientProperty rnd (SetStops newStops) st.

Definition addGradientStop (rnd : nat -> string) (st : State) : State :=
  let newStops := stops (gradientProps st) ++ [mkStop (Int 100) "#000000"] in
  updateGradientProperty rnd (SetStops newStops) st.

(** *** The gradient panel, derived when the selection changes

    The part of the selection effect that sets [gradientProps]; the effect
    returns before it when nothing is selected. *)
Definition readStop (d : Document) (s : ref) : GradientStop :=
  mkStop (parseInt (or_else (getAttribute d s "offset") "0"))
         (or_else (getAttribute d s "stop-color") "#000000").

Definition selectionEffect_gradient (st : State) : GradientProps :=
  let d := document st in
  let prev := gradientProps st in
  match selectedElements st with
  | [] => prev
  | firstEl :: _ =>
      let fill := getAttribute d firstEl "fill" in
      if truthy fill && startsWith "url(#" (default EmptyString fill) then
        let gradId := slice_5_m1 (default EmptyString fill) in
        match rootSvg st ≫= querySelector (by_id gradId) d with
        | Some gradEl =>
            let stops' := map (readStop d) (querySelectorAll (by_tag "stop") d gradEl) in
            mkGradient true
              (if includes "linear" (toLowerCase (tagOf d gradEl))
               then linear else radial)
              90
              (if (0 <? length stops')%nat then stops' else stops prev)
        | None => prev
        end
      else mkGradient false (type prev) (angle prev) (stops prev)
  end.

End Editor.


(** ** Radial paint servers *)

Module Paint.

Import Js Dom Editor.

(** A radial paint server: an object that carries the id [gid], is of the
    radial kind, and is the centred circle. *)
Definition radialGeometry (d : Document) (x : ref) : Prop :=
  getAttribute d x "cx" = Some "50%" /\
  getAttribute d x "cy" = Some "50%" /\
  getAttribute d x "r" = Some "50%".

Definition radialServer (gid : string) (d : Document) (ge : ref) : Prop :=
  getAttribute d ge "id" = Some gid /\
  toLowerCase (tagOf d ge) = toLowerCase (gradTag radial) /\
  radialGeometry d ge.

(** [ge] carries the id [gid] and is a paint server of the kind [t]. *)
Definition paintServer (t : GradientType) (gid : string) (d : Document)
    (ge : ref) : Prop :=
  getAttribute d ge "id" = Some gid /\
  toLowerCase (tagOf d ge) = toLowerCase (gradTag t).

(** [s] is a stop of the paint server [ge], written from [stop]. *)
Definition stopNode (d : Document) (ge s : ref) (stop : GradientStop) : Prop :=
  tagOf d s = "stop" /\
  parentOf d s = Some ge /\
  getAttribute d s "offset" = Some (show (offset stop) +:+ "%") /\
  getAttribute d s "stop-color" = Some (color stop).

End Paint.

(** ** The rest of the editor: deletion, the layout panel, layout properties *)

Module Inspector.

Import Js Dom Editor.


(** [path] lists a node, its parent, the parent of that, and so on. *)
Fixpoint linked (d : Document) (path : list ref) : Prop :=
  match path with
  | a :: (b :: _) as rest => parentOf d a = Some b /\ linked d rest
  | _ => True
  end.

Record LayoutProps : Type := mkLayout {
  enabled : bool;
  direction : string;
  gap : number;
  padding : number
}.

(** Whether a number is truthy: neither zero nor [NaN]. *)
Definition num_truthy (n : number) : bool :=
  match n with
  | NaN => false
  | Int z => negb (z =? 0)
  end.

(** [{ ...prev, [prop]: prop === 'direction' ? value : parseInt(value) }].  A
    key that the panel does not have adds a property that nothing reads. *)
Definition mirrorLayout (prev : LayoutProps) (prop value : string) : LayoutProps :=
  if bool_decide (prop = "direction") then
    mkLayout (enabled prev) value (gap prev) (padding prev)
  else if bool_decide (prop = "gap") then
    mkLayout (enabled prev) (direction prev) (parseInt value) (padding prev)
  else if bool_decide (prop = "padding") then
    mkLayout (enabled prev) (direction prev) (gap prev) (parseInt value)
  else if bool_decide (prop = "enabled") then
    mkLayout (num_truthy (parseInt value)) (direction prev) (gap prev) (padding prev)
  else prev.

(** The layout panel of the selection effect; the effect returns before it
    when nothing is selected. *)
Definition selectionEffect_layout (st : State) (prev : LayoutProps) : LayoutProps :=
  let d := document st in
  match selectedElements st with
  | [] => prev
  | [el] =>
      if bool_decide (tagOf d el = "g") then
        let isLayout := bool_decide (getAttribute d el "data-layout" = Some "flex") in
        mkLayout isLayout
          (or_else (getAttribute d el "data-direction") "horizontal")
          (parseInt (or_else (getAttribute d el "data-gap") "16"))
          (parseInt (or_else (getAttribute d el "data-padding") "16"))
      else mkLayout false (direction prev) (gap prev) (padding prev)
  | _ :: _ :: _ => mkLayout false (direction prev) (gap prev) (padding prev)
  end.

Section LayoutProperty.
Variable getBBox : ref -> option BoundingBox.

(** [updateLayoutProperty(group, prop, value)]: the attribute is written, the
    container is laid out again, and the panel follows when the container is
    the whole selection. *)
Definition updateLayoutProperty (group : ref) (prop value : string)
    (st : State) (layoutProps : LayoutProps) : State * LayoutProps :=
  let d1 := setAttribute group ("data-" +:+ prop) value (document st) in
  let d2 := runAutoLayout getBBox group d1 in
  (mkState d2 (rootSvg st) (selectedElements st) (gradientProps st),
   if bool_decide (selectedElements st = [group])
   then mirrorLayout layoutProps prop value
   else layoutProps).

(** The running offset of the layout loop after the children [cs]: a child
    that does not measure leaves it as it is. *)
Definition extent (direction : string) (b : BoundingBox) : Z :=
  if bool_decide (direction = "horizontal") then width b else height b.

Definition runningOffset (direction : string) (gap start : number)
    (cs : list ref) : number :=
  foldl (fun o c =>
           match getBBox c with
           | None => o
           | Some b => num_add o (num_add (Int (extent direction b)) gap)
           end) start cs.

(** The translation that the loop writes at the offset [o]. *)
Definition placed (direction : string) (padding o : number) : string :=
  if bool_decide (direction = "horizontal") then translate o padding
  else translate padding o.
End LayoutProperty.

End Inspector.

(** ** The generation service and its caller *)

Module Service.

Import Js Retry.

(** [s.slice(0, n)]. *)
Fixpoint take_str (n : nat) (s : string) : string :=
  match n, s with
  | O, _ => EmptyString
  | S _, EmptyString => EmptyString
  | S k, String a s' => String a (take_str k s')
  end.

(** A prefix test that ignores the case of ASCII letters, as the [i] flag
    of a regular expression does. *)
Definition startsWith_ci (p s : string) : bool :=
  startsWith (toLowerCase p) (toLowerCase s).

(** The longest prefix of [s] that ends with the closing tag. *)
Fixpoint upToLastClose (s : string) : option string :=
  match s with
  | EmptyString => None
  | String a s' =>
      match upToLastClose s' with
      | Some r => Some (String a r)
      | None => if startsWith_ci "</svg>" s then Some (take_str 6 s) else None
      end
  end.

(** [text.match(/<svg[\s\S]*<\/svg>/i)]: from the first opening tag to the
    last closing tag behind it. *)
Fixpoint svgMatch (text : string) : option string :=
  match text with
  | EmptyString => None
  | String _ rest =>
      if startsWith_ci "<svg" text then
        match upToLastClose (drop_str 4 text) with
        | Some r => Some (take_str 4 text +:+ r)
        | None => None
        end
      else svgMatch rest
  end.

(** The call that [generateSVGDesign] hands to [withRetry]: the backend's
    answer, cut down to its vector document. *)
Definition extractSvg (response : Outcome string) : Outcome string :=
  match response with
  | Resolved text =>
      match svgMatch text with
      | Some svg => Resolved svg
      | None => Rejected (Error "SVG_PARSE_FAILED")
      end
  | Rejected e => Rejected e
  end.

(** The number of calls in a trace, and the time spent waiting. *)
Definition calls (tr : list Event) : nat :=
  length (List.filter (fun ev => match ev with Call _ => true | Sleep _ => false end) tr).

Definition waited (tr : list Event) : Z :=
  foldr (fun ev acc => match ev with Call _ => acc | Sleep ms => ms + acc end) 0 tr.

(** What the [catch] of [handleGenerate] makes of an error. *)
Inductive Failure : Type :=
  | SessionInvalid
  | QuotaExceeded
  | SystemError (msg : string).

Definition classify (err : JsError) : Failure :=
  if bool_decide (message err = Some "ENTITY_NOT_FOUND")
     || includes "Requested entity was not found." (json err)
  then SessionInvalid
  else if bool_decide (status err = Some 429)
          || match message err with
             | Some m => includes "429" m
             | None => false
             end
          || includes "429" (json err)
          || includes "RESOURCE_EXHAUSTED" (json err)
  then QuotaExceeded
  else SystemError (or_else (message err) "Generation failed. Please try again.").

(** The first [k] calls fail with errors that the helper retries, and the
    budget allows a call number [k]. *)
Definition retriedUntil {T : Type} (fn : nat -> Outcome T) (maxRetries : Z)
    (k : nat) : Prop :=
  Z.of_nat k <= maxRetries /\
  forall j, (j < k)%nat -> exists e, fn j = Rejected e /\ retryable e = true.

(** The brief as [JSON.parse] gives it: a field is [None] when the answer
    has no value of that kind under the key.  The fallback answer [{}] has
    none of them. *)
Record DesignBrief : Type := mkBrief {
  suggestedTitle : option string;
  description : option string;
  primaryColors : option (list string);
  selectedComponent : option string
}.

Inductive Generation : Type :=
  | Generated (brief : DesignBrief) (svg : string)
  | Failed (f : Failure).

(** What [generateSVGDesign] does before it enters [withRetry]: it writes
    the prompt, and [brief.primaryColors.join(', ')] throws a [TypeError]
    when the brief has no list of colours.  [joinMessage] is the message
    that the engine gives that error. *)
Definition promptError (joinMessage : string) (brief : DesignBrief)
    : option JsError :=
  match primaryColors brief with
  | Some _ => None
  | None => Some (Error joinMessage)
  end.

(** One run of [handleGenerate]: the calls and waits of the two stages, and
    what the user is shown. *)
Record Run : Type := mkRun {
  briefTrace : list Event;
  vectorTrace : list Event;
  outcome : Generation
}.

(** [handleGenerate]: the brief, then the vector for that brief, each under
    [withRetry] with its default budget; [briefCalls i] and [svgCalls db i]
    are what the backend answers to the [i]-th call.  [client] is the error
    that [new GoogleGenAI(...)] throws, if it throws; both stages build a
    client from the same key, so the second never fails where the first
    did not. *)
Definition handleGenerate (client : option JsError) (joinMessage : string)
    (briefCalls : nat -> Outcome DesignBrief)
    (svgCalls : DesignBrief -> nat -> Outcome string) : Run :=
  match client with
  | Some err => mkRun [] [] (Failed (classify err))
  | None =>
      let '(tb, rb) := withRetry briefCalls 2 in
      match rb with
      | Rejected err => mkRun tb [] (Failed (classify err))
      | Resolved db =>
          match promptError joinMessage db with
          | Some err => mkRun tb [] (Failed (classify err))
          | None =>
              let '(tv, rv) := withRetry (fun i => extractSvg (svgCalls db i)) 2 in
              match rv with
              | Rejected err => mkRun tb tv (Failed (classify err))
              | Resolved svg => mkRun tb tv (Generated db svg)
              end
          end
      end
  end.

End Service.

(** ** Where the model is the code

    The model reads an id selector as a lookup of the id, and computes with
    exact integers.  The predicates below say when that is what the code
    does; the properties that need it assume them. *)

Module Scope.

Import Js Dom Editor Inspector.

(** A character that an id selector can carry as it is. *)
Definition nameChar (c : ascii) : bool :=
  let n := N_of_ascii c in
  (((48 <=? n) && (n <=? 57)) || ((65 <=? n) && (n <=? 90))
   || ((97 <=? n) && (n <=? 122)) || (n =? 45) || (n =? 95))%N.

(** A plain name: letters, digits, [-] and [_].  For such an [id] the
    selector text [#grad-id] selects by the id [grad-id] and nothing else. *)
Fixpoint cssName (s : string) : bool :=
  match s with
  | EmptyString => true
  | String c r => nameChar c && cssName r
  end.

(** The ids that the loop of [updateGradientProperty] can put into a
    selector are plain names: the ids of the selected elements, and the
    draws it may use, one per element at most. *)
Definition plainIds (rnd : nat -> string) (d : Document) (sel : list ref)
    : bool :=
  forallb (fun n => cssName (rnd n)) (seq 0 (length sel))
  && forallb (fun x => match getAttribute d x "id" with
                       | Some id => cssName id
                       | None => true
                       end) sel.

(** [Number.isSafeInteger]. *)
Definition isSafeInteger (z : Z) : bool := Z.abs z <=? 2 ^ 53 - 1.

Definition safeNumber (n : number) : bool :=
  match n with
  | NaN => true
  | Int z => isSafeInteger z
  end.

(** Every number that the layout loop computes for boxes of the extents
    [ws] is a safe integer: gap and padding, each extent, each step and each
    running offset. *)
Definition exactSums (gap padding : Z) (ws : list Z) : bool :=
  isSafeInteger gap && isSafeInteger padding
  && forallb (fun w => isSafeInteger w && isSafeInteger (w + gap)) ws
  && forallb (fun i => isSafeInteger (padding + advance gap (take i ws)))
       (seq 0 (S (length ws))).

Section Exact.
Variable getBBox : ref -> option BoundingBox.

(** The same for the loop as it runs, where a child may fail to measure and
    gap and padding may be [NaN]. *)
Fixpoint exactFrom (direction : string) (gap o : number) (cs : list ref)
    : bool :=
  match cs with
  | [] => true
  | c :: cs' =>
      match getBBox c with
      | None => exactFrom direction gap o cs'
      | Some b =>
          let step := num_add (Int (extent direction b)) gap in
          isSafeInteger (extent direction b) && safeNumber step
          && safeNumber (num_add o step)
          && exactFrom direction gap (num_add o step) cs'
      end
  end.

Definition exactRun (direction : string) (gap padding : number)
    (cs : list ref) : bool :=
  safeNumber gap && safeNumber padding && exactFrom direction gap padding cs.
End Exact.

End Scope.
(** ** Sample inputs

    Concrete documents, selections and backend behaviours on which the
    properties below are instantiated. *)

Module Samples.

Import Js Dom Editor.

(** Two quota failures, then the session-invalid signal, with the default
    budget of two retries. *)
Definition quota_err : Retry.JsError :=
  Retry.mkJsError (Some 429) (Some "quota") "{status:429}".

Definition entity_err : Retry.JsError :=
  Retry.mkJsError (Some 404) (Some "not found")
    "{message:Requested entity was not found.}".

Definition flaky (i : nat) : Retry.Outcome unit :=
  if (i <? 2)%nat then Retry.Rejected quota_err
  else Retry.Rejected entity_err.

(** A canvas with three rectangles under the root. *)
Definition node (tag : string) (attrs : list (string * string))
    (kids : list ref) (parent : option ref) : Element :=
  mkElement tag (list_to_map attrs) kids parent.

Definition doc0 : Document :=
  list_to_map
    [(1%positive, node "svg" [] [2; 3; 4]%positive None);
     (2%positive, node "rect" [("id", "a")] [] (Some 1%positive));
     (3%positive, node "rect" [] [] (Some 1%positive));
     (4%positive, node "rect" [("fill", "#ff0000")] [] (Some 1%positive))].

(** The same canvas after a radial gradient was put on the last rectangle:
    its solid fill is recorded, and the middle rectangle has a fill of its
    own and no record. *)
Definition doc1 : Document :=
  list_to_map
    [(1%positive, node "svg" [] [5; 2; 3; 4]%positive None);
     (5%positive, node "defs" [] [6%positive] (Some 1%positive));
     (6%positive, node "radialGradient"
                    [("id", "grad-r0"); ("cx", "50%"); ("cy", "50%"); ("r", "50%")]
                    [] (Some 5%positive));
     (2%positive, node "rect" [("id", "a")] [] (Some 1%positive));
     (3%positive, node "rect" [("fill", "#00ff00")] [] (Some 1%positive));
     (4%positive, node "rect"
                    [("fill", "url(#grad-r0)"); ("data-orig-fill", "#ff0000")]
                    [] (Some 1%positive))].

Definition defaultGradient : GradientProps :=
  mkGradient false linear 90 [mkStop (Int 0) "#6366f1"; mkStop (Int 100) "#a855f7"].

Definition editing (sel : list ref) : State :=
  mkState doc0 (Some 1%positive) sel defaultGradient.

Definition gradientOn (sel : list ref) : State :=
  mkState doc1 (Some 1%positive) sel
    (mkGradient true radial 90 [mkStop (Int 0) "#6366f1"; mkStop (Int 100) "#a855f7"]).

Definition linearOn (sel : list ref) : State :=
  mkState doc0 (Some 1%positive) sel
    (mkGradient true linear 90 [mkStop (Int 0) "#6366f1"; mkStop (Int 100) "#a855f7"]).



(** A container as the editor makes them, holding two rectangles. *)
Definition doc4 : Document :=
  list_to_map
    [(1%positive, node "svg" [] [2%positive] None);
     (2%positive, node "g"
                    [("data-layout", "flex"); ("data-direction", "horizontal");
                     ("data-gap", "16"); ("data-padding", "16")]
                    [3; 4]%positive (Some 1%positive));
     (3%positive, node "rect" [] [] (Some 2%positive));
     (4%positive, node "rect" [] [] (Some 2%positive))].

(** A rectangle whose fill refers to a paint server that the document does
    not have, selected while the panel still shows the gradient of the
    element selected before. *)
Definition doc2 : Document :=
  list_to_map
    [(1%positive, node "svg" [] [2%positive] None);
     (2%positive, node "rect" [("fill", "url(#gone)")] [] (Some 1%positive))].

Definition dangling : State :=
  mkState doc2 (Some 1%positive) [2%positive]
    (mkGradient true linear 90 [mkStop (Int 0) "#6366f1"; mkStop (Int 100) "#a855f7"]).

Definition box10 (r : ref) : option BoundingBox := Some (mkBox 0 0 10 20).

Definition draws (n : nat) : string := "r" +:+ pretty n.

Definition draws' (n : nat) : string := "q" +:+ pretty n.

(** One quota failure, then a failure that the helper does not know. *)
Definition unknown_err : Retry.JsError :=
  Retry.mkJsError (Some 500) (Some "boom") "{status:500}".

Definition broken (i : nat) : Retry.Outcome unit :=
  if (i <? 1)%nat then Retry.Rejected quota_err
  else Retry.Rejected unknown_err.

(** A backend that answers at once, the vector wrapped in prose. *)
Definition answer : string := "Here: <svg><rect/></svg> done".

Definition brief : Service.DesignBrief :=
  Service.mkBrief (Some "Dashboard") (Some "A clean dashboard")
    (Some ["#6366f1"; "#a855f7"]) (Some "Modern Flat Professional").

(** The brief that the fallback answer [{}] parses to. *)
Definition emptyBrief : Service.DesignBrief :=
  Service.mkBrief None None None (Some "Modern Flat Professional").

Definition briefReady (i : nat) : Retry.Outcome Service.DesignBrief :=
  Retry.Resolved brief.

Definition briefEmpty (i : nat) : Retry.Outcome Service.DesignBrief :=
  Retry.Resolved emptyBrief.

Definition briefFlaky (i : nat) : Retry.Outcome Service.DesignBrief :=
  if (i <? 2)%nat then Retry.Rejected quota_err
  else Retry.Rejected entity_err.

Definition vectorReady (b : Service.DesignBrief) (i : nat)
    : Retry.Outcome string :=
  Retry.Resolved answer.

Definition joinMessage : string :=
  "Cannot read properties of undefined (reading 'join')".





(** A text with a span in it. *)
Definition doc5 : Document :=
  list_to_map
    [(1%positive, node "svg" [] [2%positive] None);
     (2%positive, node "text" [] [3%positive] (Some 1%positive));
     (3%positive, node "tspan" [] [] (Some 2%positive))].

(** A renderer that cannot measure the node 3. *)
Definition partialBox (r : ref) : option BoundingBox :=
  if decide (r = 3%positive) then None else Some (mkBox 0 0 10 20).

(** A column container. *)
Definition doc6 : Document :=
  list_to_map
    [(1%positive, node "svg" [] [2%positive] None);
     (2%positive, node "g"
                    [("data-layout", "flex"); ("data-direction", "vertical");
                     ("data-gap", "8"); ("data-padding", "4")]
                    [3; 4]%positive (Some 1%positive));
     (3%positive, node "rect" [] [] (Some 2%positive));
     (4%positive, node "rect" [] [] (Some 2%positive))].

(** A flex container that says nothing of its direction, gap and padding. *)
Definition doc7 : Document :=
  list_to_map
    [(1%positive, node "svg" [] [2%positive] None);
     (2%positive, node "g" [("data-layout", "flex")]
                    [3; 4]%positive (Some 1%positive));
     (3%positive, node "rect" [] [] (Some 2%positive));
     (4%positive, node "rect" [] [] (Some 2%positive))].

Definition showing (d : Document) (sel : list ref) : State :=
  mkState d (Some 1%positive) sel defaultGradient.

End Samples.

(** * Properties *)

(** ** The store primitives *)

Lemma filter_all {A : Type} (P : A -> Prop) `{forall a, Decision (P a)}
    (l : list A) :
  Forall P l -> filter P l = l.
Proof.
  induction 1 as [|a l Ha Hl IH]; [done|].
  rewrite filter_cons_True by done. by rewrite IH.
Qed.

Section DomFacts.
Import Js Dom.
Implicit Types (d : Document) (r x c p : ref) (k v : string).

Lemma getAttribute_labels d x k :
  getAttribute d x k = labels d x ≫= fun l => l.2 !! k.
Proof. unfold getAttribute, labels. by destruct (d !! x). Qed.

Lemma tagOf_labels d x :
  tagOf d x = from_option fst EmptyString (labels d x).
Proof. unfold tagOf, labels. by destruct (d !! x). Qed.

Lemma childrenOf_links d x :
  childrenOf d x = from_option fst [] (links d x).
Proof. unfold childrenOf, links. by destruct (d !! x). Qed.

Lemma parentOf_links d x :
  parentOf d x = links d x ≫= snd.
Proof. unfold parentOf, links. by destruct (d !! x). Qed.

Lemma labels_is_Some d x : is_Some (labels d x) <-> is_Some (d !! x).
Proof. unfold labels. by rewrite fmap_is_Some. Qed.

Lemma links_is_Some d x : is_Some (links d x) <-> is_Some (d !! x).
Proof. unfold links. by rewrite fmap_is_Some. Qed.

(** *** Attribute writes leave the links alone *)

Lemma links_setAttribute r k v d x :
  links (setAttribute r k v d) x = links d x.
Proof.
  unfold links, setAttribute. rewrite lookup_alter.
  case_decide; subst; by destruct (d !! x).
Qed.

Lemma labels_setAttribute_ne r k v d x :
  x ≠ r -> labels (setAttribute r k v d) x = labels d x.
Proof.
  intros Hne. unfold labels, setAttribute. by rewrite lookup_alter_ne.
Qed.

Lemma setAttribute_is_Some r k v d x :
  is_Some (setAttribute r k v d !! x) <-> is_Some (d !! x).
Proof. by rewrite <- !links_is_Some, links_setAttribute. Qed.

Lemma getAttribute_setAttribute_eq r k v d :
  is_Some (d !! r) -> getAttribute (setAttribute r k v d) r k = Some v.
Proof.
  intros [e He]. unfold getAttribute, setAttribute.
  rewrite lookup_alter_eq, He. cbn. apply lookup_insert_eq.
Qed.

Lemma getAttribute_setAttribute_ne r k v d x k' :
  x ≠ r \/ k' ≠ k ->
  getAttribute (setAttribute r k v d) x k' = getAttribute d x k'.
Proof.
  intros Hne. unfold getAttribute, setAttribute. rewrite lookup_alter.
  case_decide as Hx; [subst x|done].
  destruct (d !! r) as [e|]; [|done]. cbn.
  destruct Hne as [Hne|Hne]; [done|]. by rewrite lookup_insert_ne.
Qed.

Lemma tagOf_setAttribute r k v d x :
  tagOf (setAttribute r k v d) x = tagOf d x.
Proof.
  unfold tagOf, setAttribute. rewrite lookup_alter.
  case_decide; subst; by destruct (d !! x).
Qed.

Lemma childrenOf_setAttribute r k v d x :
  childrenOf (setAttribute r k v d) x = childrenOf d x.
Proof. by rewrite !childrenOf_links, links_setAttribute. Qed.

Lemma parentOf_setAttribute r k v d x :
  parentOf (setAttribute r k v d) x = parentOf d x.
Proof. by rewrite !parentOf_links, links_setAttribute. Qed.

(** *** Link writes leave the labels alone *)

Lemma labels_setChildren r l d x : labels (setChildren r l d) x = labels d x.
Proof.
  unfold labels, setChildren. rewrite lookup_alter.
  case_decide; subst; by destruct (d !! x).
Qed.

Lemma labels_setParent r o d x : labels (setParent r o d) x = labels d x.
Proof.
  unfold labels, setParent. rewrite lookup_alter.
  case_decide; subst; by destruct (d !! x).
Qed.

Lemma childrenOf_setChildren r l d x :
  childrenOf (setChildren r l d) x =
  if decide (x = r)
  then match d !! r with Some _ => l | None => [] end
  else childrenOf d x.
Proof.
  unfold childrenOf, setChildren.
  destruct (decide (x = r)) as [->|Hne].
  - rewrite lookup_alter_eq. by destruct (d !! r).
  - by rewrite lookup_alter_ne.
Qed.

Lemma parentOf_setChildren r l d x :
  parentOf (setChildren r l d) x = parentOf d x.
Proof.
  unfold parentOf, setChildren. rewrite lookup_alter.
  case_decide; subst; by destruct (d !! x).
Qed.

Lemma childrenOf_setParent r o d x :
  childrenOf (setParent r o d) x = childrenOf d x.
Proof.
  unfold childrenOf, setParent. rewrite lookup_alter.
  case_decide; subst; by destruct (d !! x).
Qed.

Lemma parentOf_setParent r o d x :
  parentOf (setParent r o d) x =
  if decide (x = r)
  then match d !! r with Some _ => o | None => None end
  else parentOf d x.
Proof.
  unfold parentOf, setParent.
  destruct (decide (x = r)) as [->|Hne].
  - rewrite lookup_alter_eq. by destruct (d !! r).
  - by rewrite lookup_alter_ne.
Qed.

Lemma setChildren_is_Some r l d x :
  is_Some (setChildren r l d !! x) <-> is_Some (d !! x).
Proof. by rewrite <- !labels_is_Some, labels_setChildren. Qed.

Lemma setParent_is_Some r o d x :
  is_Some (setParent r o d !! x) <-> is_Some (d !! x).
Proof. by rewrite <- !labels_is_Some, labels_setParent. Qed.

(** *** New objects *)

Lemma createElementNS_fresh tag d : d !! (createElementNS tag d).1 = None.
Proof. cbn. apply not_elem_of_dom, is_fresh. Qed.

Lemma createElementNS_new tag d :
  (createElementNS tag d).2 !! (createElementNS tag d).1
  = Some (mkElement tag ∅ [] None).
Proof. cbn. apply lookup_insert_eq. Qed.

Lemma createElementNS_old tag d x :
  is_Some (d !! x) -> (createElementNS tag d).2 !! x = d !! x.
Proof.
  intros [e He]. cbn. rewrite lookup_insert_ne; [done|].
  intros <-. pose proof (createElementNS_fresh tag d) as Hf.
  cbn in Hf. congruence.
Qed.

Lemma createElementNS_ne tag d x :
  x ≠ (createElementNS tag d).1 -> (createElementNS tag d).2 !! x = d !! x.
Proof. intros Hne. cbn. by rewrite lookup_insert_ne. Qed.

(** *** Moving nodes changes no label *)

Lemma labels_unlink c d x : labels (unlink c d) x = labels d x.
Proof.
  unfold unlink. destruct (parentOf d c); [|done].
  by rewrite labels_setParent, labels_setChildren.
Qed.

Lemma labels_insertBefore p c r d x :
  labels (insertBefore p c r d) x = labels d x.
Proof.
  unfold insertBefore.
  by rewrite labels_setParent, labels_setChildren, labels_unlink.
Qed.

Lemma labels_appendChild p c d x : labels (appendChild p c d) x = labels d x.
Proof.
  unfold appendChild.
  by rewrite labels_setParent, labels_setChildren, labels_unlink.
Qed.

Lemma labels_prepend p c d x : labels (prepend p c d) x = labels d x.
Proof.
  unfold prepend.
  by rewrite labels_setParent, labels_setChildren, labels_unlink.
Qed.

Lemma labels_replaceWith old new d x :
  labels (replaceWith old new d) x = labels d x.
Proof.
  unfold replaceWith. destruct (parentOf d old); [|done].
  by rewrite !labels_setParent, labels_setChildren, labels_unlink.
Qed.

Lemma labels_clearChildren r d x : labels (clearChildren r d) x = labels d x.
Proof.
  unfold clearChildren. rewrite labels_setChildren.
  induction (childrenOf d r) as [|c l IH]; [done|].
  cbn [foldr]. by rewrite labels_setParent.
Qed.

(** *** Unlinking *)

Lemma childrenOf_unlink c d x :
  childrenOf (unlink c d) x =
  if decide (parentOf d c = Some x)
  then filter (fun y => y ≠ c) (childrenOf d x)
  else childrenOf d x.
Proof.
  unfold unlink. destruct (parentOf d c) as [p|] eqn:Hp.
  - rewrite childrenOf_setParent, childrenOf_setChildren.
    destruct (decide (x = p)) as [->|Hne].
    + rewrite decide_True by done.
      unfold childrenOf. by destruct (d !! p).
    + rewrite decide_False by congruence. done.
  - by rewrite decide_False.
Qed.

Lemma parentOf_unlink c d x :
  parentOf (unlink c d) x = if decide (x = c) then None else parentOf d x.
Proof.
  unfold unlink. destruct (parentOf d c) as [p|] eqn:Hp.
  - rewrite parentOf_setParent, parentOf_setChildren.
    case_decide; [|done]. subst x.
    destruct (setChildren p _ d !! c) eqn:Hc; [done|].
    exfalso. apply eq_None_not_Some in Hc. apply Hc.
    apply setChildren_is_Some. unfold parentOf in Hp.
    by destruct (d !! c).
  - case_decide; by subst.
Qed.

Lemma unlink_is_Some c d x : is_Some (unlink c d !! x) <-> is_Some (d !! x).
Proof. by rewrite <- !labels_is_Some, labels_unlink. Qed.
End DomFacts.

(** ** What a handler may change

    [frame W d d']: every object of [d] is still in [d'] with its tag, and
    with every attribute that [W] does not list. *)

Section FrameFacts.
Import Js Dom.
Implicit Types (d : Document) (r x c p : ref) (k v : string).
Implicit Types (W : ref -> string -> Prop).

Lemma frame_refl W d : frame W d d.
Proof. by intros x Hx. Qed.

Lemma frame_trans W d1 d2 d3 : frame W d1 d2 -> frame W d2 d3 -> frame W d1 d3.
Proof.
  intros H12 H23 x Hx. destruct (H12 x Hx) as (Hx2 & Ht2 & Ha2).
  destruct (H23 x Hx2) as (Hx3 & Ht3 & Ha3).
  split; [done|]. split; [congruence|].
  intros k Hk. rewrite Ha3, Ha2; done.
Qed.

Lemma frame_weaken W W' d d' :
  (forall x k, W x k -> W' x k) -> frame W d d' -> frame W' d d'.
Proof.
  intros Hsub H x Hx. destruct (H x Hx) as (Hx' & Ht & Ha).
  split; [done|]. split; [done|]. intros k Hk. apply Ha. naive_solver.
Qed.

Lemma frame_labels W d d' :
  (forall x, labels d' x = labels d x) -> frame W d d'.
Proof.
  intros Hl x Hx. split; [|split].
  - apply labels_is_Some. rewrite Hl. by apply labels_is_Some.
  - by rewrite !tagOf_labels, Hl.
  - intros k _. by rewrite !getAttribute_labels, Hl.
Qed.

Lemma frame_setAttribute W r k v d :
  W r k -> frame W d (setAttribute r k v d).
Proof.
  intros Hw x Hx. split; [by apply setAttribute_is_Some|].
  split; [apply tagOf_setAttribute|].
  intros k' Hk'. apply getAttribute_setAttribute_ne.
  destruct (decide (x = r)) as [->|]; [right|by left]. by intros ->.
Qed.

Lemma frame_createElementNS W tag d : frame W d (createElementNS tag d).2.
Proof.
  intros x Hx. pose proof (createElementNS_old tag d x Hx) as Heq.
  split; [by rewrite Heq|]. split.
  - unfold tagOf. by rewrite Heq.
  - intros k _. unfold getAttribute. by rewrite Heq.
Qed.

(** Writing an attribute of an object that [d] does not have. *)
Lemma frame_setAttribute_new W r k v d d1 :
  d !! r = None -> frame W d d1 -> frame W d (setAttribute r k v d1).
Proof.
  intros Hr H x Hx. destruct (H x Hx) as (Hx' & Ht & Ha).
  assert (x ≠ r) by (intros ->; rewrite Hr in Hx; by destruct Hx).
  split; [by apply setAttribute_is_Some|].
  split; [by rewrite tagOf_setAttribute|].
  intros k' Hk'. rewrite getAttribute_setAttribute_ne by (by left).
  by apply Ha.
Qed.

Lemma frame_foldl {A : Type} W (f : Document -> A -> Document) (l : list A) :
  (forall d a, frame W d (f d a)) -> forall d, frame W d (foldl f d l).
Proof.
  intros Hf. induction l as [|a l IH]; intros d; [apply frame_refl|].
  cbn [foldl]. eapply frame_trans; [apply Hf|apply IH].
Qed.
End FrameFacts.

(** ** One pass of the gradient loop *)

Section GradientStepFacts.
Import Js Dom Editor.
Implicit Types (d : Document) (r x c p el defs : ref) (k v : string).
Implicit Types (g : GradientProps) (rnd : nat -> string).

Lemma querySelector_matching (sel : Element -> bool) d r x :
  querySelector sel d r = Some x -> matching sel d x = true.
Proof.
  unfold querySelector, querySelectorAll. intros H.
  apply head_Some_elem_of, list_elem_of_In, filter_In in H. tauto.
Qed.

Lemma frame_structural W d d' d0 :
  frame W d0 d -> (forall x, labels d' x = labels d x) -> frame W d0 d'.
Proof. intros H Hl. eapply frame_trans; [done|by apply frame_labels]. Qed.

Lemma frame_findOrCreateGradEl W defs gid t d :
  frame W d (findOrCreateGradEl defs gid t d).2.
Proof.
  unfold findOrCreateGradEl.
  destruct (querySelector _ d defs) as [ge|].
  - case_bool_decide; [|apply frame_refl]. cbn.
    eapply frame_structural; [|apply labels_replaceWith].
    apply frame_setAttribute_new; [apply (createElementNS_fresh (gradTag t))|].
    apply (frame_createElementNS W (gradTag t)).
  - cbn. eapply frame_structural; [|apply labels_appendChild].
    apply frame_setAttribute_new; [apply (createElementNS_fresh (gradTag t))|].
    apply (frame_createElementNS W (gradTag t)).
Qed.

Lemma labels_is_Some_eq d d' x :
  labels d' x = labels d x -> is_Some (d !! x) -> is_Some (d' !! x).
Proof. intros Hl Hx. apply labels_is_Some. rewrite Hl. by apply labels_is_Some. Qed.

Lemma new_with_id tag gid d :
  let n := (createElementNS tag d).1 in
  let d1 := setAttribute n "id" gid (createElementNS tag d).2 in
  is_Some (d1 !! n) /\ getAttribute d1 n "id" = Some gid.
Proof.
  intros n d1.
  assert (Hn : is_Some ((createElementNS tag d).2 !! n)).
  { unfold n. rewrite createElementNS_new. by eexists. }
  split; [by apply setAttribute_is_Some|].
  by apply getAttribute_setAttribute_eq.
Qed.

(** The paint server that is found or made is an object of the document
    and carries the id it was looked up by. *)
Lemma findOrCreateGradEl_id defs gid t d :
  is_Some ((findOrCreateGradEl defs gid t d).2 !! (findOrCreateGradEl defs gid t d).1) /\
  getAttribute (findOrCreateGradEl defs gid t d).2
    (findOrCreateGradEl defs gid t d).1 "id" = Some gid.
Proof.
  unfold findOrCreateGradEl.
  destruct (querySelector _ d defs) as [ge|] eqn:Hq.
  - case_bool_decide; cbn.
    + destruct (new_with_id (gradTag t) gid d) as [Hs Hi]. cbn in Hs, Hi.
      split.
      * revert Hs. apply labels_is_Some_eq, labels_replaceWith.
      * by rewrite getAttribute_labels, labels_replaceWith, <- getAttribute_labels.
    + apply querySelector_matching in Hq. unfold matching, by_id in Hq.
      unfold getAttribute. destruct (d !! ge) as [e|]; [|done].
      split; [by eexists|]. by apply bool_decide_eq_true in Hq.
  - cbn. destruct (new_with_id (gradTag t) gid d) as [Hs Hi]. cbn in Hs, Hi.
    split.
    + revert Hs. apply labels_is_Some_eq, labels_appendChild.
    + by rewrite getAttribute_labels, labels_appendChild, <- getAttribute_labels.
Qed.

Lemma frame_appendStop W ge d stop : frame W d (appendStop ge d stop).
Proof.
  unfold appendStop. cbn.
  eapply frame_structural; [|apply labels_appendChild].
  do 2 (apply frame_setAttribute_new; [apply (createElementNS_fresh "stop")|]).
  apply (frame_createElementNS W "stop").
Qed.

Lemma geometry_key_cases k :
  k ∈ geometryKeys <->
  k = "x1" \/ k = "y1" \/ k = "x2" \/ k = "y2" \/ k = "cx" \/ k = "cy" \/ k = "r".
Proof.
  unfold geometryKeys. rewrite !elem_of_cons, elem_of_nil. tauto.
Qed.

Lemma frame_setGeometry g ge d :
  frame (fun _ k => k ∈ geometryKeys) d (setGeometry g ge d).
Proof.
  unfold setGeometry. destruct (type g).
  - repeat (eapply frame_trans; [|apply frame_setAttribute;
                                   apply geometry_key_cases; tauto]).
    apply frame_refl.
  - repeat (eapply frame_trans; [|apply frame_setAttribute;
                                   apply geometry_key_cases; tauto]).
    apply frame_refl.
Qed.

(** The loop body with an enabled descriptor, step by step. *)
Lemma gradientStep_enabled rnd g defs d n el :
  enabled g = true ->
  gradientStep rnd g defs (d, n) el =
  let d1 :=
    if truthy (getAttribute d el "data-orig-fill") then d
    else setAttribute el "data-orig-fill"
           (or_else (getAttribute d el "fill") "#cccccc") d in
  let gid := gradIdFor rnd d n el in
  let f := findOrCreateGradEl defs gid (type g) d1 in
  (setAttribute el "fill" (url gid)
     (foldl (appendStop f.1)
        (clearChildren f.1 (setGeometry g f.1 f.2)) (stops g)),
   if truthy (getAttribute d el "id") then n else S n).
Proof.
  intros He. unfold gradientStep, gradIdFor. rewrite He. cbn [negb].
  assert (Hid : forall d1 : Document,
    d1 = (if truthy (getAttribute d el "data-orig-fill") then d
          else setAttribute el "data-orig-fill"
                 (or_else (getAttribute d el "fill") "#cccccc") d) ->
    getAttribute d1 el "id" = getAttribute d el "id").
  { intros d1 ->. destruct (truthy _); [done|].
    apply getAttribute_setAttribute_ne. by right. }
  rewrite (Hid _ eq_refl).
  destruct (truthy (getAttribute d el "id")); cbn zeta;
    by destruct (findOrCreateGradEl _ _ _ _).
Qed.

Lemma gradientStep_disabled rnd g defs d n el :
  enabled g = false ->
  gradientStep rnd g defs (d, n) el =
  (setAttribute el "fill" (restoredFill d el) d, n).
Proof. intros He. unfold gradientStep. by rewrite He. Qed.

(** A pass keeps every object, its tag, and every attribute except the
    fill and its record on the element at hand and the geometry keys. *)
Lemma frame_gradientStep rnd g defs d n el :
  frame (step_writes el) d (gradientStep rnd g defs (d, n) el).1.
Proof.
  destruct (enabled g) eqn:He.
  - rewrite gradientStep_enabled by done. cbn zeta. cbn [fst].
    eapply frame_trans; [|apply frame_setAttribute; left; tauto].
    eapply frame_trans; [|apply frame_foldl; intros; apply frame_appendStop].
    eapply frame_trans; [|apply frame_labels, labels_clearChildren].
    eapply frame_trans;
      [|eapply frame_weaken; [|apply frame_setGeometry]; intros; by right].
    eapply frame_trans; [|apply frame_findOrCreateGradEl].
    destruct (truthy _); [apply frame_refl|].
    apply frame_setAttribute. left; tauto.
  - rewrite gradientStep_disabled by done. cbn [fst].
    apply frame_setAttribute. left; tauto.
Qed.

Lemma gradientStep_draws rnd g defs d n el :
  (gradientStep rnd g defs (d, n) el).2 =
  if enabled g && negb (truthy (getAttribute d el "id")) then S n else n.
Proof.
  destruct (enabled g) eqn:He.
  - rewrite gradientStep_enabled by done. cbn. by destruct (truthy _).
  - by rewrite gradientStep_disabled.
Qed.
End GradientStepFacts.

(** ** The whole loop, and the handler *)

Section GradientLoopFacts.
Import Js Dom Editor.
Implicit Types (d : Document) (r x c p el defs root : ref) (k v : string).
Implicit Types (g : GradientProps) (rnd : nat -> string) (sel : list ref).

Lemma attr_frame W d d' x k w :
  frame W d d' -> ~ W x k ->
  getAttribute d x k = Some w -> getAttribute d' x k = Some w.
Proof.
  intros Hf Hw Ha.
  assert (Hx : is_Some (d !! x)).
  { unfold getAttribute in Ha. destruct (d !! x); [by eexists|done]. }
  destruct (Hf x Hx) as (_ & _ & Hk). by rewrite Hk.
Qed.

Lemma attr_setAttribute r k' v d x k w :
  getAttribute d x k = Some w -> (r = x -> k' = k -> v = w) ->
  getAttribute (setAttribute r k' v d) x k = Some w.
Proof.
  intros Ha Hsame.
  destruct (decide (x = r)) as [->|Hne];
    [destruct (decide (k = k')) as [->|Hk]|].
  - rewrite (Hsame eq_refl eq_refl). apply getAttribute_setAttribute_eq.
    unfold getAttribute in Ha. destruct (d !! r); [by eexists|done].
  - rewrite getAttribute_setAttribute_ne; [done|by right].
  - rewrite getAttribute_setAttribute_ne; [done|by left].
Qed.

Lemma frame_gradientFold rnd g defs sel :
  forall d n,
    frame (fold_writes sel) d (foldl (gradientStep rnd g defs) (d, n) sel).1.
Proof.
  induction sel as [|e sel IH]; intros d n; [apply frame_refl|].
  cbn [foldl].
  pose proof (frame_gradientStep rnd g defs d n e) as Hs.
  destruct (gradientStep rnd g defs (d, n) e) as [d' n'] eqn:E. cbn [fst] in Hs.
  eapply frame_trans.
  - eapply frame_weaken; [|exact Hs].
    intros x k [[-> Hk]|Hk]; [left; split; [left|done]|by right].
  - eapply frame_weaken; [|apply IH].
    intros x k [[Hx Hk]|Hk]; [left; split; [by right|done]|by right].
Qed.

Lemma gradientFold_app rnd g defs sel1 sel2 d n :
  foldl (gradientStep rnd g defs) (d, n) (sel1 ++ sel2) =
  foldl (gradientStep rnd g defs)
    (foldl (gradientStep rnd g defs) (d, n) sel1) sel2.
Proof. apply foldl_app. Qed.

(** The handler, past its two guards. *)
Lemma updateGradientProperty_document rnd u st root :
  selectedElements st ≠ [] -> rootSvg st = Some root ->
  document (updateGradientProperty rnd u st) =
  (foldl (gradientStep rnd (applyUpdate (gradientProps st) u)
            (ensureDefs root (document st)).1)
     ((ensureDefs root (document st)).2, O) (selectedElements st)).1.
Proof.
  intros Hsel Hroot. unfold updateGradientProperty. rewrite Hroot.
  destruct (selectedElements st) as [|e sel]; [done|].
  destruct (ensureDefs root (document st)) as [defs d1]. cbn [fst snd].
  by destruct (foldl _ _ _).
Qed.

Lemma frame_ensureDefs W root d : frame W d (ensureDefs root d).2.
Proof.
  unfold ensureDefs. destruct (querySelector _ d root); [apply frame_refl|].
  cbn. eapply frame_structural; [|apply labels_prepend].
  apply (frame_createElementNS W "defs").
Qed.

(** The definitions container adds no attribute to any object. *)
Lemma getAttribute_ensureDefs root d x k :
  getAttribute (ensureDefs root d).2 x k = getAttribute d x k.
Proof.
  unfold ensureDefs. destruct (querySelector _ d root); [done|]. cbn.
  rewrite getAttribute_labels, labels_prepend, <- getAttribute_labels.
  unfold getAttribute.
  destruct (decide (x = fresh (dom d))) as [->|Hne].
  - rewrite lookup_insert_eq. cbn. rewrite lookup_empty.
    pose proof (createElementNS_fresh "defs" d) as Hf. cbn in Hf.
    by rewrite Hf.
  - by rewrite lookup_insert_ne.
Qed.

(** *** A disabled descriptor *)

Lemma disabledFold_links rnd g defs sel :
  enabled g = false ->
  forall d n x,
    links (foldl (gradientStep rnd g defs) (d, n) sel).1 x = links d x /\
    tagOf (foldl (gradientStep rnd g defs) (d, n) sel).1 x = tagOf d x.
Proof.
  intros He. induction sel as [|e sel IH]; intros d n x; [done|].
  cbn [foldl]. rewrite gradientStep_disabled by done.
  destruct (IH (setAttribute e "fill" (restoredFill d e) d) n x) as [-> ->].
  by rewrite links_setAttribute, tagOf_setAttribute.
Qed.

Lemma or_else_nonempty o dflt : dflt ≠ EmptyString -> or_else o dflt ≠ EmptyString.
Proof.
  intros Hd. unfold or_else. destruct o as [s|]; [|done].
  by case_bool_decide.
Qed.

Lemma restoredFill_nonempty d el : restoredFill d el ≠ EmptyString.
Proof. unfold restoredFill. by do 2 apply or_else_nonempty. Qed.

Lemma or_else_Some s dflt : s ≠ EmptyString -> or_else (Some s) dflt = s.
Proof. intros Hs. cbn. by rewrite bool_decide_eq_false_2. Qed.

Lemma or_else_idem o dflt : or_else o (or_else o dflt) = or_else o dflt.
Proof. destruct o as [s|]; [|done]. cbn. by case_bool_decide. Qed.

(** Restoring a fill does not change what would be restored. *)
Lemma restoredFill_step d e x :
  restoredFill (setAttribute e "fill" (restoredFill d e) d) x = restoredFill d x.
Proof.
  destruct (decide (x = e)) as [->|Hne].
  - destruct (d !! e) as [el|] eqn:He.
    + unfold restoredFill at 1.
      rewrite getAttribute_setAttribute_ne by (by right).
      rewrite getAttribute_setAttribute_eq by (by eexists).
      rewrite (or_else_Some _ _ (restoredFill_nonempty d e)).
      unfold restoredFill. apply or_else_idem.
    + unfold restoredFill, getAttribute, setAttribute.
      by rewrite lookup_alter_eq, He.
  - unfold restoredFill.
    by rewrite !getAttribute_setAttribute_ne by (by left).
Qed.

Lemma disabledFold_restoredFill rnd g defs sel :
  enabled g = false ->
  forall d n x,
    restoredFill (foldl (gradientStep rnd g defs) (d, n) sel).1 x
    = restoredFill d x.
Proof.
  intros He. induction sel as [|e sel IH]; intros d n x; [done|].
  cbn [foldl]. rewrite gradientStep_disabled by done.
  by rewrite IH, restoredFill_step.
Qed.

Lemma disabledFold_record rnd g defs sel :
  enabled g = false ->
  forall d n x,
    getAttribute (foldl (gradientStep rnd g defs) (d, n) sel).1 x "data-orig-fill"
    = getAttribute d x "data-orig-fill".
Proof.
  intros He. induction sel as [|e sel IH]; intros d n x; [done|].
  cbn [foldl]. rewrite gradientStep_disabled by done.
  rewrite IH. apply getAttribute_setAttribute_ne. by right.
Qed.

Lemma disabledFold_fill rnd g defs sel :
  enabled g = false ->
  forall d n el,
    el ∈ sel -> is_Some (d !! el) ->
    getAttribute (foldl (gradientStep rnd g defs) (d, n) sel).1 el "fill"
    = Some (restoredFill d el).
Proof.
  intros He. induction sel as [|e sel IH] using rev_ind; intros d n el Hin Hx.
  { by apply elem_of_nil in Hin. }
  rewrite gradientFold_app. cbn [foldl].
  pose proof (frame_gradientFold rnd g defs sel d n) as Hf.
  pose proof (disabledFold_restoredFill rnd g defs sel He d n) as Hr.
  destruct (foldl (gradientStep rnd g defs) (d, n) sel) as [d' n'] eqn:E.
  cbn [fst] in *. rewrite gradientStep_disabled by done. cbn [fst].
  destruct (decide (el = e)) as [->|Hne].
  - rewrite getAttribute_setAttribute_eq; [by rewrite Hr|].
    by destruct (Hf e Hx).
  - rewrite getAttribute_setAttribute_ne by (by left).
    apply elem_of_app in Hin as [Hin|Hin].
    + specialize (IH d n el Hin Hx). by rewrite E in IH.
    + apply list_elem_of_singleton in Hin. done.
Qed.
End GradientLoopFacts.

(** ** An enabled descriptor *)

Section EnabledGradientFacts.
Import Js Dom Editor.
Implicit Types (d : Document) (r x c p el defs root : ref) (k v : string).
Implicit Types (g : GradientProps) (rnd : nat -> string) (sel : list ref).

Lemma not_geometry_key k :
  k = "fill" \/ k = "id" \/ k = "data-orig-fill" -> k ∉ geometryKeys.
Proof.
  rewrite geometry_key_cases. intros [-> | [-> | ->]] H;
    repeat (destruct H as [H|H]; [discriminate H|]); discriminate H.
Qed.

Lemma id_not_written el x : ~ step_writes el x "id".
Proof.
  intros [[_ [H|H]]|H]; [discriminate H|discriminate H|].
  revert H. apply not_geometry_key. tauto.
Qed.

Lemma fill_not_written sel x : x ∉ sel -> ~ fold_writes sel x "fill".
Proof.
  intros Hx [[H _]|H]; [done|]. revert H. apply not_geometry_key. tauto.
Qed.

Lemma id_not_written_fold sel x : ~ fold_writes sel x "id".
Proof.
  intros [[_ [H|H]]|H]; [discriminate H|discriminate H|].
  revert H. apply not_geometry_key. tauto.
Qed.

Lemma gradientStep_fill rnd g defs d n el :
  enabled g = true -> is_Some (d !! el) ->
  getAttribute (gradientStep rnd g defs (d, n) el).1 el "fill"
  = Some (url (gradIdFor rnd d n el)).
Proof.
  intros He Hx.
  destruct (frame_gradientStep rnd g defs d n el el Hx) as (Hx' & _).
  revert Hx'. rewrite gradientStep_enabled by done. cbn zeta. cbn [fst].
  intros Hx'. apply getAttribute_setAttribute_eq.
  by apply setAttribute_is_Some in Hx'.
Qed.

Lemma idless_frame W d d' x :
  frame W d d' -> ~ W x "id" -> is_Some (d !! x) -> idless d' x = idless d x.
Proof.
  intros Hf Hw Hx. destruct (Hf x Hx) as (_ & _ & Ha).
  unfold idless. by rewrite Ha.
Qed.

(** The number of draws made by the loop: one for each element without an
    id. *)
Lemma gradientFold_draws rnd g defs sel :
  enabled g = true ->
  forall d n,
    (forall x, x ∈ sel -> is_Some (d !! x)) ->
    (foldl (gradientStep rnd g defs) (d, n) sel).2
    = (n + length (List.filter (idless d) sel))%nat.
Proof.
  intros He. induction sel as [|e sel IH]; intros d n Hx; [cbn; lia|].
  cbn [foldl List.filter].
  pose proof (frame_gradientStep rnd g defs d n e) as Hf.
  pose proof (gradientStep_draws rnd g defs d n e) as Hn.
  destruct (gradientStep rnd g defs (d, n) e) as [d' n'] eqn:E.
  cbn [fst snd] in Hf, Hn. rewrite IH.
  - assert (Hsame : List.filter (idless d') sel = List.filter (idless d) sel).
    { apply filter_ext_in. intros x Hin. apply list_elem_of_In in Hin.
      eapply idless_frame; [exact Hf|apply id_not_written|].
      apply Hx. by right. }
    rewrite Hsame, Hn, He. unfold idless. cbn [andb].
    destruct (truthy (getAttribute d e "id")); cbn [negb length]; lia.
  - intros x Hin. apply (Hf x). apply Hx. by right.
Qed.

(** The fill of an element without an id, selected after [pre]: the draw
    whose number is the count of id-less elements of [pre]. *)
Lemma gradientFold_fill_idless rnd g defs pre el post d :
  enabled g = true ->
  (forall x, x ∈ pre ++ [el] -> is_Some (d !! x)) ->
  el ∉ post ->
  idless d el = true ->
  getAttribute
    (foldl (gradientStep rnd g defs) (d, O) (pre ++ el :: post)).1 el "fill"
  = Some (url ("grad-" +:+ rnd (length (List.filter (idless d) pre)))).
Proof.
  intros He Hx Hpost Hid.
  rewrite gradientFold_app. cbn [foldl].
  pose proof (frame_gradientFold rnd g defs pre d O) as Hf.
  pose proof (gradientFold_draws rnd g defs pre He d O) as Hn.
  destruct (foldl (gradientStep rnd g defs) (d, O) pre) as [d1 n1] eqn:E1.
  cbn [fst snd] in Hf, Hn.
  rewrite Hn by (intros x Hin; apply Hx, elem_of_app; by left).
  assert (Hel : is_Some (d !! el)).
  { apply Hx, elem_of_app. right. apply list_elem_of_here. }
  assert (Hel1 : is_Some (d1 !! el)) by (by destruct (Hf el Hel)).
  pose proof (gradientStep_fill rnd g defs d1
                (0 + length (List.filter (idless d) pre)) el He Hel1) as Hfill.
  pose proof (frame_gradientStep rnd g defs d1
                (0 + length (List.filter (idless d) pre)) el) as Hf2.
  destruct (gradientStep rnd g defs
              (d1, (0 + length (List.filter (idless d) pre))%nat) el)
    as [d2 n2] eqn:E2.
  cbn [fst] in Hfill, Hf2.
  pose proof (frame_gradientFold rnd g defs post d2 n2) as Hf3.
  rewrite (attr_frame _ _ _ _ _ _ Hf3 (fill_not_written post el Hpost) Hfill).
  f_equal. f_equal. unfold gradIdFor.
  assert (Hid1 : idless d1 el = true).
  { rewrite <- Hid. eapply idless_frame; [exact Hf|apply id_not_written_fold|done]. }
  unfold idless in Hid1. apply negb_true_iff in Hid1. by rewrite Hid1.
Qed.

Lemma append_inj_l (s a b : string) : s +:+ a = s +:+ b -> a = b.
Proof.
  induction s as [|c s IH]; cbn; [done|].
  intros H. apply IH. by injection H.
Qed.

Lemma append_inj_paren (a b : string) : a +:+ ")" = b +:+ ")" -> a = b.
Proof.
  revert b. induction a as [|c a IH]; intros [|c' b]; cbn; intros H.
  - done.
  - destruct b; cbn in H; discriminate H.
  - destruct a; cbn in H; discriminate H.
  - injection H as -> H. f_equal. by apply IH.
Qed.

Lemma url_inj (a b : string) : url a = url b -> a = b.
Proof.
  unfold url. intros H.
  apply (append_inj_l "url(#") in H. by apply append_inj_paren.
Qed.
End EnabledGradientFacts.

(** ** Linear paint servers *)

Section LinearFacts.
Import Js Dom Editor.
Implicit Types (d : Document) (r x c p el defs root ge : ref) (k v : string).
Implicit Types (g : GradientProps) (rnd : nat -> string) (sel : list ref).

Lemma Math_round_spec (v : R) (z : Z) :
  (IZR z - / 2 <= v < IZR z + / 2)%R -> Math_round v = z.
Proof.
  intros [Hlo Hhi]. unfold Math_round. symmetry.
  apply Int_part_spec. lra.
Qed.

Lemma rad_90 : rad 90 = (PI / 2)%R.
Proof. unfold rad. lra. Qed.

Lemma rad_60 : rad 60 = (PI / 3)%R.
Proof. unfold rad. lra. Qed.

Lemma endpoints_90 :
  x1_of 90 = 50 /\ y1_of 90 = 0 /\ x2_of 90 = 50 /\ y2_of 90 = 50.
Proof.
  unfold x1_of, y1_of, x2_of, y2_of. rewrite rad_90, cos_PI2, sin_PI2.
  repeat split; apply Math_round_spec; lra.
Qed.

Lemma sqrt3_bounds : (172 / 100 < sqrt 3 < 174 / 100)%R.
Proof.
  split.
  - rewrite <- (sqrt_square (172 / 100)) by lra. apply sqrt_lt_1_alt. lra.
  - rewrite <- (sqrt_square (174 / 100)) by lra. apply sqrt_lt_1_alt. lra.
Qed.

(** At sixty degrees the formula gives a [y1] strictly between 6 and 7;
    the attribute holds its rounding. *)
Lemma y1_60 :
  (6 < 50 - sin (rad 60) * 50 < 7)%R /\ y1_of 60 = 7.
Proof.
  pose proof sqrt3_bounds as [Hlo Hhi].
  unfold y1_of. rewrite rad_60, sin_PI3.
  split; [lra|]. apply Math_round_spec. lra.
Qed.

Lemma setGeometry_linear g ge d :
  type g = linear -> is_Some (d !! ge) ->
  linearGeometry (angle g) (setGeometry g ge d) ge.
Proof.
  intros Ht Hx. unfold setGeometry, linearGeometry. rewrite Ht.
  repeat split.
  - do 3 (rewrite getAttribute_setAttribute_ne by (by right)).
    by apply getAttribute_setAttribute_eq.
  - do 2 (rewrite getAttribute_setAttribute_ne by (by right)).
    apply getAttribute_setAttribute_eq. by apply setAttribute_is_Some.
  - rewrite getAttribute_setAttribute_ne by (by right).
    apply getAttribute_setAttribute_eq. by do 2 apply setAttribute_is_Some.
  - apply getAttribute_setAttribute_eq. by do 3 apply setAttribute_is_Some.
Qed.

Lemma setGeometry_keeps g ge d x :
  type g = linear ->
  linearGeometry (angle g) d x ->
  linearGeometry (angle g) (setGeometry g ge d) x.
Proof.
  intros Ht (H1 & H2 & H3 & H4). unfold setGeometry, linearGeometry. rewrite Ht.
  repeat split; repeat (apply attr_setAttribute; [|by intros]); done.
Qed.

Lemma linearGeometry_setAttribute a r k v d x :
  k ≠ "x1" -> k ≠ "y1" -> k ≠ "x2" -> k ≠ "y2" ->
  linearGeometry a d x -> linearGeometry a (setAttribute r k v d) x.
Proof.
  intros ? ? ? ? (H1 & H2 & H3 & H4). unfold linearGeometry.
  repeat split; (apply attr_setAttribute; [done|by intros]).
Qed.

Lemma linearGeometry_frame a d d' x :
  frame no_writes d d' -> linearGeometry a d x -> linearGeometry a d' x.
Proof.
  intros Hf (H1 & H2 & H3 & H4). unfold linearGeometry.
  repeat split; (eapply attr_frame; [exact Hf|by intros []|done]).
Qed.

Lemma findOrCreateGradEl_tag defs gid t d :
  toLowerCase (tagOf (findOrCreateGradEl defs gid t d).2
                 (findOrCreateGradEl defs gid t d).1)
  = toLowerCase (gradTag t).
Proof.
  unfold findOrCreateGradEl.
  destruct (querySelector _ d defs) as [ge|] eqn:Hq.
  - case_bool_decide as Hneq; cbn.
    + rewrite tagOf_labels, labels_replaceWith, <- tagOf_labels.
      rewrite tagOf_setAttribute. unfold tagOf. by rewrite lookup_insert_eq.
    + by destruct (decide (toLowerCase (tagOf d ge) = toLowerCase (gradTag t))).
  - cbn. rewrite tagOf_labels, labels_appendChild, <- tagOf_labels.
    rewrite tagOf_setAttribute. unfold tagOf. by rewrite lookup_insert_eq.
Qed.

(** What follows the geometry in a pass keeps a linear server as it is. *)
Lemma linearServer_tail a gid g ge el d x v :
  linearServer a gid d x ->
  linearServer a gid
    (setAttribute el "fill" v
       (foldl (appendStop ge) (clearChildren ge d) (stops g))) x.
Proof.
  intros (Hid & Htag & Hgeo).
  assert (Hx : is_Some (d !! x)).
  { unfold getAttribute in Hid. destruct (d !! x); [by eexists|done]. }
  assert (Hf : frame no_writes d
                 (foldl (appendStop ge) (clearChildren ge d) (stops g))).
  { eapply frame_trans; [apply frame_labels, labels_clearChildren|].
    apply frame_foldl. intros. apply frame_appendStop. }
  destruct (Hf x Hx) as (_ & Ht & _).
  split; [|split].
  - apply attr_setAttribute; [|by intros].
    eapply attr_frame; [exact Hf|by intros []|done].
  - by rewrite tagOf_setAttribute, Ht.
  - apply linearGeometry_setAttribute; [done..|].
    by apply linearGeometry_frame with d.
Qed.

Lemma gradientStep_server rnd g defs d n el :
  enabled g = true -> type g = linear -> is_Some (d !! el) ->
  exists ge gid,
    getAttribute (gradientStep rnd g defs (d, n) el).1 el "fill" = Some (url gid) /\
    linearServer (angle g) gid (gradientStep rnd g defs (d, n) el).1 ge.
Proof.
  intros He Ht Hx.
  pose proof (gradientStep_fill rnd g defs d n el He Hx) as Hfill.
  exists (findOrCreateGradEl defs (gradIdFor rnd d n el) (type g)
            (if truthy (getAttribute d el "data-orig-fill") then d
             else setAttribute el "data-orig-fill"
                    (or_else (getAttribute d el "fill") "#cccccc") d)).1,
         (gradIdFor rnd d n el).
  split; [done|].
  rewrite gradientStep_enabled by done. cbn zeta. cbn [fst].
  apply linearServer_tail.
  set (f := findOrCreateGradEl _ _ _ _).
  destruct (findOrCreateGradEl_id defs (gradIdFor rnd d n el) (type g)
    (if truthy (getAttribute d el "data-orig-fill") then d
     else setAttribute el "data-orig-fill"
            (or_else (getAttribute d el "fill") "#cccccc") d)) as [Hs Hi].
  fold f in Hs, Hi.
  destruct (frame_setGeometry g f.1 f.2 f.1 Hs) as (_ & Htag & Hk).
  split; [|split].
  - rewrite Hk; [done|]. apply not_geometry_key. tauto.
  - rewrite Htag. unfold f. rewrite findOrCreateGradEl_tag. by rewrite Ht.
  - by apply setGeometry_linear.
Qed.

(** A pass for another element keeps a linear server as it is. *)
Lemma gradientStep_keeps_server rnd g defs d n el gid x :
  type g = linear ->
  linearServer (angle g) gid d x ->
  linearServer (angle g) gid (gradientStep rnd g defs (d, n) el).1 x.
Proof.
  intros Ht Hsrv. destruct (enabled g) eqn:He.
  - rewrite gradientStep_enabled by done. cbn zeta. cbn [fst].
    apply linearServer_tail.
    set (d1 := if truthy (getAttribute d el "data-orig-fill") then d
               else setAttribute el "data-orig-fill"
                      (or_else (getAttribute d el "fill") "#cccccc") d).
    assert (H1 : linearServer (angle g) gid d1 x).
    { unfold d1. destruct (truthy _); [done|].
      destruct Hsrv as (Hid & Htag & Hgeo). split; [|split].
      - apply attr_setAttribute; [done|by intros].
      - by rewrite tagOf_setAttribute.
      - by apply linearGeometry_setAttribute. }
    set (f := findOrCreateGradEl _ _ _ d1).
    pose proof (frame_findOrCreateGradEl no_writes defs
                  (gradIdFor rnd d n el) (type g) d1) as Hf.
    fold f in Hf.
    destruct H1 as (Hid & Htag & Hgeo).
    assert (Hx : is_Some (d1 !! x)).
    { unfold getAttribute in Hid. destruct (d1 !! x); [by eexists|done]. }
    destruct (Hf x Hx) as (Hx2 & Ht2 & _).
    destruct (frame_setGeometry g f.1 f.2 x Hx2) as (_ & Ht3 & Hk3).
    split; [|split].
    + rewrite Hk3 by (apply not_geometry_key; tauto).
      eapply attr_frame; [exact Hf|by intros []|done].
    + by rewrite Ht3, Ht2.
    + apply setGeometry_keeps; [done|].
      by apply linearGeometry_frame with d1.
  - rewrite gradientStep_disabled by done. cbn [fst].
    destruct Hsrv as (Hid & Htag & Hgeo). split; [|split].
    + apply attr_setAttribute; [done|by intros].
    + by rewrite tagOf_setAttribute.
    + by apply linearGeometry_setAttribute.
Qed.

(** After the loop every selected element is bound to a linear server with
    the endpoints of the descriptor's angle. *)
Lemma gradientFold_server rnd g defs sel :
  enabled g = true -> type g = linear ->
  forall d n el,
    el ∈ sel -> is_Some (d !! el) ->
    exists ge gid,
      getAttribute (foldl (gradientStep rnd g defs) (d, n) sel).1 el "fill"
        = Some (url gid) /\
      linearServer (angle g) gid (foldl (gradientStep rnd g defs) (d, n) sel).1 ge.
Proof.
  intros He Ht. induction sel as [|e sel IH] using rev_ind; intros d n el Hin Hx.
  { by apply elem_of_nil in Hin. }
  rewrite gradientFold_app. cbn [foldl].
  pose proof (frame_gradientFold rnd g defs sel d n) as Hf.
  destruct (decide (el = e)) as [->|Hne].
  - destruct (foldl (gradientStep rnd g defs) (d, n) sel) as [d' n'] eqn:E.
    cbn [fst] in Hf. apply gradientStep_server; [done|done|].
    by destruct (Hf e Hx).
  - apply elem_of_app in Hin as [Hin|Hin];
      [|by apply list_elem_of_singleton in Hin].
    destruct (IH d n el Hin Hx) as (ge & gid & Hfill & Hsrv).
    destruct (foldl (gradientStep rnd g defs) (d, n) sel) as [d' n'] eqn:E.
    cbn [fst] in Hfill, Hsrv. exists ge, gid. split.
    + eapply attr_frame; [apply frame_gradientStep| |done].
      intros [[? _]|H]; [done|]. revert H. apply not_geometry_key. tauto.
    + by apply gradientStep_keeps_server.
Qed.
End LinearFacts.

Section PaintServerFacts.
Import Js Dom Editor Paint.

(** A pass leaves behind a paint server of the descriptor's kind that
    carries the id it binds the element to. *)
Lemma gradientStep_paintServer rnd g defs d n el :
  enabled g = true ->
  exists ge,
    paintServer (type g) (gradIdFor rnd d n el)
      (gradientStep rnd g defs (d, n) el).1 ge.
Proof.
  intros He. rewrite gradientStep_enabled by done. cbv zeta. cbn [fst].
  set (d1 := if truthy (getAttribute d el "data-orig-fill") then d else _).
  set (gid := gradIdFor rnd d n el).
  destruct (findOrCreateGradEl_id defs gid (type g) d1) as [Hs Hi].
  pose proof (findOrCreateGradEl_tag defs gid (type g) d1) as Ht.
  set (f := findOrCreateGradEl defs gid (type g) d1) in *.
  exists f.1.
  destruct (frame_setGeometry g f.1 f.2 f.1 Hs) as (Hs2 & Htag & Hk).
  assert (Hf : frame no_writes (setGeometry g f.1 f.2)
                 (foldl (appendStop f.1)
                    (clearChildren f.1 (setGeometry g f.1 f.2)) (stops g))).
  { eapply frame_trans; [apply frame_labels, labels_clearChildren|].
    apply frame_foldl. intros. apply frame_appendStop. }
  destruct (Hf f.1 Hs2) as (_ & Htag2 & _).
  split.
  - apply attr_setAttribute; [|by intros].
    eapply attr_frame; [exact Hf|by intros []|].
    rewrite Hk; [done|]. apply not_geometry_key. tauto.
  - by rewrite tagOf_setAttribute, Htag2, Htag.
Qed.

Lemma gradientStep_keeps_paintServer rnd g defs d n el t gid x :
  paintServer t gid d x ->
  paintServer t gid (gradientStep rnd g defs (d, n) el).1 x.
Proof.
  intros [Hid Htag].
  assert (Hx : is_Some (d !! x)).
  { unfold getAttribute in Hid. destruct (d !! x); [by eexists|done]. }
  pose proof (frame_gradientStep rnd g defs d n el) as Hf.
  destruct (Hf x Hx) as (_ & Ht & _).
  split.
  - eapply attr_frame; [exact Hf|apply id_not_written|done].
  - by rewrite Ht.
Qed.

(** After the loop every selected element is bound to the id of a paint
    server of the descriptor's kind. *)
Lemma gradientFold_paintServer rnd g defs sel :
  enabled g = true ->
  forall d n el,
    el ∈ sel -> is_Some (d !! el) ->
    exists ge gid,
      getAttribute (foldl (gradientStep rnd g defs) (d, n) sel).1 el "fill"
        = Some (url gid) /\
      paintServer (type g) gid (foldl (gradientStep rnd g defs) (d, n) sel).1 ge.
Proof.
  intros He. induction sel as [|e sel IH] using rev_ind; intros d n el Hin Hx.
  { by apply elem_of_nil in Hin. }
  rewrite gradientFold_app. cbn [foldl].
  pose proof (frame_gradientFold rnd g defs sel d n) as Hf.
  destruct (decide (el = e)) as [->|Hne].
  - destruct (foldl (gradientStep rnd g defs) (d, n) sel) as [d' n'] eqn:E.
    cbn [fst] in Hf.
    destruct (gradientStep_paintServer rnd g defs d' n' e He) as [ge Hsrv].
    exists ge, (gradIdFor rnd d' n' e). split; [|done].
    apply gradientStep_fill; [done|]. by destruct (Hf e Hx).
  - apply elem_of_app in Hin as [Hin|Hin];
      [|by apply list_elem_of_singleton in Hin].
    destruct (IH d n el Hin Hx) as (ge & gid & Hfill & Hsrv).
    destruct (foldl (gradientStep rnd g defs) (d, n) sel) as [d' n'] eqn:E.
    cbn [fst] in Hfill, Hsrv. exists ge, gid. split.
    + eapply attr_frame; [apply frame_gradientStep| |done].
      intros [[? _]|H]; [done|]. revert H. apply not_geometry_key. tauto.
    + by apply gradientStep_keeps_paintServer.
Qed.
End PaintServerFacts.

(** ** Auto layout *)

Section LayoutFacts.
Import Js Dom Editor.
Implicit Types (d : Document) (r x c p group : ref) (k v : string).
Variable getBBox : ref -> option BoundingBox.

Lemma layoutChild_links direction gap padding d o c x :
  links (layoutChild getBBox direction gap padding (d, o) c).1 x = links d x /\
  tagOf (layoutChild getBBox direction gap padding (d, o) c).1 x = tagOf d x.
Proof.
  unfold layoutChild. destruct (getBBox c); [|done].
  case_bool_decide; cbn [fst]; by rewrite links_setAttribute, tagOf_setAttribute.
Qed.

Lemma layoutFold_links direction gap padding cs :
  forall d o x,
    links (foldl (layoutChild getBBox direction gap padding) (d, o) cs).1 x
      = links d x /\
    tagOf (foldl (layoutChild getBBox direction gap padding) (d, o) cs).1 x
      = tagOf d x.
Proof.
  induction cs as [|c cs IH]; intros d o x; [done|].
  cbn [foldl].
  pose proof (layoutChild_links direction gap padding d o c x) as [Hl Ht].
  destruct (layoutChild getBBox direction gap padding (d, o) c) as [d' o'].
  cbn [fst] in Hl, Ht. destruct (IH d' o' x) as [-> ->]. done.
Qed.

(** Layout moves no node: links and tags are as before. *)
Lemma runAutoLayout_links group d x :
  links (runAutoLayout getBBox group d) x = links d x /\
  tagOf (runAutoLayout getBBox group d) x = tagOf d x.
Proof.
  unfold runAutoLayout. case_bool_decide; [|done]. apply layoutFold_links.
Qed.

Lemma layoutFold_other direction gap padding cs :
  forall d o c k,
    c ∉ cs ->
    getAttribute (foldl (layoutChild getBBox direction gap padding) (d, o) cs).1 c k
    = getAttribute d c k.
Proof.
  induction cs as [|c0 cs IH]; intros d o c k Hc; [done|].
  apply not_elem_of_cons in Hc as [Hne Hc]. cbn [foldl].
  assert (Hstep : getAttribute
            (layoutChild getBBox direction gap padding (d, o) c0).1 c k
          = getAttribute d c k).
  { unfold layoutChild. destruct (getBBox c0); [|done].
    case_bool_decide; cbn [fst];
      by rewrite getAttribute_setAttribute_ne by (by left). }
  destruct (layoutChild getBBox direction gap padding (d, o) c0) as [d' o'].
  cbn [fst] in Hstep. by rewrite IH.
Qed.






End LayoutFacts.

(** ** Moving nodes *)

Section MoveFacts.
Import Js Dom.
Implicit Types (d : Document) (r x c p g e : ref) (l : list ref).

Lemma unlink_detached c d : parentOf d c = None -> unlink c d = d.
Proof. intros H. unfold unlink. by rewrite H. Qed.

Lemma childrenOf_Some d x : childrenOf d x ≠ [] -> is_Some (d !! x).
Proof. unfold childrenOf. destruct (d !! x); [by eexists|done]. Qed.

Lemma parentOf_Some d x p : parentOf d x = Some p -> is_Some (d !! x).
Proof. unfold parentOf. destruct (d !! x); [by eexists|done]. Qed.

Lemma childrenOf_insertBefore p c r d x :
  is_Some (d !! p) ->
  childrenOf (insertBefore p c r d) x =
  if decide (x = p) then insert_before c r (childrenOf (unlink c d) p)
  else childrenOf (unlink c d) x.
Proof.
  intros Hp. unfold insertBefore.
  rewrite childrenOf_setParent, childrenOf_setChildren.
  case_decide; [|done].
  apply (proj2 (unlink_is_Some c d p)) in Hp. by destruct Hp as [? ->].
Qed.

Lemma parentOf_insertBefore p c r d x :
  is_Some (d !! c) ->
  parentOf (insertBefore p c r d) x =
  if decide (x = c) then Some p else parentOf d x.
Proof.
  intros Hc. unfold insertBefore.
  rewrite parentOf_setParent. case_decide as Hx.
  - subst x. apply (proj2 (unlink_is_Some c d c)) in Hc.
    apply (proj2 (setChildren_is_Some p
      (insert_before c r (childrenOf (unlink c d) p)) _ c)) in Hc.
    by destruct Hc as [? ->].
  - rewrite parentOf_setChildren, parentOf_unlink. by rewrite decide_False.
Qed.

Lemma childrenOf_appendChild p c d x :
  is_Some (d !! p) ->
  childrenOf (appendChild p c d) x =
  if decide (x = p) then childrenOf (unlink c d) p ++ [c]
  else childrenOf (unlink c d) x.
Proof.
  intros Hp. unfold appendChild.
  rewrite childrenOf_setParent, childrenOf_setChildren.
  case_decide; [|done].
  apply (proj2 (unlink_is_Some c d p)) in Hp. by destruct Hp as [? ->].
Qed.

Lemma parentOf_appendChild p c d x :
  is_Some (d !! c) ->
  parentOf (appendChild p c d) x =
  if decide (x = c) then Some p else parentOf d x.
Proof.
  intros Hc. unfold appendChild.
  rewrite parentOf_setParent. case_decide as Hx.
  - subst x. apply (proj2 (unlink_is_Some c d c)) in Hc.
    apply (proj2 (setChildren_is_Some p
      (childrenOf (unlink c d) p ++ [c]) _ c)) in Hc.
    by destruct Hc as [? ->].
  - rewrite parentOf_setChildren, parentOf_unlink. by rewrite decide_False.
Qed.

Lemma appendChild_is_Some p c d x :
  is_Some (appendChild p c d !! x) <-> is_Some (d !! x).
Proof. by rewrite <- !labels_is_Some, labels_appendChild. Qed.

Lemma insertBefore_is_Some p c r d x :
  is_Some (insertBefore p c r d !! x) <-> is_Some (d !! x).
Proof. by rewrite <- !labels_is_Some, labels_insertBefore. Qed.

Lemma insert_before_app new r l1 l2 :
  r ∉ l1 -> insert_before new r (l1 ++ r :: l2) = l1 ++ new :: r :: l2.
Proof.
  induction l1 as [|a l1 IH]; intros Hr; cbn.
  - by rewrite decide_True.
  - apply not_elem_of_cons in Hr as [Hne Hr].
    rewrite decide_False by done. by rewrite IH.
Qed.

Lemma filter_ne_notin c l : c ∉ l -> filter (fun y => y ≠ c) l = l.
Proof.
  intros Hc. apply filter_all. apply Forall_forall. intros y Hy ->. done.
Qed.

(** *** The loop of [createAutoLayoutGroup]: the selected nodes, children of
    [p], become the last children of [g], in selection order. *)
Lemma group_loop g p rest :
  forall d,
    NoDup rest -> g ∉ rest -> g ≠ p ->
    is_Some (d !! g) ->
    (forall e, e ∈ rest -> parentOf d e = Some p) ->
    let d' := foldl (fun d el => appendChild g el d) d rest in
    childrenOf d' g = childrenOf d g ++ rest /\
    childrenOf d' p = filter (fun y => y ∉ rest) (childrenOf d p) /\
    (forall e, e ∈ rest -> parentOf d' e = Some g) /\
    (forall y, y ∉ rest -> parentOf d' y = parentOf d y) /\
    (forall y, labels d' y = labels d y).
Proof.
  induction rest as [|e rest IH]; intros d Hnd Hg Hgp Hgx Hpar d'.
  { unfold d'. cbn [foldl]. rewrite app_nil_r.
    repeat split; try done.
    - symmetry. apply filter_all, Forall_forall. intros y _. apply not_elem_of_nil.
    - intros e He. by apply elem_of_nil in He. }
  apply NoDup_cons in Hnd as [He Hnd].
  apply not_elem_of_cons in Hg as [Hge Hg].
  assert (Hpe : parentOf d e = Some p) by (apply Hpar; by left).
  assert (Hex : is_Some (d !! e)) by (by eapply parentOf_Some).
  set (d1 := appendChild g e d).
  assert (Hk1g : childrenOf d1 g = childrenOf d g ++ [e]).
  { unfold d1. rewrite childrenOf_appendChild by done.
    rewrite decide_True by done. rewrite childrenOf_unlink.
    rewrite decide_False; [done|]. rewrite Hpe. congruence. }
  assert (Hk1p : childrenOf d1 p = filter (fun y => y ≠ e) (childrenOf d p)).
  { unfold d1. rewrite childrenOf_appendChild by done.
    rewrite decide_False by done. rewrite childrenOf_unlink.
    by rewrite decide_True. }
  assert (Hp1 : forall y, parentOf d1 y = if decide (y = e) then Some g else parentOf d y).
  { intros y. unfold d1. by rewrite parentOf_appendChild. }
  destruct (IH d1 Hnd Hg Hgp) as (Hkg & Hkp & Hpin & Hpout & Hlab).
  { by apply appendChild_is_Some. }
  { intros e' He'. rewrite Hp1. rewrite decide_False; [apply Hpar; by right|].
    intros ->. done. }
  unfold d'. cbn [foldl]. fold d1.
  split; [|split; [|split; [|split]]].
  - rewrite Hkg, Hk1g. by rewrite <- app_assoc.
  - rewrite Hkp, Hk1p. rewrite list_filter_filter.
    apply list_filter_iff. intros y. rewrite not_elem_of_cons. tauto.
  - intros e' He'. apply elem_of_cons in He' as [->|He'].
    + rewrite Hpout by done. rewrite Hp1. by rewrite decide_True.
    + by apply Hpin.
  - intros y Hy. apply not_elem_of_cons in Hy as [Hye Hy].
    rewrite Hpout by done. rewrite Hp1. by rewrite decide_False.
  - intros y. rewrite Hlab. unfold d1. apply labels_appendChild.
Qed.

(** *** The loop of [ungroup]: the children of [g] go back under [p], before
    [g], in their order. *)
Lemma ungroup_loop g p rest :
  forall d A B,
    NoDup rest -> g ∉ rest -> p ∉ rest -> g ≠ p ->
    is_Some (d !! p) ->
    (forall e, e ∈ rest -> parentOf d e = Some g) ->
    childrenOf d p = A ++ g :: B -> g ∉ A ->
    let d' := foldl (fun d child => insertBefore p child g d) d rest in
    childrenOf d' p = A ++ rest ++ g :: B /\
    childrenOf d' g = filter (fun y => y ∉ rest) (childrenOf d g) /\
    (forall e, e ∈ rest -> parentOf d' e = Some p) /\
    (forall y, y ∉ rest -> parentOf d' y = parentOf d y) /\
    (forall y, labels d' y = labels d y).
Proof.
  induction rest as [|e rest IH]; intros d A B Hnd Hg Hp Hgp Hpx Hpar HK HgA d'.
  { unfold d'. cbn [foldl app]. repeat split; try done.
    - symmetry. apply filter_all, Forall_forall. intros y _. apply not_elem_of_nil.
    - intros e He. by apply elem_of_nil in He. }
  apply NoDup_cons in Hnd as [He Hnd].
  apply not_elem_of_cons in Hg as [Hge Hg].
  apply not_elem_of_cons in Hp as [Hpe' Hp].
  assert (Hpe : parentOf d e = Some g) by (apply Hpar; by left).
  assert (Hex : is_Some (d !! e)) by (by eapply parentOf_Some).
  set (d1 := insertBefore p e g d).
  assert (Hk1p : childrenOf d1 p = (A ++ [e]) ++ g :: B).
  { unfold d1. rewrite childrenOf_insertBefore by done.
    rewrite decide_True by done. rewrite childrenOf_unlink.
    rewrite decide_False by (rewrite Hpe; congruence).
    rewrite HK, insert_before_app by done. by rewrite <- app_assoc. }
  assert (Hk1g : childrenOf d1 g = filter (fun y => y ≠ e) (childrenOf d g)).
  { unfold d1. rewrite childrenOf_insertBefore by done.
    rewrite decide_False by done. rewrite childrenOf_unlink.
    by rewrite decide_True. }
  assert (Hp1 : forall y, parentOf d1 y = if decide (y = e) then Some p else parentOf d y).
  { intros y. unfold d1. by rewrite parentOf_insertBefore. }
  destruct (IH d1 (A ++ [e]) B Hnd Hg Hp Hgp) as (Hkp & Hkg & Hpin & Hpout & Hlab).
  { by apply insertBefore_is_Some. }
  { intros e' He'. rewrite Hp1. rewrite decide_False; [apply Hpar; by right|].
    intros ->. done. }
  { done. }
  { rewrite not_elem_of_app. split; [done|].
    intros H. apply list_elem_of_singleton in H. done. }
  unfold d'. cbn [foldl]. fold d1.
  split; [|split; [|split; [|split]]].
  - rewrite Hkp. by rewrite <- !app_assoc.
  - rewrite Hkg, Hk1g. rewrite list_filter_filter.
    apply list_filter_iff. intros y. rewrite not_elem_of_cons. tauto.
  - intros e' He'. apply elem_of_cons in He' as [->|He'].
    + rewrite Hpout by done. rewrite Hp1. by rewrite decide_True.
    + by apply Hpin.
  - intros y Hy. apply not_elem_of_cons in Hy as [Hye Hy].
    rewrite Hpout by done. rewrite Hp1. by rewrite decide_False.
  - intros y. rewrite Hlab. unfold d1. apply labels_insertBefore.
Qed.
End MoveFacts.

(** ** Grouping *)

Section GroupFacts.
Import Js Dom Editor.
Implicit Types (d : Document) (r x c p g e f root : ref) (sel kids : list ref).
Variable getBBox : ref -> option BoundingBox.

Lemma createAutoLayoutGroup_eq (rnd : string) (st : State) root f sel' :
  (2 <= length (selectedElements st))%nat ->
  rootSvg st = Some root ->
  selectedElements st = f :: sel' ->
  createAutoLayoutGroup getBBox rnd st =
  let g := fresh (dom (document st)) in
  let d1 :=
    setAttribute g "id" ("layout-" +:+ rnd)
      (setAttribute g "data-padding" "16"
         (setAttribute g "data-gap" "16"
            (setAttribute g "data-direction" "horizontal"
               (setAttribute g "data-layout" "flex"
                  (<[g := mkElement "g" ∅ [] None]> (document st)))))) in
  let d2 :=
    match parentOf d1 f with
    | Some p => insertBefore p g f d1
    | None => d1
    end in
  mkState
    (runAutoLayout getBBox g
       (foldl (fun d el => appendChild g el d) d2 (f :: sel')))
    (rootSvg st) [g] (gradientProps st).
Proof.
  intros Hlen Hroot Hsel. unfold createAutoLayoutGroup.
  replace (length (selectedElements st) <? 2)%nat with false
    by (symmetry; apply Nat.ltb_ge; lia).
  rewrite Hroot, Hsel. reflexivity.
Qed.

(** The fresh container and its five attributes: every other object is
    linked and labelled as before. *)
Lemma newGroup_links (rnd : string) d x :
  let g := fresh (dom d) in
  let d1 :=
    setAttribute g "id" ("layout-" +:+ rnd)
      (setAttribute g "data-padding" "16"
         (setAttribute g "data-gap" "16"
            (setAttribute g "data-direction" "horizontal"
               (setAttribute g "data-layout" "flex"
                  (<[g := mkElement "g" ∅ [] None]> d))))) in
  d !! g = None /\
  links d1 g = Some ([], None) /\
  tagOf d1 g = "g" /\
  (x ≠ g -> links d1 x = links d x).
Proof.
  intros g d1.
  assert (Hf : d !! g = None) by apply (createElementNS_fresh "g").
  unfold d1. rewrite !links_setAttribute, !tagOf_setAttribute.
  unfold links, tagOf. rewrite lookup_insert_eq.
  repeat split; try done.
  intros Hne. by rewrite lookup_insert_ne.
Qed.

Lemma links_children d d' x :
  links d' x = links d x -> childrenOf d' x = childrenOf d x.
Proof. intros H. by rewrite !childrenOf_links, H. Qed.

Lemma links_parent d d' x :
  links d' x = links d x -> parentOf d' x = parentOf d x.
Proof. intros H. by rewrite !parentOf_links, H. Qed.

(** The document after grouping the siblings [sel], whose first element
    sits between [pre] and [post] under [p]. *)
Lemma createAutoLayoutGroup_shape (rnd : string) (st : State)
    root p f sel' pre post :
  rootSvg st = Some root ->
  selectedElements st = f :: sel' ->
  (2 <= length (f :: sel'))%nat ->
  NoDup (f :: sel') ->
  p ∉ f :: sel' ->
  (forall e, e ∈ f :: sel' -> parentOf (document st) e = Some p) ->
  childrenOf (document st) p = pre ++ f :: post ->
  NoDup (pre ++ f :: post) ->
  (forall c, c ∈ pre ++ f :: post -> is_Some (document st !! c)) ->
  let sel := f :: sel' in
  let st1 := createAutoLayoutGroup getBBox rnd st in
  let g := fresh (dom (document st)) in
  selectedElements st1 = [g] /\
  document st !! g = None /\
  (g ∉ sel) /\ g ≠ p /\ (g ∉ pre ++ f :: post) /\
  tagOf (document st1) g = "g" /\
  parentOf (document st1) g = Some p /\
  childrenOf (document st1) g = sel /\
  childrenOf (document st1) p
    = filter (fun y => y ∉ sel) pre ++ g :: filter (fun y => y ∉ sel) post /\
  (forall e, e ∈ sel -> parentOf (document st1) e = Some g) /\
  is_Some (document st1 !! p).
Proof.
  intros Hroot Hsel Hlen Hnd Hp Hpar Hkids Hndk Hex sel st1 g.
  assert (Heq := createAutoLayoutGroup_eq rnd st root f sel'
                   ltac:(by rewrite Hsel) Hroot Hsel).
  cbv zeta in Heq. fold g in Heq.
  set (d1 := setAttribute g "id" _ _) in Heq.
  pose proof (fun x => newGroup_links rnd (document st) x) as Hnew.
  cbv zeta in Hnew. fold g in Hnew. fold d1 in Hnew.
  destruct (Hnew g) as (Hfresh & Hlg & Htg & _).
  assert (Hother : forall x, x ≠ g -> links d1 x = links (document st) x).
  { intros x. by destruct (Hnew x) as (_ & _ & _ & H). }
  assert (Hgsel : g ∉ sel).
  { intros Hin. apply Hpar, parentOf_Some in Hin.
    rewrite Hfresh in Hin. by destruct Hin. }
  assert (Hpx : is_Some (document st !! p)).
  { apply childrenOf_Some. rewrite Hkids. by destruct pre. }
  assert (Hgp : g ≠ p).
  { intros <-. rewrite Hfresh in Hpx. by destruct Hpx. }
  assert (Hgk : g ∉ pre ++ f :: post).
  { intros Hin. apply Hex in Hin. rewrite Hfresh in Hin. by destruct Hin. }
  assert (Hfg : f ≠ g) by (intros ->; apply Hgsel; by left).
  assert (Hpf : parentOf d1 f = Some p).
  { rewrite (links_parent _ _ _ (Hother f Hfg)). apply Hpar. by left. }
  rewrite Hpf in Heq.
  set (d2 := insertBefore p g f d1) in Heq.
  assert (Hg1 : is_Some (d1 !! g)) by (apply links_is_Some; by rewrite Hlg).
  assert (Hp1 : is_Some (d1 !! p)).
  { apply links_is_Some. rewrite (Hother p) by done. by apply links_is_Some. }
  assert (Hun : unlink g d1 = d1).
  { apply unlink_detached. by rewrite parentOf_links, Hlg. }
  assert (Hfpre : f ∉ pre).
  { apply NoDup_app in Hndk as (_ & Hdis & _). intros Hin.
    apply (Hdis f Hin). by left. }
  assert (Hk2p : childrenOf d2 p = pre ++ g :: f :: post).
  { unfold d2. rewrite childrenOf_insertBefore by done.
    rewrite decide_True by done. rewrite Hun.
    rewrite (links_children _ _ _ (Hother p ltac:(done))), Hkids.
    by apply insert_before_app. }
  assert (Hk2g : childrenOf d2 g = []).
  { unfold d2. rewrite childrenOf_insertBefore by done.
    rewrite decide_False by done. rewrite Hun.
    by rewrite childrenOf_links, Hlg. }
  assert (Hpar2 : forall y, parentOf d2 y = if decide (y = g) then Some p else parentOf d1 y).
  { intros y. unfold d2. by rewrite parentOf_insertBefore. }
  destruct (group_loop g p sel d2 Hnd Hgsel Hgp) as (Hkg & Hkp & Hpin & Hpout & Hlab).
  { by apply insertBefore_is_Some. }
  { intros e He. rewrite Hpar2.
    rewrite decide_False by (intros ->; done).
    rewrite (links_parent _ _ _ (Hother e ltac:(intros ->; done))).
    by apply Hpar. }
  fold sel in Heq.
  set (d3 := foldl (fun d el => appendChild g el d) d2 sel) in *.
  assert (Hlay := runAutoLayout_links getBBox g d3).
  assert (Hdoc : document st1 = runAutoLayout getBBox g d3)
    by (unfold st1; by rewrite Heq).
  assert (Hsel1 : selectedElements st1 = [g])
    by (unfold st1; by rewrite Heq).
  rewrite Hdoc.
  split; [done|]. split; [done|]. split; [done|]. split; [done|].
  split; [done|].
  split; [|split; [|split; [|split; [|split]]]].
  - rewrite (proj2 (Hlay g)).
    rewrite tagOf_labels, Hlab. unfold d2.
    by rewrite labels_insertBefore, <- tagOf_labels.
  - rewrite (links_parent _ _ _ (proj1 (Hlay g))).
    rewrite Hpout by done. rewrite Hpar2. by rewrite decide_True.
  - rewrite (links_children _ _ _ (proj1 (Hlay g))).
    by rewrite Hkg, Hk2g.
  - rewrite (links_children _ _ _ (proj1 (Hlay p))).
    rewrite Hkp, Hk2p. rewrite filter_app. f_equal.
    rewrite filter_cons_True by done.
    rewrite filter_cons_False; [done|].
    intros Hn. apply Hn. by left.
  - intros e He. rewrite (links_parent _ _ _ (proj1 (Hlay e))). by apply Hpin.
  - apply links_is_Some. rewrite (proj1 (Hlay p)). apply links_is_Some.
    apply labels_is_Some. rewrite Hlab. unfold d2.
    rewrite labels_insertBefore. by apply labels_is_Some.
Qed.
End GroupFacts.
(** ** [withRetry] *)

Section RetryFacts.
Import Js Retry.
Context {T : Type}.
Variable fn : nat -> Outcome T.
Variable maxRetries : Z.

Lemma backoff_seq (i k : nat) :
  flat_map (fun j => [Call j; Sleep (2000 * 2 ^ Z.of_nat j)]) (seq i (S k)) =
  Call i :: Sleep (2000 * 2 ^ Z.of_nat i) ::
  flat_map (fun j => [Call j; Sleep (2000 * 2 ^ Z.of_nat j)]) (seq (S i) k).
Proof. reflexivity. Qed.

(** [k] retryable failures in a row, with budget left, cost [k] calls and
    [k] waits, each wait twice the one before. *)
Lemma attempts_retry (k : nat) :
  forall (r i : nat),
    (forall j, (j < k)%nat ->
       exists e, fn (i + j) = Rejected e /\ retryable e = true) ->
    Z.of_nat (i + k) <= maxRetries ->
    attempts fn maxRetries (k + r) i (2000 * 2 ^ Z.of_nat i) =
    (flat_map (fun j => [Call j; Sleep (2000 * 2 ^ Z.of_nat j)]) (seq i k)
       ++ (attempts fn maxRetries r (i + k) (2000 * 2 ^ Z.of_nat (i + k))).1,
     (attempts fn maxRetries r (i + k) (2000 * 2 ^ Z.of_nat (i + k))).2).
Proof.
  induction k as [|k IH]; intros r i Hq Hle.
  - rewrite Nat.add_0_r. simpl. by destruct (attempts _ _ _ _ _).
  - destruct (Hq O) as (e & He & Hr); [lia|].
    rewrite Nat.add_0_r in He.
    apply andb_true_iff in Hr as [Hquota Hent].
    apply negb_true_iff in Hent.
    change (S k + r)%nat with (S (k + r)).
    cbn [attempts]. rewrite He, Hent, Hquota.
    rewrite bool_decide_eq_true_2 by lia. cbn [andb].
    replace (2000 * 2 ^ Z.of_nat i * 2) with (2000 * 2 ^ Z.of_nat (S i)).
    2:{ rewrite Nat2Z.inj_succ, Z.pow_succ_r by lia. lia. }
    rewrite (IH r (S i)).
    + rewrite backoff_seq.
      replace (S i + k)%nat with (i + S k)%nat by lia. reflexivity.
    + intros j Hj. destruct (Hq (S j)) as (e' & He' & Hr'); [lia|].
      exists e'. split; [|done].
      by replace (S i + j)%nat with (i + S j)%nat by lia.
    + lia.
Qed.

Lemma withRetry_prefix (k : nat) :
  (forall j, (j < k)%nat -> exists e, fn j = Rejected e /\ retryable e = true) ->
  Z.of_nat k <= maxRetries ->
  withRetry fn maxRetries =
  (backoff k
     ++ (attempts fn maxRetries (S (Z.to_nat (maxRetries - Z.of_nat k))) k
           (2000 * 2 ^ Z.of_nat k)).1,
   (attempts fn maxRetries (S (Z.to_nat (maxRetries - Z.of_nat k))) k
      (2000 * 2 ^ Z.of_nat k)).2).
Proof.
  intros Hq Hle. unfold withRetry, backoff.
  replace (Z.to_nat (maxRetries + 1))
    with (k + S (Z.to_nat (maxRetries - Z.of_nat k)))%nat by lia.
  change 2000 with (2000 * 2 ^ Z.of_nat 0) at 1.
  rewrite (attempts_retry k _ O); [done| |lia].
  intros j Hj. by apply Hq.
Qed.

End RetryFacts.



(** ** Selection *)

Section SelectionFacts.
Import Js Dom Editor.

Lemma closest_tag (tags : list string) (d : Document) (fuel : nat) :
  forall r n, closest fuel tags d r = Some n -> tagOf d n ∈ tags.
Proof.
  induction fuel as [|f IH]; intros r n H; [done|].
  cbn [closest] in H. destruct (d !! r) as [e|] eqn:Hr; [|done].
  case_bool_decide as Ht.
  - assert (r = n) as <- by congruence. unfold tagOf. by rewrite Hr.
  - destruct (parentNode e) as [p|]; [by eapply IH|done].
Qed.

Lemma closest_self (tags : list string) (d : Document) (fuel : nat) r e :
  d !! r = Some e -> tagName e ∈ tags -> closest (S fuel) tags d r = Some r.
Proof.
  intros Hr Ht. cbn [closest]. rewrite Hr. by rewrite bool_decide_eq_true_2.
Qed.

Lemma svg_not_eligible : "svg" ∉ eligible.
Proof.
  unfold eligible. intros H.
  repeat (apply elem_of_cons in H as [H|H]; [discriminate H|]).
  by apply elem_of_nil in H.
Qed.

(** C7.  When a click resolves to the eligible node [node]: with the shift
    modifier a selected [node] is taken out of the selection, the other
    selected elements staying as they are and in their order, and an
    unselected [node] is added at the end; without the modifier the
    selection becomes exactly [[node]].  The document is not touched. *)
Theorem handleCanvasMouseDown_toggle (st : State) (target node : ref) :
  closest (S (size (document st))) eligible (document st) target = Some node ->
  (node ∈ selectedElements st ->
     selectedElements (handleCanvasMouseDown target true st)
       = filter (fun item => item ≠ node) (selectedElements st) /\
     (node ∉ selectedElements (handleCanvasMouseDown target true st)) /\
     forall other, other ≠ node ->
       ((other ∈ selectedElements (handleCanvasMouseDown target true st))
          <-> (other ∈ selectedElements st))) /\
  (node ∉ selectedElements st ->
     selectedElements (handleCanvasMouseDown target true st)
       = selectedElements st ++ [node]) /\
  selectedElements (handleCanvasMouseDown target false st) = [node] /\
  (forall shiftKey,
     document (handleCanvasMouseDown target shiftKey st) = document st).
Proof.
  intros Hc.
  assert (Htag : tagOf (document st) node ≠ "svg").
  { intros Heq. apply svg_not_eligible. rewrite <- Heq.
    by eapply closest_tag. }
  unfold handleCanvasMouseDown. rewrite Hc.
  rewrite (bool_decide_eq_true_2 _ Htag). cbn [selectedElements set_selection].
  split; [|split; [|split]].
  - intros Hin. rewrite (bool_decide_eq_true_2 _ Hin).
    split; [done|]. split.
    + rewrite list_elem_of_filter. tauto.
    + intros other Hne. rewrite list_elem_of_filter. tauto.
  - intros Hnin. by rewrite (bool_decide_eq_false_2 _ Hnin).
  - done.
  - intros []; [|done]. by case_bool_decide.
Qed.
End SelectionFacts.

Lemma handleCanvasMouseDown_toggle_witness :
  Editor.selectedElements
    (Editor.handleCanvasMouseDown 3%positive true (Samples.editing [2; 3; 4]%positive))
  = [2; 4]%positive.
Proof.
  refine (proj1 (proj1 (handleCanvasMouseDown_toggle
            (Samples.editing [2; 3; 4]%positive) 3%positive 3%positive _) _)).
  - vm_compute. reflexivity.
  - vm_compute. apply list_elem_of_further, list_elem_of_here.
Defined.

(** ** Rejected operations *)

Section PreconditionFacts.
Import Js Dom Editor.

Lemma filter_index_from {A : Type} (index : nat) (l : list A) :
  forall k : nat,
    (length l <=
     S (length (List.filter (fun p : nat * A => negb (fst p =? index)%nat)
                  (imap (fun j a => ((k + j)%nat, a)) l))))%nat.
Proof.
  induction l as [|a l IH]; intros k; [cbn; lia|].
  cbn [imap List.filter fst length].
  assert (Hext : imap ((fun j a => ((k + j)%nat, a)) ∘ S) l
                 = imap (fun j a => ((S k + j)%nat, a)) l).
  { apply imap_ext. intros j x' _. cbn. f_equal. lia. }
  rewrite Hext.
  destruct (k + 0 =? index)%nat eqn:Hk; cbn [negb length].
  - clear IH. apply le_n_S.
    assert (Hall : forall (m : list A) k', (index < k')%nat ->
      List.filter (fun p : nat * A => negb (fst p =? index)%nat)
        (imap (fun j a => ((k' + j)%nat, a)) m)
      = imap (fun j a => ((k' + j)%nat, a)) m).
    { induction m as [|b m IHm]; intros k' Hlt; [done|].
      cbn [imap List.filter fst].
      replace (k' + 0 =? index)%nat with false
        by (symmetry; apply Nat.eqb_neq; lia).
      cbn [negb]. f_equal.
      assert (Hext' : imap ((fun j a => ((k' + j)%nat, a)) ∘ S) m
                      = imap (fun j a => ((S k' + j)%nat, a)) m).
      { apply imap_ext. intros j x' _. cbn. f_equal. lia. }
      rewrite Hext'. apply IHm. lia. }
    apply Nat.eqb_eq in Hk. rewrite Hall by lia.
    by rewrite length_imap.
  - specialize (IH (S k)). lia.
Qed.

(** Filtering one index out drops at most one element. *)
Lemma filter_index_length {A : Type} (index : nat) (l : list A) :
  (length l <= S (length (filter_index index l)))%nat.
Proof.
  unfold filter_index. rewrite length_map.
  apply (filter_index_from index l O).
Qed.

Variable getBBox : ref -> option BoundingBox.

(** C5.  Grouping with fewer than two selected elements, ungrouping when
    the selection is not exactly one container node, and removing a stop
    when fewer than two stops would be left, each return the state they were
    given: document, selection and stop list are untouched, and no error
    is raised (the handlers are total functions on the state). *)
Theorem invalid_operations_are_noops (rnd : string) (draws : nat -> string)
    (index : nat) (st : State) :
  ((length (selectedElements st) < 2)%nat ->
     createAutoLayoutGroup getBBox rnd st = st) /\
  ((forall group, selectedElements st = [group] ->
      tagOf (document st) group ≠ "g") ->
     ungroup st = st) /\
  ((length (filter_index index (stops (gradientProps st))) < 2)%nat ->
     removeGradientStop draws index st = st).
Proof.
  split; [|split].
  - intros Hlen. unfold createAutoLayoutGroup.
    by replace (length (selectedElements st) <? 2)%nat with true
      by (symmetry; apply Nat.ltb_lt; lia).
  - intros Hsel. unfold ungroup.
    destruct (selectedElements st) as [|group [|? ?]]; [done| |done].
    by rewrite (bool_decide_eq_false_2 _ (Hsel group eq_refl)).
  - intros Hlen. unfold removeGradientStop.
    pose proof (filter_index_length index (stops (gradientProps st))).
    by replace (length (stops (gradientProps st)) <=? 2)%nat with true
      by (symmetry; apply Nat.leb_le; lia).
Qed.
End PreconditionFacts.

Lemma invalid_operations_are_noops_witness :
  Editor.createAutoLayoutGroup Samples.box10 "x" (Samples.editing [2%positive])
    = Samples.editing [2%positive] /\
  Editor.ungroup (Samples.editing [2%positive]) = Samples.editing [2%positive] /\
  Editor.removeGradientStop Samples.draws 0 (Samples.editing [2%positive])
    = Samples.editing [2%positive].
Proof.
  pose proof (invalid_operations_are_noops Samples.box10 "x" Samples.draws 0
                (Samples.editing [2%positive])) as (H1 & H2 & H3).
  split; [|split].
  - apply H1. cbn. lia.
  - apply H2. intros group Hg. injection Hg as <-. vm_compute. discriminate.
  - apply H3. cbn. lia.
Defined.

(** ** Gradients: a disabled descriptor *)

Section DisabledGradientFacts.
Import Js Dom Editor.

Lemma prepend_new (tag : string) (d : Document) (p c : ref) :
  d !! c = None -> is_Some (d !! p) ->
  let d' := prepend p c (<[c := mkElement tag ∅ [] None]> d) in
  childrenOf d' p = c :: childrenOf d p /\
  childrenOf d' c = [] /\
  parentOf d' c = Some p /\
  tagOf d' c = tag.
Proof.
  intros Hc [e He] d'.
  assert (Hne : p ≠ c) by congruence.
  set (d0 := <[c := mkElement tag ∅ [] None]> d) in *.
  assert (Hc0 : d0 !! c = Some (mkElement tag ∅ [] None))
    by apply lookup_insert_eq.
  assert (Hp0 : d0 !! p = Some e) by (unfold d0; by rewrite lookup_insert_ne).
  assert (Hun : unlink c d0 = d0).
  { unfold unlink, parentOf. by rewrite Hc0. }
  unfold d', prepend. rewrite Hun.
  rewrite !childrenOf_setParent, !childrenOf_setChildren, parentOf_setParent.
  rewrite decide_True by done. rewrite decide_False by done.
  rewrite decide_True by done. rewrite Hp0.
  rewrite tagOf_labels, labels_setParent, labels_setChildren, <- tagOf_labels.
  unfold childrenOf, tagOf. rewrite Hp0, Hc0, He. cbn.
  split; [done|]. split; [done|]. split; [|done].
  destruct (setChildren p _ d0 !! c) eqn:Hs; [done|].
  apply eq_None_not_Some in Hs. destruct Hs.
  apply setChildren_is_Some. by eexists.
Qed.

Variable rnd : nat -> string.
Variable u : GradientUpdate.
Variable st : State.
Variable root : ref.
Hypothesis Hsel : selectedElements st ≠ [].
Hypothesis Hroot : rootSvg st = Some root.
Hypothesis Hoff : enabled (applyUpdate (gradientProps st) u) = false.

(** C9.  With a disabled descriptor, a non-empty selection and a document
    that has no definitions container, the update still makes one: a new
    object, tagged [defs], without children, put first under the root. *)
Theorem disabled_update_creates_defs :
  is_Some (document st !! root) ->
  querySelector (by_tag "defs") (document st) root = None ->
  exists defs,
    document st !! defs = None /\
    childrenOf (document (updateGradientProperty rnd u st)) root
      = defs :: childrenOf (document st) root /\
    tagOf (document (updateGradientProperty rnd u st)) defs = "defs" /\
    childrenOf (document (updateGradientProperty rnd u st)) defs = [] /\
    parentOf (document (updateGradientProperty rnd u st)) defs = Some root.
Proof.
  intros Hr Hq. rewrite (updateGradientProperty_document rnd u st root Hsel Hroot).
  unfold ensureDefs. rewrite Hq. cbn [createElementNS fst snd].
  exists (fresh (dom (document st))).
  assert (Hf : document st !! fresh (dom (document st)) = None)
    by apply (createElementNS_fresh "defs").
  split; [done|].
  destruct (prepend_new "defs" (document st) root _ Hf Hr) as (H1 & H2 & H3 & H4).
  repeat split.
  - rewrite childrenOf_links.
    rewrite (proj1 (disabledFold_links rnd _ _ _ Hoff _ _ _)).
    by rewrite <- childrenOf_links.
  - by rewrite (proj2 (disabledFold_links rnd _ _ _ Hoff _ _ _)).
  - rewrite childrenOf_links.
    rewrite (proj1 (disabledFold_links rnd _ _ _ Hoff _ _ _)).
    by rewrite <- childrenOf_links.
  - rewrite parentOf_links.
    rewrite (proj1 (disabledFold_links rnd _ _ _ Hoff _ _ _)).
    by rewrite <- parentOf_links.
Qed.

(** C3, as the code has it.  With a disabled descriptor every selected
    element gets back its recorded original fill; an element without a
    record keeps the fill it has, and gets the neutral [#cccccc] only when
    it has no fill either.  The record itself ([data-orig-fill]) is left as
    it was on every object: it is not cleared. *)
Theorem disabled_update_restores_fill (el : ref) :
  el ∈ selectedElements st -> is_Some (document st !! el) ->
  let d := document st in
  let d' := document (updateGradientProperty rnd u st) in
  getAttribute d' el "fill" = Some (restoredFill d el) /\
  (forall o, getAttribute d el "data-orig-fill" = Some o -> o ≠ EmptyString ->
     getAttribute d' el "fill" = Some o) /\
  (truthy (getAttribute d el "data-orig-fill") = false ->
     forall f, getAttribute d el "fill" = Some f -> f ≠ EmptyString ->
       getAttribute d' el "fill" = Some f) /\
  (truthy (getAttribute d el "data-orig-fill") = false ->
     truthy (getAttribute d el "fill") = false ->
     getAttribute d' el "fill" = Some "#cccccc") /\
  (forall x, getAttribute d' x "data-orig-fill" = getAttribute d x "data-orig-fill").
Proof.
  intros Hin Hx d d'.
  assert (Hfill : getAttribute d' el "fill" = Some (restoredFill d el)).
  { unfold d'. rewrite (updateGradientProperty_document rnd u st root Hsel Hroot).
    rewrite disabledFold_fill; [|done|done|].
    - unfold restoredFill. by rewrite !getAttribute_ensureDefs.
    - by destruct (frame_ensureDefs no_writes root (document st) el Hx). }
  assert (Hfalsy : forall o dflt, truthy o = false -> or_else o dflt = dflt).
  { intros [s|] dflt; cbn; [|done]. intros Ht.
    apply negb_false_iff in Ht. by rewrite Ht. }
  split; [done|]. rewrite Hfill. unfold restoredFill.
  split; [|split; [|split]].
  - intros o -> Ho. by rewrite or_else_Some.
  - intros Ht f -> Hf. by rewrite (Hfalsy _ _ Ht), or_else_Some.
  - intros Ht1 Ht2. by rewrite (Hfalsy _ _ Ht1), (Hfalsy _ _ Ht2).
  - intros x. unfold d'.
    rewrite (updateGradientProperty_document rnd u st root Hsel Hroot).
    by rewrite disabledFold_record, getAttribute_ensureDefs.
Qed.
End DisabledGradientFacts.

Lemma disabled_update_creates_defs_witness :
  exists defs,
    Editor.document (Samples.editing [2%positive]) !! defs = None /\
    Dom.childrenOf
      (Editor.document
         (Editor.updateGradientProperty Samples.draws (Editor.SetEnabled false)
            (Samples.editing [2%positive]))) 1%positive
      = defs :: Dom.childrenOf (Editor.document (Samples.editing [2%positive])) 1%positive /\
    Dom.tagOf
      (Editor.document
         (Editor.updateGradientProperty Samples.draws (Editor.SetEnabled false)
            (Samples.editing [2%positive]))) defs = "defs" /\
    Dom.childrenOf
      (Editor.document
         (Editor.updateGradientProperty Samples.draws (Editor.SetEnabled false)
            (Samples.editing [2%positive]))) defs = [] /\
    Dom.parentOf
      (Editor.document
         (Editor.updateGradientProperty Samples.draws (Editor.SetEnabled false)
            (Samples.editing [2%positive]))) defs = Some 1%positive.
Proof.
  apply (disabled_update_creates_defs Samples.draws (Editor.SetEnabled false)
           (Samples.editing [2%positive]) 1%positive).
  - discriminate.
  - reflexivity.
  - reflexivity.
  - vm_compute. by eexists.
  - vm_compute. reflexivity.
Defined.

Lemma disabled_update_restores_fill_witness :
  Dom.getAttribute
    (Editor.document
       (Editor.updateGradientProperty Samples.draws (Editor.SetEnabled false)
          (Samples.gradientOn [4; 3]%positive))) 4%positive "fill"
  = Some "#ff0000".
Proof.
  refine (proj1 (proj2 (disabled_update_restores_fill Samples.draws
            (Editor.SetEnabled false) (Samples.gradientOn [4; 3]%positive)
            1%positive _ _ _ 4%positive _ _)) "#ff0000" _ _).
  - discriminate.
  - reflexivity.
  - reflexivity.
  - apply list_elem_of_here.
  - vm_compute. by eexists.
  - vm_compute. reflexivity.
  - discriminate.
Defined.

(** C3 as stated fails on the record: after a gradient is switched off the
    element still carries its [data-orig-fill]; and an element that had no
    record keeps its own fill instead of taking the neutral colour. *)
Lemma disabled_update_keeps_record :
  let d' :=
    Editor.document
      (Editor.updateGradientProperty Samples.draws (Editor.SetEnabled false)
         (Samples.gradientOn [4; 3]%positive)) in
  Dom.getAttribute d' 4%positive "data-orig-fill" = Some "#ff0000" /\
  Dom.getAttribute d' 4%positive "data-orig-fill" ≠ None /\
  Dom.getAttribute Samples.doc1 3%positive "data-orig-fill" = None /\
  Dom.getAttribute d' 3%positive "fill" = Some "#00ff00" /\
  Dom.getAttribute d' 3%positive "fill" ≠ Some "#cccccc".
Proof. vm_compute. repeat split; discriminate. Qed.

(** ** Gradients: the id of the paint server *)

Section GradientIdFacts.
Import Js Dom Editor.

Lemma updateGradientProperty_state rnd u st :
  rootSvg (updateGradientProperty rnd u st) = rootSvg st /\
  selectedElements (updateGradientProperty rnd u st) = selectedElements st /\
  (selectedElements st ≠ [] ->
     gradientProps (updateGradientProperty rnd u st)
     = applyUpdate (gradientProps st) u).
Proof.
  unfold updateGradientProperty.
  destruct (selectedElements st) as [|e sel] eqn:Hs; [done|].
  destruct (rootSvg st) as [root|] eqn:Hr; [|done].
  destruct (ensureDefs root (document st)) as [defs d1].
  by destruct (foldl _ _ _).
Qed.

Lemma frame_updateGradientProperty rnd u st root :
  selectedElements st ≠ [] -> rootSvg st = Some root ->
  frame (fold_writes (selectedElements st)) (document st)
    (document (updateGradientProperty rnd u st)).
Proof.
  intros Hsel Hroot. rewrite (updateGradientProperty_document rnd u st root) by done.
  eapply frame_trans; [apply frame_ensureDefs|apply frame_gradientFold].
Qed.

Lemma idless_ensureDefs root d x : idless (ensureDefs root d).2 x = idless d x.
Proof. unfold idless. by rewrite getAttribute_ensureDefs. Qed.

Lemma update_fill_idless rnd u st root pre el post :
  rootSvg st = Some root ->
  selectedElements st = pre ++ el :: post ->
  el ∉ post ->
  (forall x, x ∈ pre ++ [el] -> is_Some (document st !! x)) ->
  idless (document st) el = true ->
  enabled (applyUpdate (gradientProps st) u) = true ->
  getAttribute (document (updateGradientProperty rnd u st)) el "fill"
  = Some (url ("grad-" +:+ rnd (length (List.filter (idless (document st)) pre)))).
Proof.
  intros Hroot Hsel Hpost Hx Hid He.
  assert (Hne : selectedElements st ≠ []) by (rewrite Hsel; by destruct pre).
  rewrite (updateGradientProperty_document rnd u st root Hne Hroot).
  rewrite Hsel.
  rewrite gradientFold_fill_idless; [|done| |done|by rewrite idless_ensureDefs].
  - do 5 f_equal. apply filter_ext. intros x. apply idless_ensureDefs.
  - intros x Hin.
    by destruct (frame_ensureDefs no_writes root (document st) x (Hx x Hin)).
Qed.

Lemma update_paintServer rnd u st root el :
  rootSvg st = Some root ->
  el ∈ selectedElements st ->
  is_Some (document st !! el) ->
  enabled (applyUpdate (gradientProps st) u) = true ->
  exists ge gid,
    getAttribute (document (updateGradientProperty rnd u st)) el "fill"
      = Some (url gid) /\
    Paint.paintServer (type (applyUpdate (gradientProps st) u)) gid
      (document (updateGradientProperty rnd u st)) ge.
Proof.
  intros Hroot Hin Hx He.
  assert (Hne : selectedElements st ≠ []).
  { intros Hnil. rewrite Hnil in Hin. by apply elem_of_nil in Hin. }
  rewrite (updateGradientProperty_document rnd u st root Hne Hroot).
  apply gradientFold_paintServer; [done|done|].
  by destruct (frame_ensureDefs no_writes root (document st) el Hx).
Qed.

(** The fill of an id-less element, and the paint server behind it. *)
Lemma update_idless_server rnd u st root pre el post :
  rootSvg st = Some root ->
  selectedElements st = pre ++ el :: post ->
  el ∉ post ->
  (forall x, x ∈ pre ++ [el] -> is_Some (document st !! x)) ->
  idless (document st) el = true ->
  enabled (applyUpdate (gradientProps st) u) = true ->
  let gid := "grad-" +:+ rnd (length (List.filter (idless (document st)) pre)) in
  let run := updateGradientProperty rnd u st in
  getAttribute (document run) el "fill" = Some (url gid) /\
  exists ge, Paint.paintServer (type (gradientProps run)) gid (document run) ge.
Proof.
  intros Hroot Hsel Hpost Hx Hid He gid run.
  assert (Hne : selectedElements st ≠ []) by (rewrite Hsel; by destruct pre).
  pose proof (update_fill_idless rnd u st root pre el post
                Hroot Hsel Hpost Hx Hid He) as Hfill.
  fold gid run in Hfill. split; [done|].
  destruct (update_paintServer rnd u st root el Hroot) as (ge & gid' & Hf & Hsrv);
    [rewrite Hsel; apply elem_of_app; right; apply list_elem_of_here
    |apply Hx, elem_of_app; right; apply list_elem_of_here|done|].
  fold run in Hf, Hsrv. rewrite Hfill in Hf.
  apply (inj Some), url_inj in Hf. subst gid'.
  destruct (updateGradientProperty_state rnd u st) as (_ & _ & Hg).
  fold run in Hg. rewrite (Hg Hne). by exists ge.
Qed.

(** C10.  The ids that go into the selectors are plain names.  An element
    without an explicit id is bound to the paint server [grad-] followed by
    a draw of the random source (the [k]-th draw of the call when [k]
    id-less elements are selected before it): its fill refers to that id,
    and a paint server of the descriptor's kind carries it.  So the outcome
    follows the draws: two runs on the same document whose draws differ
    bind the fill to different ids, and a second call on the result of the
    first binds it to the id of its own draw, again the id of a paint
    server. *)
Theorem idless_gradient_id_follows_the_draw
    (rnd1 rnd2 : nat -> string) (u u' : GradientUpdate) (st : State)
    (root : ref) (pre : list ref) (el : ref) (post : list ref) :
  Scope.plainIds rnd1 (document st) (selectedElements st) = true ->
  Scope.plainIds rnd2 (document st) (selectedElements st) = true ->
  rootSvg st = Some root ->
  selectedElements st = pre ++ el :: post ->
  el ∉ post ->
  (forall x, x ∈ pre ++ [el] -> is_Some (document st !! x)) ->
  idless (document st) el = true ->
  enabled (applyUpdate (gradientProps st) u) = true ->
  enabled (applyUpdate (applyUpdate (gradientProps st) u) u') = true ->
  let k := length (List.filter (idless (document st)) pre) in
  let run1 := updateGradientProperty rnd1 u st in
  let run2 := updateGradientProperty rnd2 u' run1 in
  getAttribute (document run1) el "fill" = Some (url ("grad-" +:+ rnd1 k)) /\
  (exists ge,
     Paint.paintServer (type (gradientProps run1)) ("grad-" +:+ rnd1 k)
       (document run1) ge) /\
  (rnd1 k ≠ rnd2 k ->
     getAttribute (document (updateGradientProperty rnd2 u st)) el "fill"
     ≠ getAttribute (document run1) el "fill") /\
  getAttribute (document run2) el "fill" = Some (url ("grad-" +:+ rnd2 k)) /\
  (exists ge,
     Paint.paintServer (type (gradientProps run2)) ("grad-" +:+ rnd2 k)
       (document run2) ge).
Proof.
  intros _ _ Hroot Hsel Hpost Hx Hid He He' k run1 run2.
  assert (Hne : selectedElements st ≠ []) by (rewrite Hsel; by destruct pre).
  destruct (update_idless_server rnd1 u st root pre el post
              Hroot Hsel Hpost Hx Hid He) as [H1 Hsrv1].
  pose proof (update_fill_idless rnd2 u st root pre el post
                Hroot Hsel Hpost Hx Hid He) as H2.
  fold k in H1, Hsrv1, H2. fold run1 in H1, Hsrv1.
  split; [done|]. split; [done|]. split.
  - intros Hdiff. rewrite H1, H2. intros Heq. apply Hdiff.
    apply (inj Some), url_inj, (append_inj_l "grad-") in Heq. done.
  - destruct (updateGradientProperty_state rnd1 u st) as (Hr1 & Hs1 & Hg1).
    pose proof (frame_updateGradientProperty rnd1 u st root Hne Hroot) as Hf.
    fold run1 in Hr1, Hs1, Hg1, Hf.
    assert (Hsame : forall x, x ∈ pre ++ [el] ->
              idless (document run1) x = idless (document st) x).
    { intros x Hin. eapply idless_frame;
        [exact Hf|apply id_not_written_fold|by apply Hx]. }
    assert (Hk : length (List.filter (idless (document run1)) pre) = k).
    { unfold k. f_equal. apply filter_ext_in. intros x Hin. apply Hsame.
      apply elem_of_app. left. by apply list_elem_of_In. }
    destruct (update_idless_server rnd2 u' run1 root pre el post) as [H3 Hsrv3].
    + by rewrite Hr1.
    + by rewrite Hs1.
    + done.
    + intros x Hin. by destruct (Hf x (Hx x Hin)).
    + rewrite Hsame; [done|]. apply elem_of_app. right. apply list_elem_of_here.
    + by rewrite Hg1.
    + rewrite Hk in H3, Hsrv3. fold run2 in H3, Hsrv3. done.
Qed.
End GradientIdFacts.

Lemma idless_gradient_id_follows_the_draw_witness :
  Dom.getAttribute
    (Editor.document
       (Editor.updateGradientProperty Samples.draws' (Editor.SetEnabled true)
          (Samples.editing [3%positive]))) 3%positive "fill"
  ≠ Dom.getAttribute
      (Editor.document
         (Editor.updateGradientProperty Samples.draws (Editor.SetEnabled true)
            (Samples.editing [3%positive]))) 3%positive "fill".
Proof.
  refine (proj1 (proj2 (proj2 (idless_gradient_id_follows_the_draw
            Samples.draws Samples.draws' (Editor.SetEnabled true)
            (Editor.SetEnabled true) (Samples.editing [3%positive])
            1%positive [] 3%positive [] _ _ _ _ _ _ _ _ _))) _).
  - vm_compute. reflexivity.
  - vm_compute. reflexivity.
  - reflexivity.
  - reflexivity.
  - apply not_elem_of_nil.
  - intros x Hin. apply list_elem_of_singleton in Hin. subst x.
    vm_compute. by eexists.
  - vm_compute. reflexivity.
  - reflexivity.
  - reflexivity.
  - vm_compute. discriminate.
Defined.

(** ** Gradients: the endpoints of a linear paint server *)

Section LinearEndpointFacts.
Import Js Dom Editor.

Lemma update_linear_server rnd u st root el :
  rootSvg st = Some root ->
  el ∈ selectedElements st ->
  is_Some (document st !! el) ->
  enabled (applyUpdate (gradientProps st) u) = true ->
  type (applyUpdate (gradientProps st) u) = linear ->
  exists ge gid,
    getAttribute (document (updateGradientProperty rnd u st)) el "fill"
      = Some (url gid) /\
    linearServer (angle (applyUpdate (gradientProps st) u)) gid
      (document (updateGradientProperty rnd u st)) ge.
Proof.
  intros Hroot Hin Hx He Ht.
  assert (Hne : selectedElements st ≠ []).
  { intros Hnil. rewrite Hnil in Hin. by apply elem_of_nil in Hin. }
  rewrite (updateGradientProperty_document rnd u st root Hne Hroot).
  apply gradientFold_server; [done|done|done|].
  by destruct (frame_ensureDefs no_writes root (document st) el Hx).
Qed.

(** C2, as the code has it.  The ids that go into the selectors are plain
    names.  With an enabled linear descriptor of angle
    [a] (in degrees), every selected element ends up bound, by its fill, to
    the id of a linear paint server whose endpoints are the percentages
    [x1 = round(50 - 50 cos a)], [y1 = round(50 - 50 sin a)],
    [x2 = round(50 + 50 cos a)], [y2 = round(50 + 50 cos a)]: rounded to
    the nearest integer, and [y2] with the cosine.  At 90 degrees they are
    50, 0, 50 and 50. *)
Theorem linear_gradient_endpoints rnd u st root el :
  Scope.plainIds rnd (document st) (selectedElements st) = true ->
  rootSvg st = Some root ->
  el ∈ selectedElements st ->
  is_Some (document st !! el) ->
  enabled (applyUpdate (gradientProps st) u) = true ->
  type (applyUpdate (gradientProps st) u) = linear ->
  let a := angle (applyUpdate (gradientProps st) u) in
  let d' := document (updateGradientProperty rnd u st) in
  exists ge gid,
    getAttribute d' el "fill" = Some (url gid) /\
    getAttribute d' ge "id" = Some gid /\
    toLowerCase (tagOf d' ge) = "lineargradient" /\
    getAttribute d' ge "x1"
      = Some (percent (Math_round (50 - cos (IZR a * PI / 180) * 50)%R)) /\
    getAttribute d' ge "y1"
      = Some (percent (Math_round (50 - sin (IZR a * PI / 180) * 50)%R)) /\
    getAttribute d' ge "x2"
      = Some (percent (Math_round (50 + cos (IZR a * PI / 180) * 50)%R)) /\
    getAttribute d' ge "y2"
      = Some (percent (Math_round (50 + cos (IZR a * PI / 180) * 50)%R)) /\
    (a = 90 ->
       getAttribute d' ge "x1" = Some "50%" /\
       getAttribute d' ge "y1" = Some "0%" /\
       getAttribute d' ge "x2" = Some "50%" /\
       getAttribute d' ge "y2" = Some "50%").
Proof.
  intros _ Hroot Hin Hx He Ht a d'.
  destruct (update_linear_server rnd u st root el Hroot Hin Hx He Ht)
    as (ge & gid & Hfill & Hid & Htag & H1 & H2 & H3 & H4).
  fold a in H1, H2, H3, H4. fold d' in Hfill, Hid, Htag, H1, H2, H3, H4.
  exists ge, gid.
  split; [exact Hfill|]. split; [exact Hid|]. split; [exact Htag|].
  split; [exact H1|]. split; [exact H2|]. split; [exact H3|].
  split; [exact H4|].
  intros Ha. rewrite H1, H2, H3, H4, Ha.
  destruct endpoints_90 as (-> & -> & -> & ->). by repeat split.
Qed.

(** C2 as stated leaves the rounding out.  At sixty degrees, on the first
    rectangle of the sample canvas, the fill resolves to the paint server
    [grad-a], whose [y1] is [7%], while [50 - 50 sin(60 deg)] lies strictly
    between 6 and 7. *)
Lemma linear_gradient_endpoint_is_rounded :
  let d' :=
    document (updateGradientProperty Samples.draws (SetAngle 60)
                (Samples.linearOn [2%positive])) in
  getAttribute d' 2%positive "fill" = Some "url(#grad-a)" /\
  querySelector (by_id "grad-a") d' 1%positive = Some 6%positive /\
  getAttribute d' 6%positive "y1" = Some "7%" /\
  (6 < 50 - sin (IZR 60 * PI / 180) * 50 < 7)%R /\
  (IZR 7 ≠ 50 - sin (IZR 60 * PI / 180) * 50)%R.
Proof.
  intros d'.
  assert (Hy : getAttribute d' 6%positive "y1" = Some (percent (y1_of 60))).
  { vm_compute. reflexivity. }
  rewrite (proj2 y1_60) in Hy.
  pose proof (proj1 y1_60) as Hb. unfold rad in Hb.
  split; [vm_compute; reflexivity|].
  split; [vm_compute; reflexivity|].
  split; [exact Hy|]. split; [exact Hb|]. lra.
Qed.
End LinearEndpointFacts.

Lemma linear_gradient_endpoints_witness :
  exists ge gid,
    Dom.getAttribute
      (Editor.document
         (Editor.updateGradientProperty Samples.draws (Editor.SetAngle 90)
            (Samples.linearOn [2%positive]))) 2%positive "fill"
      = Some (Editor.url gid) /\
    Dom.getAttribute
      (Editor.document
         (Editor.updateGradientProperty Samples.draws (Editor.SetAngle 90)
            (Samples.linearOn [2%positive]))) ge "id" = Some gid /\
    Dom.getAttribute
      (Editor.document
         (Editor.updateGradientProperty Samples.draws (Editor.SetAngle 90)
            (Samples.linearOn [2%positive]))) ge "x1" = Some "50%" /\
    Dom.getAttribute
      (Editor.document
         (Editor.updateGradientProperty Samples.draws (Editor.SetAngle 90)
            (Samples.linearOn [2%positive]))) ge "y1" = Some "0%" /\
    Dom.getAttribute
      (Editor.document
         (Editor.updateGradientProperty Samples.draws (Editor.SetAngle 90)
            (Samples.linearOn [2%positive]))) ge "x2" = Some "50%" /\
    Dom.getAttribute
      (Editor.document
         (Editor.updateGradientProperty Samples.draws (Editor.SetAngle 90)
            (Samples.linearOn [2%positive]))) ge "y2" = Some "50%".
Proof.
  destruct (linear_gradient_endpoints Samples.draws (Editor.SetAngle 90)
              (Samples.linearOn [2%positive]) 1%positive 2%positive)
    as (ge & gid & Hfill & Hid & _ & _ & _ & _ & _ & H90).
  - vm_compute. reflexivity.
  - reflexivity.
  - apply list_elem_of_here.
  - vm_compute. by eexists.
  - reflexivity.
  - reflexivity.
  - exists ge, gid. destruct (H90 eq_refl) as (H1 & H2 & H3 & H4).
    repeat split; assumption.
Defined.

(** ** Auto layout of a row *)

Section RowLayoutFacts.
Import Js Dom Editor.
Variable getBBox : ref -> option BoundingBox.

End RowLayoutFacts.



(** ** The gradient panel on a selection change *)

Section PanelFacts.
Import Js Dom Editor.

(** A fill that is a reference which resolves to nothing leaves the panel
    as it was: neither branch of the effect writes it. *)
Lemma selectionEffect_unresolved (st : State) (firstEl : ref)
    (rest : list ref) (fill : string) :
  selectedElements st = firstEl :: rest ->
  getAttribute (document st) firstEl "fill" = Some fill ->
  fill ≠ EmptyString ->
  startsWith "url(#" fill = true ->
  rootSvg st ≫= querySelector (by_id (slice_5_m1 fill)) (document st) = None ->
  selectionEffect_gradient st = gradientProps st.
Proof.
  intros Hsel Hfill Hne Hpre Hq. unfold selectionEffect_gradient.
  rewrite Hsel, Hfill. cbn [truthy default from_option].
  change (Datatypes.id fill) with fill.
  rewrite (bool_decide_eq_false_2 _ Hne). cbn [negb andb].
  by rewrite Hpre, Hq.
Qed.

(** C6 on the code.  The first selected element's fill is [url(#gone)],
    which no object of the document answers to, and the panel was enabled:
    after the effect it still is, where the claim has it disabled. *)
Theorem selectionEffect_dangling_reference_stays_enabled :
  getAttribute (document Samples.dangling) 2%positive "fill" = Some "url(#gone)" /\
  querySelector (by_id "gone") (document Samples.dangling) 1%positive = None /\
  enabled (gradientProps Samples.dangling) = true /\
  enabled (selectionEffect_gradient Samples.dangling) = true.
Proof. vm_compute. by repeat split. Qed.
End PanelFacts.

(** ** Grouping, then ungrouping *)

Section GroupUngroupFacts.
Import Js Dom Editor.
Variable getBBox : ref -> option BoundingBox.

Lemma filter_none {A : Type} (P : A -> Prop) `{forall a, Decision (P a)}
    (l : list A) :
  Forall (fun a => ~ P a) l -> filter P l = [].
Proof.
  induction 1 as [|a l Ha Hl IH]; [done|].
  by rewrite filter_cons_False.
Qed.

(** C1, as the code has it.  Take two or more distinct siblings under [p],
    selected in the order [sel]; [pre] and [post] are the children of [p]
    before and after the first selected one.  Grouping and then ungrouping
    - selects [sel] again;
    - gives every selected node its parent [p] back;
    - leaves [p] with the children it had, as a set;
    - puts the selected nodes next to each other where the first selected
      one was, in selection order.
    So the document order of the selected nodes is the original one when
    the selection lists them in document order. *)
Theorem ungroup_group_selection_order (rnd : string) (st : State)
    (root p f : ref) (sel' pre post : list ref) :
  rootSvg st = Some root ->
  selectedElements st = f :: sel' ->
  (2 <= length (f :: sel'))%nat ->
  NoDup (f :: sel') ->
  p ∉ f :: sel' ->
  (forall e, e ∈ f :: sel' ->
     parentOf (document st) e = Some p /\ e ∈ pre ++ f :: post) ->
  childrenOf (document st) p = pre ++ f :: post ->
  NoDup (pre ++ f :: post) ->
  (forall c, c ∈ pre ++ f :: post -> is_Some (document st !! c)) ->
  let sel := f :: sel' in
  let kids := pre ++ f :: post in
  let st2 := ungroup (createAutoLayoutGroup getBBox rnd st) in
  selectedElements st2 = sel /\
  (forall e, e ∈ sel -> parentOf (document st2) e = Some p) /\
  childrenOf (document st2) p
    = filter (fun y => y ∉ sel) pre ++ sel ++ filter (fun y => y ∉ sel) post /\
  childrenOf (document st2) p ≡ₚ kids /\
  filter (fun y => y ∈ sel) (childrenOf (document st2) p) = sel /\
  (filter (fun y => y ∈ sel) kids = sel ->
     filter (fun y => y ∈ sel) (childrenOf (document st2) p)
     = filter (fun y => y ∈ sel) kids).
Proof.
  intros Hroot Hsel Hlen Hnd Hp Hpar Hkids Hndk Hex sel kids st2.
  destruct (createAutoLayoutGroup_shape getBBox rnd st root p f sel' pre post
              Hroot Hsel Hlen Hnd Hp (fun e He => proj1 (Hpar e He))
              Hkids Hndk Hex)
    as (Hs1 & Hfresh & Hgsel & Hgp & Hgk & Htag & Hpg & Hkg & Hkp & Hpe & Hpx).
  set (st1 := createAutoLayoutGroup getBBox rnd st) in *.
  set (g := fresh (dom (document st))) in *.
  fold sel in Hgsel, Hkg, Hkp, Hpe.
  set (A := filter (fun y => y ∉ sel) pre) in *.
  set (B := filter (fun y => y ∉ sel) post) in *.
  assert (HgA : g ∉ A).
  { unfold A. rewrite list_elem_of_filter. intros [_ Hin].
    apply Hgk, elem_of_app. by left. }
  assert (HgB : g ∉ B).
  { unfold B. rewrite list_elem_of_filter. intros [_ Hin].
    apply Hgk, elem_of_app. right. by right. }
  destruct (ungroup_loop g p sel (document st1) A B Hnd Hgsel Hp Hgp Hpx Hpe Hkp HgA)
    as (Hk5 & _ & Hp5 & Hp5' & _).
  set (d5 := foldl (fun d child => insertBefore p child g d) (document st1) sel) in *.
  assert (Hun : st2 = mkState (remove g d5) (rootSvg st1) sel (gradientProps st1)).
  { unfold st2, ungroup. fold st1. rewrite Hs1.
    rewrite (bool_decide_eq_true_2 _ Htag), Hpg, Hkg. reflexivity. }
  assert (Hpg5 : parentOf d5 g = Some p) by (by rewrite Hp5').
  assert (Hkfinal : childrenOf (document st2) p = A ++ sel ++ B).
  { rewrite Hun. cbn [document]. unfold remove. rewrite childrenOf_unlink.
    rewrite decide_True by done. rewrite Hk5.
    rewrite !filter_app, filter_cons_False by (intros Hn; by apply Hn).
    by rewrite !filter_ne_notin. }
  assert (Hfsel : filter (fun y => y ∈ sel) (A ++ sel ++ B) = sel).
  { rewrite !filter_app.
    rewrite (filter_none _ A), (filter_none _ B), (filter_all _ sel).
    - by rewrite app_nil_r.
    - by apply Forall_forall.
    - apply Forall_forall. intros y Hy. unfold B in Hy.
      apply list_elem_of_filter in Hy. tauto.
    - apply Forall_forall. intros y Hy. unfold A in Hy.
      apply list_elem_of_filter in Hy. tauto. }
  apply NoDup_app in Hndk as Hndk'. destruct Hndk' as (Hndpre & Hdis & Hndfpost).
  apply NoDup_cons in Hndfpost as [Hfpost Hndpost].
  split; [by rewrite Hun|]. split; [|split; [done|split; [|split]]].
  - intros e He. rewrite Hun. cbn [document]. unfold remove.
    rewrite parentOf_unlink. rewrite decide_False by (intros ->; done).
    by apply Hp5.
  - rewrite Hkfinal. apply NoDup_Permutation; [|done|].
    + apply NoDup_app. split; [by apply NoDup_filter|]. split.
      * intros y Hy Hin. unfold A in Hy. apply list_elem_of_filter in Hy as [Hny Hypre].
        apply elem_of_app in Hin as [Hin|Hin]; [done|].
        unfold B in Hin. apply list_elem_of_filter in Hin as [_ Hypost].
        apply (Hdis y Hypre). by right.
      * apply NoDup_app. split; [done|]. split; [|by apply NoDup_filter].
        intros y Hy Hin. unfold B in Hin.
        apply list_elem_of_filter in Hin. tauto.
    + intros y. unfold kids, A, B.
      rewrite !elem_of_app, !list_elem_of_filter, elem_of_cons. split.
      * intros [[_ H]|[H|[_ H]]]; [tauto| |tauto].
        apply Hpar in H as [_ H]. rewrite elem_of_app, elem_of_cons in H. tauto.
      * destruct (decide (y ∈ sel)) as [Hin|Hnin]; [tauto|].
        intros [H|[->|H]]; [tauto| |tauto].
        exfalso. apply Hnin. by left.
  - by rewrite Hkfinal.
  - intros Hdoc. by rewrite Hkfinal, Hfsel, Hdoc.
Qed.
End GroupUngroupFacts.

Lemma ungroup_group_selection_order_witness :
  Editor.selectedElements
    (Editor.ungroup
       (Editor.createAutoLayoutGroup Samples.box10 "x"
          (Samples.editing [2; 3]%positive))) = [2; 3]%positive /\
  Dom.childrenOf
    (Editor.document
       (Editor.ungroup
          (Editor.createAutoLayoutGroup Samples.box10 "x"
             (Samples.editing [2; 3]%positive)))) 1%positive
  = [2; 3; 4]%positive.
Proof.
  pose proof (ungroup_group_selection_order Samples.box10 "x"
                (Samples.editing [2; 3]%positive) 1%positive 1%positive 2%positive
                [3%positive] [] [3; 4]%positive) as H.
  destruct H as (H1 & _ & H3 & _).
  - reflexivity.
  - reflexivity.
  - cbn. lia.
  - apply (bool_decide_unpack _). vm_compute. exact I.
  - apply (bool_decide_unpack _). vm_compute. exact I.
  - intros e He. split.
    + apply elem_of_cons in He as [->|He];
        [|apply list_elem_of_singleton in He; subst e]; reflexivity.
    + apply elem_of_cons in He as [->|He];
        [|apply list_elem_of_singleton in He; subst e];
        apply (bool_decide_unpack _); vm_compute; exact I.
  - reflexivity.
  - apply (bool_decide_unpack _). vm_compute. exact I.
  - intros c Hc. cbn [app] in Hc.
    repeat (apply elem_of_cons in Hc as [->|Hc]; [vm_compute; by eexists|]).
    by apply elem_of_nil in Hc.
  - split; [exact H1|exact H3].
Defined.

(** C1 as stated fails on the order: selecting the last rectangle and then
    the first one, grouping and ungrouping leaves the two in selection
    order, the reverse of the order they had in the document (and moves them
    behind the rectangle that was between them). *)
Lemma ungroup_group_reverses_order :
  let sel := [4; 2]%positive in
  let st2 :=
    Editor.ungroup
      (Editor.createAutoLayoutGroup Samples.box10 "x" (Samples.editing sel)) in
  Dom.childrenOf Samples.doc0 1%positive = [2; 3; 4]%positive /\
  Dom.childrenOf (Editor.document st2) 1%positive = [3; 4; 2]%positive /\
  filter (fun y => y ∈ sel) (Dom.childrenOf Samples.doc0 1%positive)
    = [2; 4]%positive /\
  filter (fun y => y ∈ sel) (Dom.childrenOf (Editor.document st2) 1%positive)
    = [4; 2]%positive.
Proof. vm_compute. by repeat split. Qed.

(** * Further properties of the code *)

(** ** [withRetry]: budget, waiting time, and what comes out *)

Section RetryBudgetFacts.
Import Js Retry Service.
Context {T : Type}.
Variable fn : nat -> Outcome T.
Variable maxRetries : Z.

Lemma attempts_budget (remaining : nat) :
  forall (i : nat) (delay : Z),
    0 <= delay ->
    Z.of_nat i + Z.of_nat remaining = maxRetries + 1 ->
    (0 < remaining)%nat ->
    (calls (attempts fn maxRetries remaining i delay).1 <= remaining)%nat /\
    (1 <= calls (attempts fn maxRetries remaining i delay).1)%nat /\
    0 <= waited (attempts fn maxRetries remaining i delay).1
      <= delay * (2 ^ (Z.of_nat remaining - 1) - 1) /\
    (forall ms, last (attempts fn maxRetries remaining i delay).1 ≠ Some (Sleep ms)).
Proof.
  induction remaining as [|k IH]; intros i delay Hd Hinv Hpos; [lia|].
  assert (Hpow : 0 < 2 ^ (Z.of_nat (S k) - 1)) by (apply Z.pow_pos_nonneg; lia).
  cbn [attempts]. destruct (fn i) as [v|e].
  { cbn. repeat split; try lia; [nia|done]. }
  destruct (isEntityError e).
  { cbn. repeat split; try lia; [nia|done]. }
  destruct (isQuotaError e); cbn [andb]; [|cbn; repeat split; try lia; [nia|done]].
  case_bool_decide as Hlt; [|cbn; repeat split; try lia; [nia|done]].
  destruct (IH (S i) (delay * 2)) as (Hc & Hc1 & Hw & Hlast); [lia|lia|lia|].
  destruct (attempts fn maxRetries k (S i) (delay * 2)) as [tr r] eqn:E.
  cbn [fst] in *. unfold calls, waited in *. cbn [List.filter length foldr].
  assert (Hk : Z.of_nat (S k) - 1 = Z.succ (Z.of_nat k - 1)) by lia.
  rewrite Hk, Z.pow_succ_r by lia.
  split; [lia|]. split; [lia|]. split; [nia|].
  intros ms. destruct tr as [|ev tr]; [cbn in Hc1; lia|].
  change (last (Call i :: Sleep delay :: ev :: tr)) with (last (ev :: tr)).
  apply Hlast.
Qed.

(** X1.  With a budget of [maxRetries >= 0] retries the helper calls the
    wrapped function at least once and at most [maxRetries + 1] times, waits
    at most [2000 * (2 ^ maxRetries - 1)] milliseconds in all, and never ends
    on a wait. *)
Theorem withRetry_budget :
  0 <= maxRetries ->
  (1 <= calls (withRetry fn maxRetries).1 <= Z.to_nat (maxRetries + 1))%nat /\
  0 <= waited (withRetry fn maxRetries).1 <= 2000 * (2 ^ maxRetries - 1) /\
  (forall ms, last (withRetry fn maxRetries).1 ≠ Some (Sleep ms)).
Proof.
  intros Hm. unfold withRetry.
  destruct (attempts_budget (Z.to_nat (maxRetries + 1)) O 2000)
    as (Hc & Hc1 & Hw & Hl); [lia|lia|lia|].
  replace (Z.of_nat (Z.to_nat (maxRetries + 1)) - 1) with maxRetries in Hw by lia.
  split; [lia|]. split; [lia|done].
Qed.



(** X3.  A failure that is neither a quota error nor the session-invalid
    signal is not retried: after [k] retried quota failures, with [k] within
    the budget, the error of call [k] is thrown as it is, with no wait after
    it. *)
Theorem withRetry_unknown_error_surfaces (k : nat) (e : JsError) :
  Z.of_nat k <= maxRetries ->
  (forall j, (j < k)%nat -> exists e', fn j = Rejected e' /\ retryable e' = true) ->
  fn k = Rejected e ->
  isQuotaError e = false ->
  isEntityError e = false ->
  withRetry fn maxRetries = (backoff k ++ [Call k], Rejected e).
Proof.
  intros Hle Hq He Hnq Hne. rewrite (withRetry_prefix fn maxRetries k Hq Hle).
  cbn [attempts]. by rewrite He, Hne, Hnq.
Qed.
End RetryBudgetFacts.

(** ** The vector document in the backend's answer *)

Section SvgMatchFacts.
Import Js Retry Service.

Lemma append_cons (c : ascii) (a b : string) :
  String c a +:+ b = String c (a +:+ b).
Proof. reflexivity. Qed.

Lemma append_nil (b : string) : EmptyString +:+ b = b.
Proof. reflexivity. Qed.

Lemma toLowerCase_append (a b : string) :
  toLowerCase (a +:+ b) = toLowerCase a +:+ toLowerCase b.
Proof. induction a as [|c a IH]; simpl; [done|]. by rewrite IH. Qed.

Lemma startsWith_append (p s t : string) :
  startsWith p s = true -> startsWith p (s +:+ t) = true.
Proof.
  revert s. induction p as [|c p IH]; intros [|c' s]; simpl; try done.
  rewrite !andb_true_iff. intros [H1 H2]. split; [done|by apply IH].
Qed.

Lemma startsWith_ci_append (p s t : string) :
  startsWith_ci p s = true -> startsWith_ci p (s +:+ t) = true.
Proof.
  unfold startsWith_ci. rewrite toLowerCase_append. apply startsWith_append.
Qed.

Lemma take_drop_str (n : nat) (s : string) : take_str n s +:+ drop_str n s = s.
Proof.
  revert s. induction n as [|n IH]; intros [|c s]; simpl; try done.
  by rewrite append_cons, IH.
Qed.

Lemma startsWith_take (p s : string) :
  startsWith p s = true -> startsWith p (take_str (String.length p) s) = true.
Proof.
  revert s. induction p as [|c p IH]; intros [|c' s]; simpl; try done.
  rewrite !andb_true_iff. intros [H1 H2]. split; [done|by apply IH].
Qed.

Lemma toLowerCase_take (n : nat) (s : string) :
  toLowerCase (take_str n s) = take_str n (toLowerCase s).
Proof. revert s. induction n as [|n IH]; intros [|c s]; simpl; try done. by rewrite IH. Qed.

Lemma toLowerCase_length (s : string) :
  String.length (toLowerCase s) = String.length s.
Proof. induction s as [|c s IH]; cbn; [done|]. by rewrite IH. Qed.

Lemma startsWith_length (p s : string) :
  startsWith p s = true -> (String.length p <= String.length s)%nat.
Proof.
  revert s. induction p as [|c p IH]; intros [|c' s]; simpl; try done; [lia|].
  rewrite andb_true_iff. intros [_ H]. apply IH in H. lia.
Qed.

Lemma take_str_all (n : nat) (s : string) :
  (String.length s <= n)%nat -> take_str n s = s.
Proof.
  revert s. induction n as [|n IH]; intros [|c s]; simpl; try done; [lia|].
  intros H. rewrite IH; [done|lia].
Qed.

Lemma take_str_length (n : nat) (s : string) :
  String.length (take_str n s) = Nat.min n (String.length s).
Proof. revert s. induction n as [|n IH]; intros [|c s]; simpl; try done. by rewrite IH. Qed.

Lemma upToLastClose_short (s : string) :
  (String.length s < 6)%nat -> upToLastClose s = None.
Proof.
  induction s as [|c s IH]; [done|]. intros Hlen. cbn [upToLastClose].
  rewrite IH by (cbn in Hlen; lia).
  destruct (startsWith_ci "</svg>" (String c s)) eqn:Hs; [|done].
  apply startsWith_length in Hs. rewrite !toLowerCase_length in Hs.
  cbn in Hs, Hlen. lia.
Qed.

(** A closing tag is six characters long. *)
Lemma close_tag (s : string) :
  startsWith_ci "</svg>" s = true ->
  upToLastClose (take_str 6 s) = Some (take_str 6 s).
Proof.
  intros Hs. assert (Hlen := startsWith_length _ _ Hs).
  rewrite !toLowerCase_length in Hlen. cbn in Hlen.
  destruct s as [|c s]; [cbn in Hlen; lia|].
  change (take_str 6 (String c s)) with (String c (take_str 5 s)).
  cbn [upToLastClose].
  rewrite upToLastClose_short by (rewrite take_str_length; lia).
  change (String c (take_str 5 s)) with (take_str 6 (String c s)).
  assert (Hci : startsWith_ci "</svg>" (take_str 6 (String c s)) = true).
  { unfold startsWith_ci in *. rewrite toLowerCase_take.
    by apply (startsWith_take "</svg>"). }
  rewrite Hci. f_equal. apply take_str_all. rewrite take_str_length. lia.
Qed.

Lemma upToLastClose_spec (s r : string) :
  upToLastClose s = Some r ->
  upToLastClose r = Some r /\
  exists body post, r = body +:+ take_str 6 (drop_str (String.length body) s) /\
    s = r +:+ post /\
    startsWith_ci "</svg>" (drop_str (String.length body) s) = true.
Proof.
  revert r. induction s as [|c s IH]; intros r H; [done|].
  cbn [upToLastClose] in H.
  destruct (upToLastClose s) as [r'|] eqn:Hs.
  - assert (r = String c r') as -> by congruence.
    destruct (IH r' eq_refl) as (Hidem & body & post & Hr & Hpost & Hclose).
    split; [cbn [upToLastClose]; by rewrite Hidem|].
    exists (String c body), post. cbn [String.length drop_str].
    repeat split; [by rewrite append_cons, <- Hr|by rewrite append_cons, <- Hpost|done].
  - destruct (startsWith_ci "</svg>" (String c s)) eqn:Hc; [|done].
    assert (r = take_str 6 (String c s)) as -> by congruence.
    split; [by apply close_tag|].
    exists EmptyString, (drop_str 6 (String c s)).
    split; [reflexivity|]. split; [|exact Hc].
    symmetry. apply take_drop_str.
Qed.

Lemma svgMatch_none_without_open (text : string) :
  (forall pre rest, text = pre +:+ rest -> startsWith_ci "<svg" rest = false) ->
  svgMatch text = None.
Proof.
  induction text as [|c text IH]; intros Hno; [done|].
  cbn [svgMatch]. rewrite (Hno EmptyString (String c text) eq_refl).
  apply IH. intros pre rest ->. by apply (Hno (String c pre) rest).
Qed.

(** X6.  What is cut out of the backend's answer is a piece of that answer
    that begins with an opening [<svg] tag and ends with a closing [</svg>]
    tag (in any case of letters), nothing before it opens a vector
    document, and cutting it again gives the same text. *)
Theorem svgMatch_fragment (text svg : string) :
  svgMatch text = Some svg ->
  (exists pre post, text = pre +:+ svg +:+ post /\
     forall pre1 pre2, pre = pre1 +:+ pre2 -> pre2 ≠ EmptyString ->
       startsWith_ci "<svg" (pre2 +:+ svg +:+ post) = false) /\
  startsWith_ci "<svg" svg = true /\
  (exists body tag, svg = body +:+ tag /\ String.length tag = 6%nat /\
     startsWith_ci "</svg>" tag = true) /\
  svgMatch svg = Some svg.
Proof.
  revert svg. induction text as [|c text IH]; intros svg H; [done|].
  cbn [svgMatch] in H.
  destruct (startsWith_ci "<svg" (String c text)) eqn:Hopen.
  - destruct (upToLastClose (drop_str 4 (String c text))) as [r|] eqn:Hr; [|done].
    assert (svg = take_str 4 (String c text) +:+ r) as -> by congruence.
    destruct (upToLastClose_spec _ _ Hr) as (Hidem & body & post & Hbody & Hpost & Hclose).
    assert (Hlen := startsWith_length _ _ Hopen).
    rewrite !toLowerCase_length in Hlen. cbn [String.length] in Hlen.
    destruct text as [|c2 [|c3 [|c4 rest]]]; try (cbn in Hlen; lia).
    change (drop_str 4 (String c (String c2 (String c3 (String c4 rest))))) with rest in *.
    change (take_str 4 (String c (String c2 (String c3 (String c4 rest)))))
      with (String c (String c2 (String c3 (String c4 EmptyString)))) in *.
    change (String c (String c2 (String c3 (String c4 EmptyString))) +:+ r)
      with (String c (String c2 (String c3 (String c4 r)))) in *.
    assert (Hopen' : startsWith_ci "<svg"
              (String c (String c2 (String c3 (String c4 r)))) = true).
    { revert Hopen. unfold startsWith_ci. simpl. rewrite !andb_true_iff. tauto. }
    split; [|split; [|split]].
    + exists EmptyString, post. split; [rewrite Hpost; reflexivity|].
      intros pre1 pre2 Hp Hne. destruct pre1 as [|a pre1].
      * rewrite append_nil in Hp. by subst pre2.
      * rewrite append_cons in Hp. discriminate Hp.
    + exact Hopen'.
    + exists (String c (String c2 (String c3 (String c4 body)))),
             (take_str 6 (drop_str (String.length body) rest)).
      split; [|split].
      * rewrite !append_cons. by rewrite <- Hbody.
      * rewrite take_str_length. apply startsWith_length in Hclose.
        rewrite !toLowerCase_length in Hclose. simpl in Hclose. lia.
      * unfold startsWith_ci in *. rewrite toLowerCase_take.
        by apply (startsWith_take "</svg>").
    + cbn [svgMatch]. rewrite Hopen'.
      change (drop_str 4 (String c (String c2 (String c3 (String c4 r))))) with r.
      by rewrite Hidem.
  - destruct (IH svg H) as ((pre & post & Htext & Hpre) & Hs & Hend & Hidem).
    split; [|done].
    exists (String c pre), post. split; [by rewrite append_cons, <- Htext|].
    intros pre1 pre2 Hp Hne. destruct pre1 as [|c1 pre1].
    + rewrite append_nil in Hp. subst pre2.
      rewrite append_cons, <- Htext. exact Hopen.
    + rewrite append_cons in Hp. injection Hp as _ Hp. by apply (Hpre pre1 pre2).
Qed.
End SvgMatchFacts.

(** ** [handleGenerate]: what the user is shown *)

Section GenerationFacts.
Import Js Retry Service.

Lemma withRetry_settles {T : Type} (fn : nat -> Outcome T) (maxRetries : Z)
    (k : nat) :
  retriedUntil fn maxRetries k ->
  (forall v, fn k = Resolved v ->
     withRetry fn maxRetries = (backoff k ++ [Call k], Resolved v)) /\
  (forall e, fn k = Rejected e -> isEntityError e = true ->
     withRetry fn maxRetries
     = (backoff k ++ [Call k], Rejected (Error "ENTITY_NOT_FOUND"))) /\
  (forall e, fn k = Rejected e -> isEntityError e = false ->
     (isQuotaError e = true -> Z.of_nat k = maxRetries) ->
     withRetry fn maxRetries = (backoff k ++ [Call k], Rejected e)).
Proof.
  intros [Hle Hq]. rewrite (withRetry_prefix fn maxRetries k Hq Hle).
  split; [|split].
  - intros v Hv. cbn [attempts]. by rewrite Hv.
  - intros e He Hent. cbn [attempts]. by rewrite He, Hent.
  - intros e He Hent Hlast. cbn [attempts]. rewrite He, Hent.
    destruct (isQuotaError e); [|done]. cbn [andb].
    rewrite bool_decide_eq_false_2; [done|]. specialize (Hlast eq_refl). lia.
Qed.

Lemma classify_quota (e : JsError) :
  isQuotaError e = true -> isEntityError e = false ->
  message e ≠ Some "ENTITY_NOT_FOUND" ->
  classify e = QuotaExceeded.
Proof.
  intros Hq Hent Hmsg. unfold classify, isEntityError in *.
  rewrite (bool_decide_eq_false_2 _ Hmsg), Hent. cbn [orb].
  unfold isQuotaError in Hq.
  destruct (bool_decide (status e = Some 429)); [done|].
  destruct (includes "429" (json e)); [by rewrite orb_true_r|].
  cbn [orb] in Hq. rewrite Hq. by rewrite !orb_true_r.
Qed.

Lemma classify_plain (e : JsError) (m : string) :
  isQuotaError e = false -> isEntityError e = false ->
  message e = Some m -> m ≠ "ENTITY_NOT_FOUND" -> m ≠ EmptyString ->
  includes "429" m = false ->
  classify e = SystemError m.
Proof.
  intros Hq Hent Hmsg Hne Hnonempty Hno. unfold classify, isEntityError in *.
  rewrite Hmsg, Hent, Hno.
  rewrite bool_decide_eq_false_2 by congruence. cbn [orb].
  unfold isQuotaError in Hq.
  apply orb_false_iff in Hq as [Hq H3]. apply orb_false_iff in Hq as [H1 H2].
  rewrite H1, H2, H3. cbn [orb]. by rewrite or_else_Some.
Qed.

(** The run when the brief stage ends in the error [err]. *)
Lemma handleGenerate_brief_rejected joinMessage
    (briefCalls : nat -> Outcome DesignBrief)
    (svgCalls : DesignBrief -> nat -> Outcome string) tb err :
  withRetry briefCalls 2 = (tb, Rejected err) ->
  handleGenerate None joinMessage briefCalls svgCalls
  = mkRun tb [] (Failed (classify err)).
Proof. intros H. unfold handleGenerate. by rewrite H. Qed.

(** X4.  When the brief cannot be had, the vector is never asked for, and
    the user is shown the class that the error has by its serialisation.  A
    client that cannot be built ends the run before any call.  A failure
    that serialises with the entity text, at whatever attempt it comes,
    gives the invalid-session state; a quota error that is still there at
    the third attempt gives the quota state; any other error stops the
    attempts at once and its message is shown.  So an error object that
    reports the missing entity in its message only, which is not
    serialised, is shown as a system error, not as an invalid session. *)
Theorem handleGenerate_brief_failure (joinMessage : string)
    (briefCalls : nat -> Outcome DesignBrief)
    (svgCalls : DesignBrief -> nat -> Outcome string)
    (k : nat) (e : JsError) :
  retriedUntil briefCalls 2 k ->
  briefCalls k = Rejected e ->
  let run := handleGenerate None joinMessage briefCalls svgCalls in
  let stopped := fun f => mkRun (backoff k ++ [Call k]) [] (Failed f) in
  (forall err,
     handleGenerate (Some err) joinMessage briefCalls svgCalls
     = mkRun [] [] (Failed (classify err))) /\
  (isEntityError e = true -> run = stopped SessionInvalid) /\
  (isEntityError e = false -> isQuotaError e = true -> k = 2%nat ->
     message e ≠ Some "ENTITY_NOT_FOUND" ->
     run = stopped QuotaExceeded) /\
  (isEntityError e = false -> isQuotaError e = false ->
     forall m, message e = Some m -> m ≠ "ENTITY_NOT_FOUND" -> m ≠ EmptyString ->
       includes "429" m = false ->
       run = stopped (SystemError m)) /\
  (isEntityError e = false -> isQuotaError e = false ->
     message e = Some "Requested entity was not found." ->
     run = stopped (SystemError "Requested entity was not found.")).
Proof.
  intros Hret He run stopped.
  destruct (withRetry_settles briefCalls 2 k Hret) as (_ & Hentity & Hother).
  assert (Hplain : isEntityError e = false -> isQuotaError e = false ->
            forall m, message e = Some m -> m ≠ "ENTITY_NOT_FOUND" ->
              m ≠ EmptyString -> includes "429" m = false ->
              run = stopped (SystemError m)).
  { intros Hent Hq m Hm Hne Hnonempty Hno. unfold run.
    rewrite (handleGenerate_brief_rejected _ _ _ _ _
               (Hother e He Hent ltac:(congruence))).
    by rewrite (classify_plain e m). }
  split; [done|]. split; [|split; [|split; [done|]]].
  - intros Hent. unfold run.
    by rewrite (handleGenerate_brief_rejected _ _ _ _ _ (Hentity e He Hent)).
  - intros Hent Hq -> Hmsg. unfold run.
    rewrite (handleGenerate_brief_rejected _ _ _ _ _
               (Hother e He Hent ltac:(done))).
    by rewrite classify_quota.
  - intros Hent Hq Hm. by apply Hplain.
Qed.

Lemma retriedUntil_extractSvg (calls : nat -> Outcome string) (k : nat) :
  retriedUntil calls 2 k ->
  retriedUntil (fun i => extractSvg (calls i)) 2 k.
Proof.
  intros [Hle Hq]. split; [done|]. intros j Hj.
  destruct (Hq j Hj) as (e & He & Hr). exists e. by rewrite He.
Qed.

(** X5.  Once the brief is there, [generateSVGDesign] first writes its
    prompt.  For a brief without a list of colours that throws: no vector
    call is made and the user is shown the error of the engine.  With the
    colours there, the vector stage decides: an answer that holds a vector
    document gives the brief and that document; an answer without one
    fails with [SVG_PARSE_FAILED], which is shown as it is and not retried;
    a failure that serialises with the entity text gives the
    invalid-session state. *)
Theorem handleGenerate_vector_stage (joinMessage : string)
    (briefCalls : nat -> Outcome DesignBrief)
    (svgCalls : DesignBrief -> nat -> Outcome string)
    (kb : nat) (db : DesignBrief) :
  retriedUntil briefCalls 2 kb ->
  briefCalls kb = Resolved db ->
  let run := handleGenerate None joinMessage briefCalls svgCalls in
  let tb := backoff kb ++ [Call kb] in
  (primaryColors db = None ->
     run = mkRun tb [] (Failed (classify (Error joinMessage))) /\
     (joinMessage ≠ EmptyString -> joinMessage ≠ "ENTITY_NOT_FOUND" ->
      includes "429" joinMessage = false ->
      run = mkRun tb [] (Failed (SystemError joinMessage)))) /\
  (forall ks, is_Some (primaryColors db) ->
     retriedUntil (svgCalls db) 2 ks ->
     let tv := backoff ks ++ [Call ks] in
     (forall text svg,
        svgCalls db ks = Resolved text -> svgMatch text = Some svg ->
        run = mkRun tb tv (Generated db svg)) /\
     (forall text,
        svgCalls db ks = Resolved text -> svgMatch text = None ->
        run = mkRun tb tv (Failed (SystemError "SVG_PARSE_FAILED"))) /\
     (forall e,
        svgCalls db ks = Rejected e -> isEntityError e = true ->
        run = mkRun tb tv (Failed SessionInvalid))).
Proof.
  intros Hb Hdb run tb.
  destruct (withRetry_settles briefCalls 2 kb Hb) as (Hres & _ & _).
  specialize (Hres db Hdb).
  split.
  - intros Hnone.
    assert (Hrun : run = mkRun tb [] (Failed (classify (Error joinMessage)))).
    { unfold run, handleGenerate, promptError. by rewrite Hres, Hnone. }
    split; [done|]. intros Hne Hnot Hno. rewrite Hrun.
    by rewrite (classify_plain (Error joinMessage) joinMessage).
  - intros ks [cs Hcs] Hs tv.
    destruct (withRetry_settles (fun i => extractSvg (svgCalls db i)) 2 ks
                (retriedUntil_extractSvg _ _ Hs)) as (Hsres & Hsent & Hsother).
    assert (Hrun : run =
              match (withRetry (fun i => extractSvg (svgCalls db i)) 2) with
              | (tv, Rejected err) => mkRun tb tv (Failed (classify err))
              | (tv, Resolved svg) => mkRun tb tv (Generated db svg)
              end).
    { unfold run, handleGenerate, promptError. rewrite Hres, Hcs.
      by destruct (withRetry _ 2) as [? []]. }
    split; [|split].
    + intros text svg Ht Hm. rewrite Hrun, (Hsres svg); [done|].
      by rewrite Ht; cbn; rewrite Hm.
    + intros text Ht Hm.
      rewrite Hrun, (Hsother (Error "SVG_PARSE_FAILED")); [done| |done|done].
      by rewrite Ht; cbn; rewrite Hm.
    + intros e He Hent. rewrite Hrun, (Hsent e); [done| |done]. by rewrite He.
Qed.
End GenerationFacts.

(** ** Clicks on the canvas *)

Section ClickFacts.
Import Js Dom Editor Inspector.

Lemma path_fits (d : Document) (path : list ref) :
  NoDup path -> (forall x, x ∈ path -> is_Some (d !! x)) ->
  (length path <= size d)%nat.
Proof.
  intros Hnd Hin.
  rewrite <- (size_dom (D := gset positive) d).
  unfold size at 1, set_size. cbn.
  apply submseteq_length, NoDup_submseteq; [done|].
  intros x Hx. apply elem_of_elements, elem_of_dom. by apply Hin.
Qed.

(** Climbing from the first node of [below ++ [top]]: past the nodes of
    [below], whose tags are not in [tags], up to [top]. *)
Lemma closest_climbs (tags : list string) (d : Document) (below : list ref) :
  forall (fuel : nat) (top : ref),
    linked d (below ++ [top]) ->
    (forall x, x ∈ below -> is_Some (d !! x) /\ tagOf d x ∉ tags) ->
    (length below < fuel)%nat ->
    closest fuel tags d (default top (head below)) =
    match d !! top with
    | None => None
    | Some e =>
        if bool_decide (tagName e ∈ tags) then Some top
        else match parentNode e with
             | Some p => closest (fuel - S (length below)) tags d p
             | None => None
             end
    end.
Proof.
  induction below as [|a below IH]; intros fuel top Hl Hb Hf.
  - destruct fuel as [|fuel]; [cbn in Hf; lia|].
    change (default top (head [])) with top. cbn [closest length].
    by replace (S fuel - 1)%nat with fuel by lia.
  - destruct fuel as [|fuel]; [cbn in Hf; lia|].
    change (default top (head (a :: below))) with a. cbn [closest].
    destruct (Hb a ltac:(by left)) as [[e He] Htag].
    unfold tagOf in Htag. rewrite He in Htag |- *.
    rewrite (bool_decide_eq_false_2 _ Htag).
    assert (Hpar : parentNode e = Some (default top (head below)) /\
                   linked d (below ++ [top])).
    { destruct below as [|b below]; cbn in Hl |- *; unfold parentOf in Hl;
        rewrite He in Hl; tauto. }
    destruct Hpar as [-> Hl'].
    rewrite (IH fuel top Hl'); [done| |cbn in Hf; lia].
    intros x Hx. apply Hb. by right.
Qed.

(** X7.  A click on a node that cannot be selected itself selects its
    nearest ancestor that can: with the target inside the nodes [below]
    (none of a selectable kind) under the selectable node [top], a plain
    click makes [[top]] the selection. *)
Theorem handleCanvasMouseDown_climbs (st : State) (below : list ref)
    (top : ref) (e : Element) :
  linked (document st) (below ++ [top]) ->
  NoDup (below ++ [top]) ->
  (forall x, x ∈ below ->
     is_Some (document st !! x) /\ tagOf (document st) x ∉ eligible) ->
  document st !! top = Some e ->
  tagName e ∈ eligible ->
  selectedElements
    (handleCanvasMouseDown (default top (head below)) false st) = [top].
Proof.
  intros Hl Hnd Hb He Htag.
  assert (Hlen : (length (below ++ [top]) <= size (document st))%nat).
  { apply path_fits; [done|]. intros x Hx. apply elem_of_app in Hx as [Hx|Hx].
    - by apply Hb.
    - apply list_elem_of_singleton in Hx. subst x. by eexists. }
  rewrite length_app in Hlen. cbn in Hlen.
  unfold handleCanvasMouseDown.
  rewrite (closest_climbs eligible (document st) below _ top Hl Hb) by lia.
  rewrite He, (bool_decide_eq_true_2 _ Htag).
  rewrite bool_decide_eq_true_2; [done|].
  unfold tagOf. rewrite He. intros Heq. apply svg_not_eligible. by rewrite <- Heq.
Qed.

(** X8.  A click that reaches the top of the tree without meeting a
    selectable node (the root of the drawing, the canvas around it) empties
    the selection, with or without the shift modifier. *)
Theorem handleCanvasMouseDown_clears (st : State) (below : list ref)
    (top : ref) (shiftKey : bool) :
  linked (document st) (below ++ [top]) ->
  NoDup (below ++ [top]) ->
  (forall x, x ∈ below ++ [top] ->
     is_Some (document st !! x) /\ tagOf (document st) x ∉ eligible) ->
  parentOf (document st) top = None ->
  selectedElements
    (handleCanvasMouseDown (default top (head below)) shiftKey st) = [].
Proof.
  intros Hl Hnd Hb Hroot.
  assert (Hlen : (length (below ++ [top]) <= size (document st))%nat).
  { apply path_fits; [done|]. intros x Hx. by apply Hb. }
  rewrite length_app in Hlen. cbn in Hlen.
  unfold handleCanvasMouseDown.
  rewrite (closest_climbs eligible (document st) below _ top Hl) by
    (try lia; intros x Hx; apply Hb, elem_of_app; by left).
  destruct (Hb top) as [[e He] Htag].
  { apply elem_of_app. right. apply list_elem_of_here. }
  unfold tagOf in Htag. unfold parentOf in Hroot. rewrite He in Htag, Hroot |- *.
  by rewrite (bool_decide_eq_false_2 _ Htag), Hroot.
Qed.

Lemma handleCanvasMouseDown_document (st : State) (target : ref)
    (shiftKey : bool) :
  document (handleCanvasMouseDown target shiftKey st) = document st.
Proof.
  unfold handleCanvasMouseDown.
  destruct (closest _ _ _ _) as [svgEl|]; [|done]. by case_bool_decide.
Qed.

(** X9.  Clicks keep the selection free of repetitions, whatever is
    clicked and with or without the modifier, and touch neither the
    document nor the gradient panel. *)
Theorem handleCanvasMouseDown_keeps_NoDup (st : State) (target : ref)
    (shiftKey : bool) :
  NoDup (selectedElements st) ->
  NoDup (selectedElements (handleCanvasMouseDown target shiftKey st)) /\
  document (handleCanvasMouseDown target shiftKey st) = document st /\
  rootSvg (handleCanvasMouseDown target shiftKey st) = rootSvg st /\
  gradientProps (handleCanvasMouseDown target shiftKey st) = gradientProps st.
Proof.
  intros Hnd. unfold handleCanvasMouseDown.
  destruct (closest _ _ _ _) as [svgEl|]; [|by repeat split; try apply NoDup_nil].
  case_bool_decide; [|by repeat split; try apply NoDup_nil].
  cbn [set_selection selectedElements document rootSvg gradientProps].
  split; [|done]. destruct shiftKey; [|apply NoDup_singleton].
  case_bool_decide as Hin.
  - by apply NoDup_filter.
  - apply NoDup_app. split; [done|]. split; [|apply NoDup_singleton].
    intros x Hx Hs. apply list_elem_of_singleton in Hs. by subst x.
Qed.

(** X10.  Shift-clicking the same node twice: a node that was not selected
    is added and then taken out again, which gives the selection back as it
    was; a selected node is taken out and then added at the end, which gives
    the same elements with that node last. *)
Theorem handleCanvasMouseDown_twice (st : State) (target node : ref) :
  closest (S (size (document st))) eligible (document st) target = Some node ->
  NoDup (selectedElements st) ->
  let twice :=
    handleCanvasMouseDown target true (handleCanvasMouseDown target true st) in
  (node ∉ selectedElements st ->
     selectedElements twice = selectedElements st) /\
  (node ∈ selectedElements st ->
     selectedElements twice
     = filter (fun item => item ≠ node) (selectedElements st) ++ [node]).
Proof.
  intros Hc Hnd twice.
  assert (Htag : tagOf (document st) node ≠ "svg").
  { intros Heq. apply svg_not_eligible. rewrite <- Heq. by eapply closest_tag. }
  assert (Hstep : forall st', document st' = document st ->
    selectedElements (handleCanvasMouseDown target true st')
    = if bool_decide (node ∈ selectedElements st')
      then filter (fun item => item ≠ node) (selectedElements st')
      else selectedElements st' ++ [node]).
  { intros st' Hd. unfold handleCanvasMouseDown. rewrite Hd, Hc.
    by rewrite (bool_decide_eq_true_2 _ Htag). }
  assert (Hdoc : document (handleCanvasMouseDown target true st) = document st)
    by apply handleCanvasMouseDown_document.
  unfold twice. rewrite (Hstep _ Hdoc), (Hstep st eq_refl).
  split; intros Hin.
  - rewrite (bool_decide_eq_false_2 _ Hin).
    rewrite bool_decide_eq_true_2
      by (apply elem_of_app; right; apply list_elem_of_here).
    rewrite filter_app, filter_cons_False, filter_nil, app_nil_r by (by intros H).
    by apply filter_ne_notin.
  - rewrite (bool_decide_eq_true_2 _ Hin).
    rewrite bool_decide_eq_false_2; [done|].
    rewrite list_elem_of_filter. tauto.
Qed.
End ClickFacts.

(** ** Gradients: ids, records and the way back *)

Section GradientRecordFacts.
Import Js Dom Editor.
Implicit Types (d : Document) (r x c p el defs root : ref) (k v : string).
Implicit Types (g : GradientProps) (rnd : nat -> string) (sel : list ref).

Lemma fill_not_step_written e x : x ≠ e -> ~ step_writes e x "fill".
Proof.
  intros Hne [[? _]|H]; [done|]. revert H. apply not_geometry_key. tauto.
Qed.

Lemma record_not_step_written e x : x ≠ e -> ~ step_writes e x "data-orig-fill".
Proof.
  intros Hne [[? _]|H]; [done|]. revert H. apply not_geometry_key. tauto.
Qed.

Lemma getAttribute_is_Some d x k w : getAttribute d x k = Some w -> is_Some (d !! x).
Proof. unfold getAttribute. destruct (d !! x); [by eexists|done]. Qed.

Lemma gradientFold_fill_withId rnd g defs sel :
  enabled g = true ->
  forall d n el id,
    el ∈ sel -> getAttribute d el "id" = Some id -> id ≠ EmptyString ->
    getAttribute (foldl (gradientStep rnd g defs) (d, n) sel).1 el "fill"
    = Some (url ("grad-" +:+ id)).
Proof.
  intros He. induction sel as [|e sel IH] using rev_ind; intros d n el id Hin Hid Hne.
  { by apply elem_of_nil in Hin. }
  rewrite gradientFold_app. cbn [foldl].
  pose proof (frame_gradientFold rnd g defs sel d n) as Hf.
  assert (Hx : is_Some (d !! el)) by (by eapply getAttribute_is_Some).
  destruct (decide (el = e)) as [->|Hnee].
  - pose proof (attr_frame _ _ _ _ _ _ Hf (id_not_written_fold sel e) Hid) as Hid'.
    destruct (foldl (gradientStep rnd g defs) (d, n) sel) as [d' n'] eqn:E.
    cbn [fst] in Hf, Hid'. rewrite gradientStep_fill; [|done|by destruct (Hf e Hx)].
    unfold gradIdFor. rewrite Hid'. cbn [truthy default from_option].
    by rewrite (bool_decide_eq_false_2 _ Hne).
  - apply elem_of_app in Hin as [Hin|Hin];
      [|by apply list_elem_of_singleton in Hin].
    specialize (IH d n el id Hin Hid Hne).
    destruct (foldl (gradientStep rnd g defs) (d, n) sel) as [d' n'] eqn:E.
    cbn [fst] in IH.
    eapply attr_frame; [apply frame_gradientStep|by apply fill_not_step_written|done].
Qed.

Lemma update_fill_withId rnd u st root el id :
  rootSvg st = Some root ->
  el ∈ selectedElements st ->
  getAttribute (document st) el "id" = Some id -> id ≠ EmptyString ->
  enabled (applyUpdate (gradientProps st) u) = true ->
  getAttribute (document (updateGradientProperty rnd u st)) el "fill"
  = Some (url ("grad-" +:+ id)).
Proof.
  intros Hroot Hin Hid Hne He.
  assert (Hsel : selectedElements st ≠ []).
  { intros Hnil. rewrite Hnil in Hin. by apply elem_of_nil in Hin. }
  rewrite (updateGradientProperty_document rnd u st root Hsel Hroot).
  apply gradientFold_fill_withId; try done. by rewrite getAttribute_ensureDefs.
Qed.

(** X11.  When the ids that go into the selectors are plain names, an
    element with an explicit id [id] is bound to the paint server [grad-id],
    whatever the random source draws; a second enabled call on the result
    binds it to the same id again. *)
Theorem gradient_id_stable_for_explicit_id
    (rnd1 rnd2 : nat -> string) (u u' : GradientUpdate) (st : State)
    (root el : ref) (id : string) :
  Scope.plainIds rnd1 (document st) (selectedElements st) = true ->
  Scope.plainIds rnd2 (document st) (selectedElements st) = true ->
  rootSvg st = Some root ->
  el ∈ selectedElements st ->
  getAttribute (document st) el "id" = Some id -> id ≠ EmptyString ->
  enabled (applyUpdate (gradientProps st) u) = true ->
  enabled (applyUpdate (applyUpdate (gradientProps st) u) u') = true ->
  getAttribute (document (updateGradientProperty rnd1 u st)) el "fill"
    = Some (url ("grad-" +:+ id)) /\
  getAttribute (document (updateGradientProperty rnd2 u st)) el "fill"
    = Some (url ("grad-" +:+ id)) /\
  getAttribute
    (document (updateGradientProperty rnd2 u' (updateGradientProperty rnd1 u st)))
    el "fill" = Some (url ("grad-" +:+ id)).
Proof.
  intros _ _ Hroot Hin Hid Hne He He'.
  assert (Hsel : selectedElements st ≠ []).
  { intros Hnil. rewrite Hnil in Hin. by apply elem_of_nil in Hin. }
  split; [by eapply update_fill_withId|]. split; [by eapply update_fill_withId|].
  destruct (updateGradientProperty_state rnd1 u st) as (Hr1 & Hs1 & Hg1).
  pose proof (frame_updateGradientProperty rnd1 u st root Hsel Hroot) as Hf.
  apply (update_fill_withId rnd2 u' _ root el id).
  - by rewrite Hr1.
  - by rewrite Hs1.
  - eapply attr_frame; [exact Hf|apply id_not_written_fold|done].
  - done.
  - by rewrite Hg1.
Qed.

(** The record that an enabled pass leaves on its element. *)
Lemma gradientStep_record rnd g defs d n el :
  enabled g = true -> is_Some (d !! el) ->
  getAttribute (gradientStep rnd g defs (d, n) el).1 el "data-orig-fill"
  = Some (restoredFill d el).
Proof.
  intros He Hx. rewrite gradientStep_enabled by done. cbn zeta. cbn [fst].
  set (d1 := if truthy (getAttribute d el "data-orig-fill") then d
             else setAttribute el "data-orig-fill"
                    (or_else (getAttribute d el "fill") "#cccccc") d).
  assert (H1 : getAttribute d1 el "data-orig-fill" = Some (restoredFill d el)).
  { unfold d1, restoredFill.
    destruct (getAttribute d el "data-orig-fill") as [o|] eqn:Ho; cbn [truthy or_else].
    - case_bool_decide; cbn [negb]; [by apply getAttribute_setAttribute_eq|done].
    - by apply getAttribute_setAttribute_eq. }
  set (f := findOrCreateGradEl _ _ _ d1).
  apply attr_setAttribute; [|by intros].
  eapply (attr_frame no_writes); [|by intros []|].
  { apply frame_foldl. intros. apply frame_appendStop. }
  rewrite getAttribute_labels, labels_clearChildren, <- getAttribute_labels.
  eapply (attr_frame (fun _ k => k ∈ geometryKeys)); [apply frame_setGeometry| |].
  { apply not_geometry_key. tauto. }
  eapply (attr_frame no_writes); [apply frame_findOrCreateGradEl|by intros []|done].
Qed.

Lemma restoredFill_recorded d d' el :
  getAttribute d' el "data-orig-fill" = Some (restoredFill d el) ->
  restoredFill d' el = restoredFill d el.
Proof.
  intros H. unfold restoredFill at 1. rewrite H.
  apply or_else_Some, restoredFill_nonempty.
Qed.

Lemma gradientFold_record rnd g defs sel :
  enabled g = true ->
  forall d n el,
    el ∈ sel -> is_Some (d !! el) ->
    getAttribute (foldl (gradientStep rnd g defs) (d, n) sel).1 el "data-orig-fill"
    = Some (restoredFill d el).
Proof.
  intros He. induction sel as [|e sel IH] using rev_ind; intros d n el Hin Hx.
  { by apply elem_of_nil in Hin. }
  rewrite gradientFold_app. cbn [foldl].
  pose proof (frame_gradientFold rnd g defs sel d n) as Hf.
  destruct (decide (el = e)) as [->|Hne].
  - assert (Hsame : restoredFill (foldl (gradientStep rnd g defs) (d, n) sel).1 e
                    = restoredFill d e).
    { destruct (decide (e ∈ sel)) as [Hes|Hes].
      - apply restoredFill_recorded. by apply IH.
      - destruct (Hf e Hx) as (_ & _ & Ha). unfold restoredFill.
        rewrite !Ha; [done| |].
        + intros [[? _]|H]; [done|]. revert H. apply not_geometry_key. tauto.
        + intros [[? _]|H]; [done|]. revert H. apply not_geometry_key. tauto. }
    destruct (foldl (gradientStep rnd g defs) (d, n) sel) as [d' n'] eqn:E.
    cbn [fst] in Hf, Hsame. rewrite gradientStep_record; [by rewrite Hsame|done|].
    by destruct (Hf e Hx).
  - apply elem_of_app in Hin as [Hin|Hin];
      [|by apply list_elem_of_singleton in Hin].
    specialize (IH d n el Hin Hx).
    destruct (foldl (gradientStep rnd g defs) (d, n) sel) as [d' n'] eqn:E.
    cbn [fst] in IH.
    eapply attr_frame;
      [apply frame_gradientStep|by apply record_not_step_written|done].
Qed.

Lemma update_record rnd u st root el :
  rootSvg st = Some root ->
  el ∈ selectedElements st -> is_Some (document st !! el) ->
  enabled (applyUpdate (gradientProps st) u) = true ->
  getAttribute (document (updateGradientProperty rnd u st)) el "data-orig-fill"
  = Some (restoredFill (document st) el).
Proof.
  intros Hroot Hin Hx He.
  assert (Hsel : selectedElements st ≠ []).
  { intros Hnil. rewrite Hnil in Hin. by apply elem_of_nil in Hin. }
  rewrite (updateGradientProperty_document rnd u st root Hsel Hroot).
  rewrite gradientFold_record; [|done|done|].
  - unfold restoredFill. by rewrite !getAttribute_ensureDefs.
  - by destruct (frame_ensureDefs no_writes root (document st) el Hx).
Qed.

(** X12.  When the ids that go into the selectors are plain names, so
    that the loop reaches every selected element, an enabled update records
    on each of them the fill to go back to: a record that is already there
    is kept as it is (it is never overwritten while gradients stay enabled);
    without one, the element's present fill is recorded, or [#cccccc] when
    it has none. *)
Theorem enabled_update_records_original rnd u st root el :
  Scope.plainIds rnd (document st) (selectedElements st) = true ->
  rootSvg st = Some root ->
  el ∈ selectedElements st -> is_Some (document st !! el) ->
  enabled (applyUpdate (gradientProps st) u) = true ->
  let d := document st in
  let d' := document (updateGradientProperty rnd u st) in
  (forall o, getAttribute d el "data-orig-fill" = Some o -> o ≠ EmptyString ->
     getAttribute d' el "data-orig-fill" = Some o) /\
  (truthy (getAttribute d el "data-orig-fill") = false ->
     forall f, getAttribute d el "fill" = Some f -> f ≠ EmptyString ->
       getAttribute d' el "data-orig-fill" = Some f) /\
  (truthy (getAttribute d el "data-orig-fill") = false ->
     truthy (getAttribute d el "fill") = false ->
     getAttribute d' el "data-orig-fill" = Some "#cccccc").
Proof.
  intros _ Hroot Hin Hx He d d'.
  assert (Hrec := update_record rnd u st root el Hroot Hin Hx He).
  fold d d' in Hrec. rewrite Hrec. unfold restoredFill.
  assert (Hfalsy : forall o dflt, truthy o = false -> or_else o dflt = dflt).
  { intros [s|] dflt; cbn; [|done]. intros Ht.
    apply negb_false_iff in Ht. by rewrite Ht. }
  split; [|split].
  - intros o -> Ho. by rewrite or_else_Some.
  - intros Ht f -> Hf. by rewrite (Hfalsy _ _ Ht), or_else_Some.
  - intros Ht1 Ht2. by rewrite (Hfalsy _ _ Ht1), (Hfalsy _ _ Ht2).
Qed.

(** X13.  Switching a gradient on and then off gives a selected element the
    fill it would have been given by switching it off at once: its solid
    fill comes back exactly, for an element that had one and no record. *)
Theorem gradient_on_then_off_restores_fill rnd1 rnd2 u u' st root el :
  rootSvg st = Some root ->
  el ∈ selectedElements st -> is_Some (document st !! el) ->
  enabled (applyUpdate (gradientProps st) u) = true ->
  enabled (applyUpdate (applyUpdate (gradientProps st) u) u') = false ->
  let d'' :=
    document (updateGradientProperty rnd2 u' (updateGradientProperty rnd1 u st)) in
  getAttribute d'' el "fill" = Some (restoredFill (document st) el) /\
  (truthy (getAttribute (document st) el "data-orig-fill") = false ->
     forall f, getAttribute (document st) el "fill" = Some f -> f ≠ EmptyString ->
       getAttribute d'' el "fill" = Some f).
Proof.
  intros Hroot Hin Hx He Hoff d''.
  assert (Hsel : selectedElements st ≠ []).
  { intros Hnil. rewrite Hnil in Hin. by apply elem_of_nil in Hin. }
  assert (Hrec := update_record rnd1 u st root el Hroot Hin Hx He).
  destruct (updateGradientProperty_state rnd1 u st) as (Hr1 & Hs1 & Hg1).
  pose proof (frame_updateGradientProperty rnd1 u st root Hsel Hroot) as Hf.
  set (st1 := updateGradientProperty rnd1 u st) in *.
  assert (Hfill : getAttribute d'' el "fill" = Some (restoredFill (document st) el)).
  { unfold d''.
    rewrite (updateGradientProperty_document rnd2 u' st1 root)
      by (by rewrite ?Hs1, ?Hr1).
    rewrite disabledFold_fill.
    - f_equal. unfold restoredFill at 1. rewrite !getAttribute_ensureDefs.
      fold (restoredFill (document st1) el). by apply restoredFill_recorded.
    - by rewrite Hg1.
    - by rewrite Hs1.
    - apply (frame_ensureDefs no_writes root (document st1) el).
      by destruct (Hf el Hx). }
  split; [done|]. intros Ht f Hfv Hne. rewrite Hfill. f_equal.
  unfold restoredFill. rewrite Hfv.
  destruct (getAttribute (document st) el "data-orig-fill") as [o|]; cbn in Ht |- *.
  - apply negb_false_iff in Ht. rewrite Ht. by rewrite bool_decide_eq_false_2.
  - by rewrite bool_decide_eq_false_2.
Qed.
End GradientRecordFacts.

(** ** Radial paint servers *)

Section RadialFacts.
Import Js Dom Editor Paint.
Implicit Types (d : Document) (r x c p el defs root ge : ref) (k v : string).
Implicit Types (g : GradientProps) (rnd : nat -> string) (sel : list ref).

Lemma setGeometry_radial g ge d :
  type g = radial -> is_Some (d !! ge) -> radialGeometry (setGeometry g ge d) ge.
Proof.
  intros Ht Hx. unfold setGeometry, radialGeometry. rewrite Ht.
  repeat split.
  - do 2 (rewrite getAttribute_setAttribute_ne by (by right)).
    by apply getAttribute_setAttribute_eq.
  - rewrite getAttribute_setAttribute_ne by (by right).
    apply getAttribute_setAttribute_eq. by apply setAttribute_is_Some.
  - apply getAttribute_setAttribute_eq. by do 2 apply setAttribute_is_Some.
Qed.

Lemma setGeometry_keeps_radial g ge d x :
  type g = radial -> radialGeometry d x -> radialGeometry (setGeometry g ge d) x.
Proof.
  intros Ht (H1 & H2 & H3). unfold setGeometry, radialGeometry. rewrite Ht.
  repeat split; repeat (apply attr_setAttribute; [|by intros]); done.
Qed.

Lemma radialGeometry_setAttribute r k v d x :
  k ≠ "cx" -> k ≠ "cy" -> k ≠ "r" ->
  radialGeometry d x -> radialGeometry (setAttribute r k v d) x.
Proof.
  intros ? ? ? (H1 & H2 & H3). unfold radialGeometry.
  repeat split; (apply attr_setAttribute; [done|by intros]).
Qed.

Lemma radialGeometry_frame d d' x :
  frame no_writes d d' -> radialGeometry d x -> radialGeometry d' x.
Proof.
  intros Hf (H1 & H2 & H3). unfold radialGeometry.
  repeat split; (eapply attr_frame; [exact Hf|by intros []|done]).
Qed.

Lemma radialServer_tail gid g ge el d x v :
  radialServer gid d x ->
  radialServer gid
    (setAttribute el "fill" v
       (foldl (appendStop ge) (clearChildren ge d) (stops g))) x.
Proof.
  intros (Hid & Htag & Hgeo).
  assert (Hx : is_Some (d !! x)) by (by eapply getAttribute_is_Some).
  assert (Hf : frame no_writes d
                 (foldl (appendStop ge) (clearChildren ge d) (stops g))).
  { eapply frame_trans; [apply frame_labels, labels_clearChildren|].
    apply frame_foldl. intros. apply frame_appendStop. }
  destruct (Hf x Hx) as (_ & Ht & _).
  split; [|split].
  - apply attr_setAttribute; [|by intros].
    eapply attr_frame; [exact Hf|by intros []|done].
  - by rewrite tagOf_setAttribute, Ht.
  - apply radialGeometry_setAttribute; [done..|].
    by apply radialGeometry_frame with d.
Qed.

Lemma gradientStep_server_radial rnd g defs d n el :
  enabled g = true -> type g = radial -> is_Some (d !! el) ->
  exists ge gid,
    getAttribute (gradientStep rnd g defs (d, n) el).1 el "fill" = Some (url gid) /\
    radialServer gid (gradientStep rnd g defs (d, n) el).1 ge.
Proof.
  intros He Ht Hx.
  pose proof (gradientStep_fill rnd g defs d n el He Hx) as Hfill.
  exists (findOrCreateGradEl defs (gradIdFor rnd d n el) (type g)
            (if truthy (getAttribute d el "data-orig-fill") then d
             else setAttribute el "data-orig-fill"
                    (or_else (getAttribute d el "fill") "#cccccc") d)).1,
         (gradIdFor rnd d n el).
  split; [done|].
  rewrite gradientStep_enabled by done. cbn zeta. cbn [fst].
  apply radialServer_tail.
  set (f := findOrCreateGradEl _ _ _ _).
  destruct (findOrCreateGradEl_id defs (gradIdFor rnd d n el) (type g)
    (if truthy (getAttribute d el "data-orig-fill") then d
     else setAttribute el "data-orig-fill"
            (or_else (getAttribute d el "fill") "#cccccc") d)) as [Hs Hi].
  fold f in Hs, Hi.
  destruct (frame_setGeometry g f.1 f.2 f.1 Hs) as (_ & Htag & Hk).
  split; [|split].
  - rewrite Hk; [done|]. apply not_geometry_key. tauto.
  - rewrite Htag. unfold f. rewrite findOrCreateGradEl_tag. by rewrite Ht.
  - by apply setGeometry_radial.
Qed.

Lemma gradientStep_keeps_radial rnd g defs d n el gid x :
  type g = radial ->
  radialServer gid d x ->
  radialServer gid (gradientStep rnd g defs (d, n) el).1 x.
Proof.
  intros Ht Hsrv. destruct (enabled g) eqn:He.
  - rewrite gradientStep_enabled by done. cbn zeta. cbn [fst].
    apply radialServer_tail.
    set (d1 := if truthy (getAttribute d el "data-orig-fill") then d
               else setAttribute el "data-orig-fill"
                      (or_else (getAttribute d el "fill") "#cccccc") d).
    assert (H1 : radialServer gid d1 x).
    { unfold d1. destruct (truthy _); [done|].
      destruct Hsrv as (Hid & Htag & Hgeo). split; [|split].
      - apply attr_setAttribute; [done|by intros].
      - by rewrite tagOf_setAttribute.
      - by apply radialGeometry_setAttribute. }
    set (f := findOrCreateGradEl _ _ _ d1).
    pose proof (frame_findOrCreateGradEl no_writes defs
                  (gradIdFor rnd d n el) (type g) d1) as Hf.
    fold f in Hf.
    destruct H1 as (Hid & Htag & Hgeo).
    assert (Hx : is_Some (d1 !! x)) by (by eapply getAttribute_is_Some).
    destruct (Hf x Hx) as (Hx2 & Ht2 & _).
    destruct (frame_setGeometry g f.1 f.2 x Hx2) as (_ & Ht3 & Hk3).
    split; [|split].
    + rewrite Hk3 by (apply not_geometry_key; tauto).
      eapply attr_frame; [exact Hf|by intros []|done].
    + by rewrite Ht3, Ht2.
    + apply setGeometry_keeps_radial; [done|].
      by apply radialGeometry_frame with d1.
  - rewrite gradientStep_disabled by done. cbn [fst].
    destruct Hsrv as (Hid & Htag & Hgeo). split; [|split].
    + apply attr_setAttribute; [done|by intros].
    + by rewrite tagOf_setAttribute.
    + by apply radialGeometry_setAttribute.
Qed.

Lemma gradientFold_server_radial rnd g defs sel :
  enabled g = true -> type g = radial ->
  forall d n el,
    el ∈ sel -> is_Some (d !! el) ->
    exists ge gid,
      getAttribute (foldl (gradientStep rnd g defs) (d, n) sel).1 el "fill"
        = Some (url gid) /\
      radialServer gid (foldl (gradientStep rnd g defs) (d, n) sel).1 ge.
Proof.
  intros He Ht. induction sel as [|e sel IH] using rev_ind; intros d n el Hin Hx.
  { by apply elem_of_nil in Hin. }
  rewrite gradientFold_app. cbn [foldl].
  pose proof (frame_gradientFold rnd g defs sel d n) as Hf.
  destruct (decide (el = e)) as [->|Hne].
  - destruct (foldl (gradientStep rnd g defs) (d, n) sel) as [d' n'] eqn:E.
    cbn [fst] in Hf. apply gradientStep_server_radial; [done|done|].
    by destruct (Hf e Hx).
  - apply elem_of_app in Hin as [Hin|Hin];
      [|by apply list_elem_of_singleton in Hin].
    destruct (IH d n el Hin Hx) as (ge & gid & Hfill & Hsrv).
    destruct (foldl (gradientStep rnd g defs) (d, n) sel) as [d' n'] eqn:E.
    cbn [fst] in Hfill, Hsrv. exists ge, gid. split.
    + eapply attr_frame; [apply frame_gradientStep| |done].
      intros [[? _]|H]; [done|]. revert H. apply not_geometry_key. tauto.
    + by apply gradientStep_keeps_radial.
Qed.

(** X14.  When the ids that go into the selectors are plain names, with
    an enabled radial descriptor every selected element ends up bound, by
    its fill, to an id that an element of the radial kind carries, and that
    element is the centred circle: [cx], [cy] and [r] are all [50%],
    whatever the angle of the descriptor. *)
Theorem radial_gradient_geometry rnd u st root el :
  Scope.plainIds rnd (document st) (selectedElements st) = true ->
  rootSvg st = Some root ->
  el ∈ selectedElements st ->
  is_Some (document st !! el) ->
  enabled (applyUpdate (gradientProps st) u) = true ->
  type (applyUpdate (gradientProps st) u) = radial ->
  let d' := document (updateGradientProperty rnd u st) in
  exists ge gid,
    getAttribute d' el "fill" = Some (url gid) /\
    getAttribute d' ge "id" = Some gid /\
    toLowerCase (tagOf d' ge) = "radialgradient" /\
    getAttribute d' ge "cx" = Some "50%" /\
    getAttribute d' ge "cy" = Some "50%" /\
    getAttribute d' ge "r" = Some "50%".
Proof.
  intros _ Hroot Hin Hx He Ht d'.
  assert (Hne : selectedElements st ≠ []).
  { intros Hnil. rewrite Hnil in Hin. by apply elem_of_nil in Hin. }
  unfold d'. rewrite (updateGradientProperty_document rnd u st root Hne Hroot).
  destruct (gradientFold_server_radial rnd _ (ensureDefs root (document st)).1
              (selectedElements st) He Ht (ensureDefs root (document st)).2 O el Hin)
    as (ge & gid & Hfill & Hid & Htag & H1 & H2 & H3).
  { by destruct (frame_ensureDefs no_writes root (document st) el Hx). }
  exists ge, gid. by repeat split.
Qed.
End RadialFacts.

(** ** Editing the stops *)

Section StopFacts.
Import Js Dom Editor.

Lemma filter_index_shift {A : Type} (index : nat) (l : list A) :
  forall k : nat,
    map snd (List.filter (fun p : nat * A => negb (fst p =? index)%nat)
               (imap (fun j a => ((k + j)%nat, a)) l))
    = if (index <? k)%nat then l
      else take (index - k) l ++ drop (S (index - k)) l.
Proof.
  induction l as [|a l IH]; intros k.
  { destruct (index <? k)%nat; [done|]. by rewrite take_nil, drop_nil. }
  cbn [imap List.filter fst].
  assert (Hext : imap ((fun j a => ((k + j)%nat, a)) ∘ S) l
                 = imap (fun j a => ((S k + j)%nat, a)) l).
  { apply imap_ext. intros j x' _. cbn. f_equal. lia. }
  rewrite Hext. specialize (IH (S k)).
  destruct (k + 0 =? index)%nat eqn:Hk; cbn [negb].
  - apply Nat.eqb_eq in Hk. rewrite IH.
    replace (index <? S k)%nat with true by (symmetry; apply Nat.ltb_lt; lia).
    replace (index <? k)%nat with false by (symmetry; apply Nat.ltb_ge; lia).
    by replace (index - k)%nat with O by lia.
  - apply Nat.eqb_neq in Hk. cbn [map snd]. rewrite IH.
    destruct (index <? k)%nat eqn:Hlt.
    + apply Nat.ltb_lt in Hlt.
      by replace (index <? S k)%nat with true by (symmetry; apply Nat.ltb_lt; lia).
    + apply Nat.ltb_ge in Hlt.
      replace (index <? S k)%nat with false by (symmetry; apply Nat.ltb_ge; lia).
      replace (index - k)%nat with (S (index - S k)) by lia. done.
Qed.

Lemma filter_index_spec {A : Type} (index : nat) (l : list A) :
  filter_index index l = take index l ++ drop (S index) l.
Proof.
  unfold filter_index.
  assert (Hext : imap pair l = imap (fun j a => ((0 + j)%nat, a)) l).
  { by apply imap_ext. }
  rewrite Hext, (filter_index_shift index l O).
  replace (index <? 0)%nat with false by (symmetry; apply Nat.ltb_ge; lia).
  by rewrite Nat.sub_0_r.
Qed.

Lemma updateGradientProperty_nothing_selected rnd u st :
  selectedElements st = [] -> updateGradientProperty rnd u st = st.
Proof. intros H. unfold updateGradientProperty. by rewrite H. Qed.

(** X15.  Removing a stop never leaves fewer than two: if there are two or
    more before, there are two or more after, whatever the index and the
    selection.  When something is selected and there are more than two
    stops, exactly the stop at [index] goes, the others keeping their order;
    an index beyond the list takes nothing out. *)
Theorem removeGradientStop_floor rnd (index : nat) (st : State) :
  let before := stops (gradientProps st) in
  let after := stops (gradientProps (removeGradientStop rnd index st)) in
  ((2 <= length before)%nat -> (2 <= length after)%nat) /\
  (selectedElements st ≠ [] -> (2 < length before)%nat ->
     after = take index before ++ drop (S index) before /\
     ((index < length before)%nat -> length after = (length before - 1)%nat) /\
     ((length before <= index)%nat -> after = before)).
Proof.
  intros before after. unfold after, removeGradientStop. fold before.
  destruct (length before <=? 2)%nat eqn:Hle.
  - apply Nat.leb_le in Hle. split; [done|]. intros _ Hlt. lia.
  - apply Nat.leb_gt in Hle.
    destruct (updateGradientProperty_state rnd
                (SetStops (filter_index index before)) st) as (_ & _ & Hg).
    pose proof (filter_index_length index before) as Hlen.
    split.
    + intros _. destruct (selectedElements st) as [|e sel] eqn:Hsel.
      * rewrite updateGradientProperty_nothing_selected by done. fold before. lia.
      * rewrite Hg by done. cbn [applyUpdate stops]. lia.
    + intros Hsel _. rewrite (Hg Hsel). cbn [applyUpdate stops].
      rewrite filter_index_spec. split; [done|]. split.
      * intros Hi. rewrite length_app, length_take, length_drop. lia.
      * intros Hi. rewrite take_ge, drop_ge by lia. by rewrite app_nil_r.
Qed.

(** X16.  With nothing selected the gradient controls are dead: enabling,
    changing kind or angle, adding and removing a stop all leave the whole
    state, the panel included, as it was.  With something selected, adding a
    stop puts the default stop (offset 100, black) at the end of the list and
    keeps the rest of the panel; and without a drawing on the canvas an
    update changes the panel only. *)
Theorem gradient_controls_need_a_selection rnd (u : GradientUpdate)
    (index : nat) (st : State) :
  (selectedElements st = [] ->
     updateGradientProperty rnd u st = st /\
     addGradientStop rnd st = st /\
     removeGradientStop rnd index st = st) /\
  (selectedElements st ≠ [] ->
     gradientProps (addGradientStop rnd st)
     = mkGradient (enabled (gradientProps st)) (type (gradientProps st))
         (angle (gradientProps st))
         (stops (gradientProps st) ++ [mkStop (Int 100) "#000000"])) /\
  (selectedElements st ≠ [] -> rootSvg st = None ->
     document (updateGradientProperty rnd u st) = document st /\
     gradientProps (updateGradientProperty rnd u st)
     = applyUpdate (gradientProps st) u).
Proof.
  split; [|split].
  - intros Hsel. split; [by apply updateGradientProperty_nothing_selected|].
    split.
    + unfold addGradientStop. by apply updateGradientProperty_nothing_selected.
    + unfold removeGradientStop. destruct (_ <=? 2)%nat; [done|].
      by apply updateGradientProperty_nothing_selected.
  - intros Hsel. unfold addGradientStop.
    destruct (updateGradientProperty_state rnd
      (SetStops (stops (gradientProps st) ++ [mkStop (Int 100) "#000000"])) st)
      as (_ & _ & Hg).
    by rewrite (Hg Hsel).
  - intros Hsel Hroot. unfold updateGradientProperty. rewrite Hroot.
    by destruct (selectedElements st).
Qed.

End StopFacts.

(** ** Auto layout in general *)

Section LayoutGeneralFacts.
Import Js Dom Editor Inspector.
Implicit Types (d : Document) (r x c p group : ref) (k v : string).
Variable getBBox : ref -> option BoundingBox.

Lemma layoutChild_eq (dir : string) (gp pad : number) d (o : number) c :
  layoutChild getBBox dir gp pad (d, o) c =
  match getBBox c with
  | None => (d, o)
  | Some b =>
      (setAttribute c "transform" (placed dir pad o) d,
       num_add o (num_add (Int (extent dir b)) gp))
  end.
Proof.
  unfold layoutChild, placed, extent. destruct (getBBox c); [|done].
  by case_bool_decide.
Qed.

Lemma runningOffset_cons (dir : string) (gp o : number) c (cs : list ref) :
  runningOffset getBBox dir gp o (c :: cs)
  = runningOffset getBBox dir gp
      match getBBox c with
      | None => o
      | Some b => num_add o (num_add (Int (extent dir b)) gp)
      end cs.
Proof. reflexivity. Qed.

(** The loop: a child that measures is placed at the running offset; one
    that does not keeps its transform and leaves the offset alone. *)
Lemma layoutFold_general (dir : string) (gp pad : number) (cs : list ref) :
  forall d (o : number),
    NoDup cs ->
    (forall c, c ∈ cs -> is_Some (d !! c)) ->
    forall (i : nat) c,
      cs !! i = Some c ->
      getAttribute (foldl (layoutChild getBBox dir gp pad) (d, o) cs).1 c "transform"
      = match getBBox c with
        | None => getAttribute d c "transform"
        | Some _ =>
            Some (placed dir pad (runningOffset getBBox dir gp o (take i cs)))
        end.
Proof.
  induction cs as [|c0 cs IH]; intros d o Hnd Hx i c Hi; [done|].
  apply NoDup_cons in Hnd as [Hc0 Hnd].
  cbn [foldl]. rewrite layoutChild_eq.
  destruct i as [|i].
  - assert (c = c0) as -> by (cbn in Hi; congruence). cbn [take].
    unfold runningOffset. cbn [foldl].
    destruct (getBBox c0) as [b|] eqn:Hb; rewrite layoutFold_other by done.
    + apply getAttribute_setAttribute_eq, Hx. by left.
    + done.
  - change ((c0 :: cs) !! S i) with (cs !! i) in Hi.
    assert (Hcin : c ∈ cs) by (by eapply list_elem_of_lookup_2).
    assert (Hne : c ≠ c0) by (intros ->; done).
    cbn [take]. rewrite runningOffset_cons.
    destruct (getBBox c0) as [b|] eqn:Hb.
    + rewrite (IH _ _ Hnd
                 (fun c' Hc' => proj2 (setAttribute_is_Some _ _ _ _ _)
                                  (Hx c' (list_elem_of_further _ _ _ Hc')))
                 i c Hi).
      destruct (getBBox c); [done|].
      apply getAttribute_setAttribute_ne. by left.
    + by rewrite (IH _ _ Hnd
                    (fun c' Hc' => Hx c' (list_elem_of_further _ _ _ Hc')) i c Hi).
Qed.

Lemma layoutFold_frame (dir : string) (gp pad : number) (cs : list ref) :
  forall d (o : number) x k,
    k ≠ "transform" \/ x ∉ cs \/ getBBox x = None ->
    getAttribute (foldl (layoutChild getBBox dir gp pad) (d, o) cs).1 x k
    = getAttribute d x k.
Proof.
  induction cs as [|c0 cs IH]; intros d o x k Hcase; [done|].
  cbn [foldl]. rewrite layoutChild_eq.
  assert (Hrest : k ≠ "transform" \/ x ∉ cs \/ getBBox x = None).
  { destruct Hcase as [?|[Hn|?]]; [tauto| |tauto].
    right. left. intros Hin. apply Hn. by right. }
  destruct (getBBox c0) as [b|] eqn:Hb; rewrite IH by done; [|done].
  apply getAttribute_setAttribute_ne.
  destruct Hcase as [?|[Hn|Hnone]]; [by right| |].
  - left. intros ->. apply Hn. by left.
  - left. intros ->. congruence.
Qed.

Lemma runningOffset_measured (dir : string) (gp : Z) (cs : list ref) :
  forall (ws : list Z) (o : Z),
    Forall2 (fun c w => exists b, getBBox c = Some b /\ extent dir b = w) cs ws ->
    runningOffset getBBox dir (Int gp) (Int o) cs = Int (o + advance gp ws).
Proof.
  induction cs as [|c cs IH]; intros ws o Hm.
  - apply Forall2_nil_inv_l in Hm as ->. cbn. by rewrite Z.add_0_r.
  - destruct ws as [|w ws]; [by apply Forall2_cons_nil_inv in Hm|].
    apply Forall2_cons in Hm as [(b & Hb & Hw) Hm].
    rewrite runningOffset_cons, Hb, Hw. cbn [num_add].
    rewrite (IH ws _ Hm).
    f_equal. unfold advance. cbn [foldr]. lia.
Qed.

(** X17.  Boxes have whole-number sides, and every number that the loop
    computes is a safe integer or [NaN] ([Scope.exactRun]).  In a flex
    container every child that is not a title or a description and that
    measures is translated to the running offset, along the row or down the
    column; a child that does not measure keeps the transform it had, and
    the children after it are placed as if it were not there.  Gap and
    padding may be [NaN], when [parseInt] finds no digit. *)
Theorem runAutoLayout_places_each_child d group (i : nat) c
    (dir : string) (gp pad : number) :
  getAttribute d group "data-layout" = Some "flex" ->
  or_else (getAttribute d group "data-direction") "horizontal" = dir ->
  parseInt (or_else (getAttribute d group "data-gap") "0") = gp ->
  parseInt (or_else (getAttribute d group "data-padding") "0") = pad ->
  Scope.exactRun getBBox dir gp pad (layoutChildren d group) = true ->
  NoDup (childrenOf d group) ->
  (forall x, x ∈ childrenOf d group -> is_Some (d !! x)) ->
  layoutChildren d group !! i = Some c ->
  getAttribute (runAutoLayout getBBox group d) c "transform"
  = match getBBox c with
    | None => getAttribute d c "transform"
    | Some _ =>
        Some (placed dir pad
                (runningOffset getBBox dir gp pad (take i (layoutChildren d group))))
    end.
Proof.
  intros Hflex Hdir Hgp Hpad _ Hnd Hx Hi. unfold runAutoLayout.
  rewrite (bool_decide_eq_true_2 _ Hflex). cbv zeta. rewrite Hdir, Hgp, Hpad.
  apply layoutFold_general; [|intros x Hin|done].
  - unfold layoutChildren. by apply NoDup_filter.
  - apply Hx. unfold layoutChildren in Hin.
    apply list_elem_of_filter in Hin. tauto.
Qed.

Lemma runAutoLayout_frame d group x k :
  k ≠ "transform" \/ x ∉ childrenOf d group \/
  tagOf d x = "title" \/ tagOf d x = "desc" \/ getBBox x = None ->
  getAttribute (runAutoLayout getBBox group d) x k = getAttribute d x k.
Proof.
  intros Hcase. unfold runAutoLayout. case_bool_decide; [|done].
  apply layoutFold_frame. unfold layoutChildren.
  rewrite list_elem_of_filter. tauto.
Qed.


(** Every child measures: the offsets are sums, in either direction. *)
Lemma runAutoLayout_measured d group (cs : list ref) (es : list Z)
    (gap padding : Z) (dir : string) :
  getAttribute d group "data-layout" = Some "flex" ->
  or_else (getAttribute d group "data-direction") "horizontal" = dir ->
  parseInt (or_else (getAttribute d group "data-gap") "0") = Int gap ->
  parseInt (or_else (getAttribute d group "data-padding") "0") = Int padding ->
  childrenOf d group = cs ->
  NoDup cs ->
  (forall c, c ∈ cs ->
     is_Some (d !! c) /\ tagOf d c ≠ "title" /\ tagOf d c ≠ "desc") ->
  Forall2 (fun c e => exists b, getBBox c = Some b /\ extent dir b = e) cs es ->
  forall i c, cs !! i = Some c ->
    getAttribute (runAutoLayout getBBox group d) c "transform"
    = Some (placed dir (Int padding) (Int (padding + advance gap (take i es)))).
Proof.
  intros Hflex Hdir Hgap Hpad Hcs Hnd Hch Hm i c Hi.
  assert (Hlc : layoutChildren d group = cs).
  { unfold layoutChildren. rewrite Hcs. apply filter_all.
    apply Forall_forall. intros c' Hc'. by apply Hch. }
  unfold runAutoLayout. rewrite (bool_decide_eq_true_2 _ Hflex). cbv zeta.
  rewrite Hdir, Hgap, Hpad, Hlc.
  rewrite (layoutFold_general dir (Int gap) (Int padding) cs d (Int padding)
             Hnd (fun c' Hc' => proj1 (Hch c' Hc')) i c Hi).
  destruct (Forall2_lookup_l _ _ _ _ _ Hm Hi) as (h & _ & b & -> & _).
  by rewrite (runningOffset_measured dir gap (take i cs) (take i es) padding)
    by (by apply Forall2_take).
Qed.

(** X19.  In a column (a flex container whose direction is not
    [horizontal]) with gap [gap] and padding [padding], the [i]-th of the
    children, which all measure, with whole-number heights [hs], all the
    numbers of the loop being safe integers, is translated by
    [padding] horizontally and by [padding + sum over k < i of (h_k + gap)]
    vertically. *)
Theorem runAutoLayout_column_offsets d group (cs : list ref) (hs : list Z)
    (gap padding : Z) (dir : string) :
  Scope.exactSums gap padding hs = true ->
  getAttribute d group "data-layout" = Some "flex" ->
  or_else (getAttribute d group "data-direction") "horizontal" = dir ->
  dir ≠ "horizontal" ->
  parseInt (or_else (getAttribute d group "data-gap") "0") = Int gap ->
  parseInt (or_else (getAttribute d group "data-padding") "0") = Int padding ->
  childrenOf d group = cs ->
  NoDup cs ->
  (forall c, c ∈ cs ->
     is_Some (d !! c) /\ tagOf d c ≠ "title" /\ tagOf d c ≠ "desc") ->
  Forall2 (fun c h => exists b, getBBox c = Some b /\ height b = h) cs hs ->
  forall i c, cs !! i = Some c ->
    getAttribute (runAutoLayout getBBox group d) c "transform"
    = Some (translate (Int padding) (Int (padding + advance gap (take i hs)))).
Proof.
  intros _ Hflex Hdir Hne Hgap Hpad Hcs Hnd Hch Hm i c Hi.
  assert (Hext : Forall2 (fun c h => exists b, getBBox c = Some b /\ extent dir b = h)
                    cs hs).
  { eapply Forall2_impl; [exact Hm|]. intros c' h (b & Hb & Hh).
    exists b. split; [done|]. unfold extent.
    by rewrite (bool_decide_eq_false_2 _ Hne). }
  rewrite (runAutoLayout_measured d group cs hs gap padding dir
             Hflex Hdir Hgap Hpad Hcs Hnd Hch Hext i c Hi).
  unfold placed. by rewrite (bool_decide_eq_false_2 _ Hne).
Qed.

(** X20.  The Row and Column buttons: [updateLayoutProperty(group,
    'direction', dir)] on a flex container records the direction on the
    container and lays its children out again along it, from the padding,
    each after the extents and gaps of those before it (the extents being
    whole numbers and all the numbers of the loop safe integers); the
    selection is kept, and the panel takes the new direction exactly when
    the container is the whole selection. *)
Theorem updateLayoutProperty_direction (st : State) (lp : LayoutProps) group
    (cs : list ref) (es : list Z) (gap padding : Z) (dir : string) :
  Scope.exactSums gap padding es = true ->
  dir ≠ EmptyString ->
  getAttribute (document st) group "data-layout" = Some "flex" ->
  parseInt (or_else (getAttribute (document st) group "data-gap") "0") = Int gap ->
  parseInt (or_else (getAttribute (document st) group "data-padding") "0")
    = Int padding ->
  childrenOf (document st) group = cs ->
  NoDup cs ->
  (forall c, c ∈ cs ->
     is_Some (document st !! c) /\
     tagOf (document st) c ≠ "title" /\ tagOf (document st) c ≠ "desc") ->
  Forall2 (fun c e => exists b, getBBox c = Some b /\ extent dir b = e) cs es ->
  let r := updateLayoutProperty getBBox group "direction" dir st lp in
  getAttribute (document r.1) group "data-direction" = Some dir /\
  (forall i c, cs !! i = Some c ->
     getAttribute (document r.1) c "transform"
     = Some (placed dir (Int padding) (Int (padding + advance gap (take i es))))) /\
  selectedElements r.1 = selectedElements st /\
  r.2 = (if bool_decide (selectedElements st = [group])
         then mkLayout (Inspector.enabled lp) dir (Inspector.gap lp)
                (Inspector.padding lp)
         else lp).
Proof.
  intros _ Hdir Hflex Hgap Hpad Hcs Hnd Hch Hm r.
  pose proof (getAttribute_is_Some _ _ _ _ Hflex) as Hg.
  set (d1 := setAttribute group "data-direction" dir (document st)).
  assert (Hd : getAttribute d1 group "data-direction" = Some dir)
    by (by apply getAttribute_setAttribute_eq).
  assert (Hk : forall k, k ≠ "data-direction" ->
             getAttribute d1 group k = getAttribute (document st) group k).
  { intros k Hk. apply getAttribute_setAttribute_ne. by right. }
  assert (Hrun : document r.1 = runAutoLayout getBBox group d1) by done.
  split; [|split; [|split]].
  - rewrite Hrun.
    rewrite runAutoLayout_frame; [done|by left].
  - intros i c Hi. rewrite Hrun.
    apply (runAutoLayout_measured d1 group cs es gap padding dir); try done.
    + by rewrite Hk.
    + rewrite Hd. unfold or_else. by rewrite (bool_decide_eq_false_2 _ Hdir).
    + by rewrite Hk.
    + by rewrite Hk.
    + unfold d1. by rewrite childrenOf_setAttribute.
    + intros c' Hc'. unfold d1.
      rewrite setAttribute_is_Some, tagOf_setAttribute. by apply Hch.
  - done.
  - subst r. unfold updateLayoutProperty. cbn [snd]. by case_bool_decide.
Qed.
End LayoutGeneralFacts.

(** ** Grouping, ungrouping, deleting *)

Section GroupingFacts.
Import Js Dom Editor Inspector.
Implicit Types (d : Document) (r x c p g : ref) (k v : string).
Variable getBBox : ref -> option BoundingBox.

Lemma appendFold_labels g (sel : list ref) :
  forall d x, labels (foldl (fun d el => appendChild g el d) d sel) x = labels d x.
Proof.
  induction sel as [|e sel IH]; intros d x; [done|].
  cbn [foldl]. by rewrite IH, labels_appendChild.
Qed.

Lemma labels_tagOf d d' x : labels d' x = labels d x -> tagOf d' x = tagOf d x.
Proof. intros H. by rewrite !tagOf_labels, H. Qed.

Lemma labels_getAttribute d d' x k :
  labels d' x = labels d x -> getAttribute d' x k = getAttribute d x k.
Proof. intros H. by rewrite !getAttribute_labels, H. Qed.

(** The document before the layout pass of [createAutoLayoutGroup]. *)
Lemma createAutoLayoutGroup_labels (rnd : string) (st : State) root :
  (2 <= length (selectedElements st))%nat ->
  rootSvg st = Some root ->
  let g := fresh (dom (document st)) in
  let st1 := createAutoLayoutGroup getBBox rnd st in
  exists d3,
    document st1 = runAutoLayout getBBox g d3 /\
    selectedElements st1 = [g] /\
    document st !! g = None /\
    labels d3 g
    = Some ("g",
            <["id" := "layout-" +:+ rnd]>
              (<["data-padding" := "16"]>
                 (<["data-gap" := "16"]>
                    (<["data-direction" := "horizontal"]>
                       (<["data-layout" := "flex"]> ∅))))) /\
    (forall x, x ≠ g -> labels d3 x = labels (document st) x).
Proof.
  intros Hlen Hroot g st1.
  destruct (selectedElements st) as [|f sel'] eqn:Hsel; [cbn in Hlen; lia|].
  subst st1.
  rewrite (createAutoLayoutGroup_eq getBBox rnd st root f sel')
    by (by rewrite ?Hsel).
  cbv zeta. fold g. eexists. split; [reflexivity|]. split; [done|].
  assert (Hfresh : document st !! g = None).
  { apply (not_elem_of_dom (D := gset positive)). apply is_fresh. }
  split; [done|].
  set (d1 := setAttribute g "id" _ _).
  assert (H2 : forall x,
             labels match parentOf d1 f with
                    | Some p => insertBefore p g f d1
                    | None => d1
                    end x = labels d1 x).
  { intros x. destruct (parentOf d1 f); [apply labels_insertBefore|done]. }
  split.
  - rewrite appendFold_labels, H2. unfold d1, labels, setAttribute.
    rewrite !lookup_alter_eq, lookup_insert_eq. reflexivity.
  - intros x Hx. rewrite appendFold_labels, H2. unfold d1.
    rewrite !labels_setAttribute_ne by done.
    unfold labels. by rewrite lookup_insert_ne.
Qed.

(** X21.  Grouping two or more distinct selected siblings makes a new
    [g] that was not in the document, marks it as a flex row with gap 16 and
    padding 16 under the id [layout-<draw>], puts it under the parent of
    the selected nodes with these as its children, in selection order, and
    selects it alone; of the nodes that were there nothing changes but,
    possibly, a [transform]; and the layout panel that the selection effect
    then shows is the enabled row, 16 and 16. *)
Theorem createAutoLayoutGroup_container (rnd : string) (st : State)
    (root p f : ref) (sel' pre post : list ref) :
  rootSvg st = Some root ->
  selectedElements st = f :: sel' ->
  (2 <= length (f :: sel'))%nat ->
  NoDup (f :: sel') ->
  p ∉ f :: sel' ->
  (forall e, e ∈ f :: sel' -> parentOf (document st) e = Some p) ->
  childrenOf (document st) p = pre ++ f :: post ->
  NoDup (pre ++ f :: post) ->
  (forall c, c ∈ pre ++ f :: post -> is_Some (document st !! c)) ->
  let g := fresh (dom (document st)) in
  let st1 := createAutoLayoutGroup getBBox rnd st in
  document st !! g = None /\
  selectedElements st1 = [g] /\
  tagOf (document st1) g = "g" /\
  getAttribute (document st1) g "data-layout" = Some "flex" /\
  getAttribute (document st1) g "data-direction" = Some "horizontal" /\
  getAttribute (document st1) g "data-gap" = Some "16" /\
  getAttribute (document st1) g "data-padding" = Some "16" /\
  getAttribute (document st1) g "id" = Some ("layout-" +:+ rnd) /\
  parentOf (document st1) g = Some p /\
  childrenOf (document st1) g = f :: sel' /\
  (forall x, x ≠ g -> tagOf (document st1) x = tagOf (document st) x) /\
  (forall x k, x ≠ g -> k ≠ "transform" ->
     getAttribute (document st1) x k = getAttribute (document st) x k) /\
  (forall prev,
     selectionEffect_layout st1 prev = mkLayout true "horizontal" (Int 16) (Int 16)).
Proof.
  intros Hroot Hsel0 Hlen0 Hnd Hp Hpar Hkids Hndk Hex g st1.
  destruct (createAutoLayoutGroup_shape getBBox rnd st root p f sel' pre post
              Hroot Hsel0 Hlen0 Hnd Hp Hpar Hkids Hndk Hex)
    as (_ & _ & _ & _ & _ & _ & Hpg & Hkg & _).
  fold g st1 in Hpg, Hkg.
  assert (Hlen : (2 <= length (selectedElements st))%nat) by (by rewrite Hsel0).
  destruct (createAutoLayoutGroup_labels rnd st root Hlen Hroot)
    as (d3 & Hdoc & Hsel & Hfresh & Hg & Hother).
  fold g st1 in Hdoc, Hsel, Hfresh, Hg, Hother.
  assert (Htag : tagOf (document st1) g = "g").
  { rewrite Hdoc. rewrite (proj2 (runAutoLayout_links getBBox g d3 g)).
    by rewrite tagOf_labels, Hg. }
  assert (Hattr : forall k w,
             k ≠ "transform" ->
             (<["id" := "layout-" +:+ rnd]>
                (<["data-padding" := "16"]>
                   (<["data-gap" := "16"]>
                      (<["data-direction" := "horizontal"]>
                         (<["data-layout" := "flex"]> (∅ : gmap string string))))))
               !! k = w ->
             getAttribute (document st1) g k = w).
  { intros k w Hk Hw. rewrite Hdoc, (runAutoLayout_frame getBBox d3 g g k) by (by left).
    by rewrite getAttribute_labels, Hg. }
  assert (Hflex : getAttribute (document st1) g "data-layout" = Some "flex")
    by (by apply Hattr).
  assert (Hdir : getAttribute (document st1) g "data-direction" = Some "horizontal")
    by (by apply Hattr).
  assert (Hgap : getAttribute (document st1) g "data-gap" = Some "16")
    by (by apply Hattr).
  assert (Hpad : getAttribute (document st1) g "data-padding" = Some "16")
    by (by apply Hattr).
  repeat (split; [done|]).
  split; [apply Hattr; [done|by rewrite lookup_insert_eq]|].
  split; [done|]. split; [done|].
  split; [|split].
  - intros x Hx. rewrite Hdoc, (proj2 (runAutoLayout_links getBBox g d3 x)).
    by apply labels_tagOf, Hother.
  - intros x k Hx Hk. rewrite Hdoc, (runAutoLayout_frame getBBox d3 g x k) by (by left).
    by apply labels_getAttribute, Hother.
  - intros prev. unfold selectionEffect_layout. rewrite Hsel.
    rewrite (bool_decide_eq_true_2 _ Htag). cbv zeta.
    rewrite Hflex, Hdir, Hgap, Hpad. reflexivity.
Qed.

(** X22.  Grouping siblings that all measure, with whole-number widths
    [ws] (all the numbers of the loop being safe integers), lays them out
    at once: the [i]-th selected node, in selection order, is translated by
    [16 + sum over k < i of (w_k + 16)] horizontally and by 16 vertically. *)
Theorem createAutoLayoutGroup_row (rnd : string) (st : State)
    (root p f : ref) (sel' pre post : list ref) (ws : list Z) :
  Scope.exactSums 16 16 ws = true ->
  rootSvg st = Some root ->
  selectedElements st = f :: sel' ->
  (2 <= length (f :: sel'))%nat ->
  NoDup (f :: sel') ->
  p ∉ f :: sel' ->
  (forall e, e ∈ f :: sel' ->
     parentOf (document st) e = Some p /\
     tagOf (document st) e ≠ "title" /\ tagOf (document st) e ≠ "desc") ->
  childrenOf (document st) p = pre ++ f :: post ->
  NoDup (pre ++ f :: post) ->
  (forall c, c ∈ pre ++ f :: post -> is_Some (document st !! c)) ->
  Forall2 (measures getBBox) (f :: sel') ws ->
  forall i e, (f :: sel') !! i = Some e ->
    getAttribute (document (createAutoLayoutGroup getBBox rnd st)) e "transform"
    = Some (translate (Int (16 + advance 16 (take i ws))) (Int 16)).
Proof.
  intros _ Hroot Hsel Hlen Hnd Hp Hpar Hkids Hndk Hex Hm i e Hi.
  destruct (createAutoLayoutGroup_shape getBBox rnd st root p f sel' pre post
              Hroot Hsel Hlen Hnd Hp (fun e He => proj1 (Hpar e He))
              Hkids Hndk Hex)
    as (_ & _ & Hgsel & _ & _ & _ & _ & Hkg & _ & Hpe & _).
  assert (Hlen' : (2 <= length (selectedElements st))%nat) by (by rewrite Hsel).
  destruct (createAutoLayoutGroup_labels rnd st root Hlen' Hroot)
    as (d3 & Hdoc & _ & _ & Hg & Hother).
  set (st1 := createAutoLayoutGroup getBBox rnd st) in *.
  set (g := fresh (dom (document st))) in *.
  assert (Hk3 : childrenOf d3 g = f :: sel').
  { rewrite <- Hkg, Hdoc. symmetry. apply links_children.
    apply (proj1 (runAutoLayout_links getBBox g d3 g)). }
  rewrite Hdoc.
  assert (Hall : forall i e, (f :: sel') !! i = Some e ->
             getAttribute (runAutoLayout getBBox g d3) e "transform"
             = Some (placed "horizontal" (Int 16)
                       (Int (16 + advance 16 (take i ws)))));
    [|by rewrite (Hall i e Hi)].
  apply (runAutoLayout_measured getBBox d3 g (f :: sel') ws 16 16 "horizontal");
    try done.
  - by rewrite getAttribute_labels, Hg.
  - by rewrite getAttribute_labels, Hg.
  - by rewrite getAttribute_labels, Hg.
  - by rewrite getAttribute_labels, Hg.
  - intros c Hc.
    assert (Hcg : c ≠ g) by (intros ->; done).
    rewrite (labels_tagOf _ _ _ (Hother c Hcg)). split; [|by apply Hpar].
    apply links_is_Some.
    rewrite <- (proj1 (runAutoLayout_links getBBox g d3 c)), <- Hdoc.
    apply links_is_Some. eapply parentOf_Some. by apply Hpe.
Qed.

End GroupingFacts.

(** ** Ungrouping and deleting *)

Section DetachFacts.
Import Js Dom Editor Inspector.
Implicit Types (d : Document) (r x c p g : ref) (k v : string).

(** The loop of [ungroup] leaves the children of every other node alone. *)
Lemma ungroup_loop_other g p x (rest : list ref) :
  forall d,
    NoDup rest -> x ≠ p -> x ≠ g ->
    is_Some (d !! p) ->
    (forall e, e ∈ rest -> parentOf d e = Some g) ->
    childrenOf (foldl (fun d child => insertBefore p child g d) d rest) x
    = childrenOf d x.
Proof.
  induction rest as [|c rest IH]; intros d Hnd Hxp Hxg Hp Hpar; [done|].
  apply NoDup_cons in Hnd as [Hc Hnd]. cbn [foldl].
  assert (Hcx : is_Some (d !! c)).
  { eapply parentOf_Some. apply Hpar. by left. }
  rewrite IH; try done.
  - rewrite childrenOf_insertBefore by done. rewrite decide_False by done.
    rewrite childrenOf_unlink. rewrite decide_False; [done|].
    rewrite (Hpar c) by (by left). congruence.
  - by apply insertBefore_is_Some.
  - intros e He. rewrite parentOf_insertBefore by done.
    rewrite decide_False by (intros ->; done). apply Hpar. by right.
Qed.

(** X23.  Ungrouping a selected [g] that stands between [A] and [B] under
    its parent puts its children in its place, in their order, and selects
    them; the container is left without parent and without children; no
    other node is moved, and no tag and no attribute changes, so the
    children keep the translations that a layout gave them. *)
Theorem ungroup_container (st : State) (g p : ref) (cs A B : list ref) :
  selectedElements st = [g] ->
  tagOf (document st) g = "g" ->
  parentOf (document st) g = Some p ->
  childrenOf (document st) g = cs ->
  childrenOf (document st) p = A ++ g :: B ->
  NoDup cs -> g ∉ cs -> p ∉ cs -> g ≠ p -> g ∉ A -> g ∉ B ->
  (forall e, e ∈ cs -> parentOf (document st) e = Some g) ->
  let st1 := ungroup st in
  selectedElements st1 = cs /\
  childrenOf (document st1) p = A ++ cs ++ B /\
  (forall e, e ∈ cs -> parentOf (document st1) e = Some p) /\
  parentOf (document st1) g = None /\
  childrenOf (document st1) g = [] /\
  (forall y, y ∉ cs -> y ≠ g -> parentOf (document st1) y = parentOf (document st) y) /\
  (forall x, x ≠ p -> x ≠ g ->
     childrenOf (document st1) x = childrenOf (document st) x) /\
  (forall x, tagOf (document st1) x = tagOf (document st) x) /\
  (forall x k, getAttribute (document st1) x k = getAttribute (document st) x k).
Proof.
  intros Hsel Htag Hpg Hcs Hkp Hnd Hgcs Hpcs Hgp HgA HgB Hpar st1.
  assert (Hp : is_Some (document st !! p)).
  { apply childrenOf_Some. rewrite Hkp. by destruct A. }
  destruct (ungroup_loop g p cs (document st) A B Hnd Hgcs Hpcs Hgp Hp Hpar Hkp HgA)
    as (Hk5 & Hg5 & Hp5 & Hp5' & Hl5).
  set (d5 := foldl (fun d child => insertBefore p child g d) (document st) cs) in *.
  assert (Hun : st1 = mkState (remove g d5) (rootSvg st) cs (gradientProps st)).
  { unfold st1, ungroup. rewrite Hsel.
    rewrite (bool_decide_eq_true_2 _ Htag), Hpg, Hcs. reflexivity. }
  assert (Hpg5 : parentOf d5 g = Some p) by (by rewrite Hp5').
  assert (Hlab : forall x, labels (document st1) x = labels (document st) x).
  { intros x. rewrite Hun. cbn [document]. unfold remove.
    by rewrite labels_unlink, Hl5. }
  assert (Htags : forall x, tagOf (document st1) x = tagOf (document st) x)
    by (intros x; apply labels_tagOf, Hlab).
  assert (Hattrs : forall x k,
             getAttribute (document st1) x k = getAttribute (document st) x k)
    by (intros x k; apply labels_getAttribute, Hlab).
  revert Htags Hattrs.
  rewrite Hun. cbn [document selectedElements]. unfold remove. intros Htags Hattrs.
  split; [done|]. split; [|split; [|split; [|split; [|split; [|split; [|split]]]]]].
  - rewrite childrenOf_unlink, decide_True by done. rewrite Hk5.
    rewrite !filter_app, filter_cons_False by (intros Hn; by apply Hn).
    by rewrite !filter_ne_notin.
  - intros e He. rewrite parentOf_unlink.
    rewrite decide_False by (intros ->; done). by apply Hp5.
  - rewrite parentOf_unlink. by rewrite decide_True.
  - rewrite childrenOf_unlink.
    rewrite decide_False by (rewrite Hpg5; congruence).
    rewrite Hg5, Hcs. apply filter_none. apply Forall_forall. tauto.
  - intros y Hy Hyg. rewrite parentOf_unlink, decide_False by done.
    by apply Hp5'.
  - intros x Hxp Hxg. rewrite childrenOf_unlink.
    rewrite decide_False by (rewrite Hpg5; congruence).
    by apply ungroup_loop_other.
  - exact Htags.
  - exact Hattrs.
Qed.




End DetachFacts.

(** ** The stops of a paint server *)

Section StopNodeFacts.
Import Js Dom Editor Paint.
Implicit Types (d : Document) (r x c p ge s el : ref) (k v : string).

Lemma appendStop_step ge d stop :
  is_Some (d !! ge) ->
  let s := (createElementNS "stop" d).1 in
  let d' := appendStop ge d stop in
  childrenOf d' ge = childrenOf d ge ++ [s] /\
  stopNode d' ge s stop /\
  (forall x, is_Some (d !! x) ->
     labels d' x = labels d x /\ parentOf d' x = parentOf d x /\ is_Some (d' !! x)).
Proof.
  intros Hge s d'.
  set (d1 := (createElementNS "stop" d).2).
  set (dA := setAttribute s "stop-color" (color stop)
               (setAttribute s "offset" (show (offset stop) +:+ "%") d1)).
  assert (Hd' : d' = appendChild ge s dA) by reflexivity.
  assert (Hs : d !! s = None) by apply createElementNS_fresh.
  assert (Hnew : d1 !! s = Some (mkElement "stop" ∅ [] None))
    by apply createElementNS_new.
  assert (Hold : forall x, is_Some (d !! x) -> d1 !! x = d !! x)
    by (intros x Hx; by apply createElementNS_old).
  assert (Hne : forall x, is_Some (d !! x) -> x ≠ s).
  { intros x [e Hx] ->. congruence. }
  assert (HsA : is_Some (dA !! s)).
  { unfold dA. rewrite !setAttribute_is_Some, Hnew. by eexists. }
  assert (HgA : is_Some (dA !! ge)).
  { unfold dA. rewrite !setAttribute_is_Some, Hold by done. done. }
  assert (HpA : parentOf dA s = None).
  { unfold dA. rewrite !parentOf_setAttribute. unfold parentOf. by rewrite Hnew. }
  assert (HoldA : forall x, is_Some (d !! x) ->
                    labels dA x = labels d x /\ parentOf dA x = parentOf d x /\
                    childrenOf dA x = childrenOf d x).
  { intros x Hx. unfold dA.
    rewrite !labels_setAttribute_ne, !parentOf_setAttribute,
      !childrenOf_setAttribute by (by apply Hne).
    unfold labels, parentOf, childrenOf. by rewrite Hold. }
  split; [|split].
  - rewrite Hd', childrenOf_appendChild by done. rewrite decide_True by done.
    rewrite unlink_detached by done. f_equal. by apply HoldA.
  - rewrite Hd'. unfold stopNode. split; [|split; [|split]].
    + rewrite (labels_tagOf dA _ s) by apply labels_appendChild.
      unfold dA. rewrite !tagOf_setAttribute. unfold tagOf. by rewrite Hnew.
    + rewrite parentOf_appendChild by done. by rewrite decide_True.
    + rewrite (labels_getAttribute dA _ s) by apply labels_appendChild.
      unfold dA. rewrite getAttribute_setAttribute_ne by (by right).
      apply getAttribute_setAttribute_eq. rewrite Hnew. by eexists.
    + rewrite (labels_getAttribute dA _ s) by apply labels_appendChild.
      unfold dA. apply getAttribute_setAttribute_eq.
      rewrite setAttribute_is_Some, Hnew. by eexists.
  - intros x Hx. destruct (HoldA x Hx) as (Hl & Hp & _).
    rewrite Hd'. split; [|split].
    + by rewrite labels_appendChild.
    + rewrite parentOf_appendChild by done.
      rewrite decide_False by (by apply Hne). done.
    + apply appendChild_is_Some. apply labels_is_Some. rewrite Hl.
      by apply labels_is_Some.
Qed.

Lemma stopNode_kept d d' ge s stop :
  labels d' s = labels d s -> parentOf d' s = parentOf d s ->
  stopNode d ge s stop -> stopNode d' ge s stop.
Proof.
  intros Hl Hp (Ht & Hpar & Ho & Hc). unfold stopNode.
  rewrite (labels_tagOf d d' s Hl), Hp, !(labels_getAttribute d d' s _ Hl).
  done.
Qed.

(** The loop over the stops appends one new [stop] per entry, in order. *)
Lemma appendStopFold ge (l : list GradientStop) :
  forall d,
    is_Some (d !! ge) ->
    let d' := foldl (appendStop ge) d l in
    (exists ss,
       childrenOf d' ge = childrenOf d ge ++ ss /\
       Forall2 (stopNode d' ge) ss l) /\
    (forall x, is_Some (d !! x) ->
       labels d' x = labels d x /\ parentOf d' x = parentOf d x /\
       is_Some (d' !! x)).
Proof.
  induction l as [|stop l IH]; intros d Hge; cbn [foldl].
  - split; [exists []; by rewrite app_nil_r|done].
  - destruct (appendStop_step ge d stop Hge) as (Hk & Hn & Hold).
    set (s := (createElementNS "stop" d).1) in *.
    set (d1 := appendStop ge d stop) in *.
    destruct (IH d1 (proj2 (proj2 (Hold ge Hge)))) as ((ss & Hk' & Hf) & Hold').
    set (d' := foldl (appendStop ge) d1 l) in *.
    split.
    + exists (s :: ss). split; [by rewrite Hk', Hk, <- app_assoc|].
      constructor; [|done].
      assert (Hs1 : is_Some (d1 !! s)).
      { eapply parentOf_Some. apply Hn. }
      destruct (Hold' s Hs1) as (Hl & Hp & _).
      by apply (stopNode_kept d1).
    + intros x Hx. destruct (Hold x Hx) as (Hl & Hp & Hx1).
      destruct (Hold' x Hx1) as (Hl' & Hp' & Hx').
      by rewrite Hl', Hp', Hl, Hp.
Qed.

Lemma clearChildren_is_Some r d x :
  is_Some (clearChildren r d !! x) <-> is_Some (d !! x).
Proof. by rewrite <- !labels_is_Some, labels_clearChildren. Qed.

Lemma childrenOf_clearChildren r d : childrenOf (clearChildren r d) r = [].
Proof.
  unfold clearChildren. rewrite childrenOf_setChildren, decide_True by done.
  by destruct (_ !! r).
Qed.

Lemma setGeometry_labels_id g ge d x :
  is_Some (setGeometry g ge d !! x) <-> is_Some (d !! x).
Proof.
  unfold setGeometry. destruct (type g); by rewrite !setAttribute_is_Some.
Qed.

Lemma setGeometry_id g ge d x :
  getAttribute (setGeometry g ge d) x "id" = getAttribute d x "id".
Proof.
  unfold setGeometry.
  destruct (type g); by rewrite !getAttribute_setAttribute_ne by (by right).
Qed.

(** One pass of the loop leaves the paint server it binds the element to
    with the stops of the descriptor as its children. *)
Lemma gradientStep_stops rnd g defs d n el :
  enabled g = true ->
  let d' := (gradientStep rnd g defs (d, n) el).1 in
  exists ge ss,
    getAttribute d' ge "id" = Some (gradIdFor rnd d n el) /\
    childrenOf d' ge = ss /\
    Forall2 (stopNode d' ge) ss (stops g).
Proof.
  intros He d'. subst d'. rewrite gradientStep_enabled by done. cbv zeta.
  cbn [fst].
  set (d1 := if truthy (getAttribute d el "data-orig-fill") then d else _).
  set (gid := gradIdFor rnd d n el).
  destruct (findOrCreateGradEl_id defs gid (type g) d1) as [Hx Hid].
  set (f := findOrCreateGradEl defs gid (type g) d1) in *.
  set (d4 := clearChildren f.1 (setGeometry g f.1 f.2)).
  assert (Hx4 : is_Some (d4 !! f.1)).
  { unfold d4. by rewrite clearChildren_is_Some, setGeometry_labels_id. }
  destruct (appendStopFold f.1 (stops g) d4 Hx4) as ((ss & Hk & Hf) & Hold).
  set (d5 := foldl (appendStop f.1) d4 (stops g)) in *.
  exists f.1, ss. split; [|split].
  - rewrite getAttribute_setAttribute_ne by (by right).
    rewrite (labels_getAttribute d4 d5) by (by apply Hold).
    unfold d4. rewrite (labels_getAttribute _ _ _ _ (labels_clearChildren _ _ _)).
    by rewrite setGeometry_id.
  - rewrite childrenOf_setAttribute, Hk. unfold d4.
    by rewrite childrenOf_clearChildren.
  - eapply Forall2_impl; [exact Hf|]. intros s stop (Ht & Hp & Ho & Hc).
    unfold stopNode.
    rewrite tagOf_setAttribute, parentOf_setAttribute,
      !getAttribute_setAttribute_ne by (by right).
    done.
Qed.

(** X25.  When the ids that go into the selector are plain names and the
    offsets are safe integers, an enabled update on a single selected
    element leaves an element that carries the id [grad-<id>] or
    [grad-<draw>], the one that the pass found or made for it, with exactly
    one [stop] child per stop of the new descriptor, in the descriptor's
    order, each with [offset] written as the number followed by [%] and
    [stop-color] as the colour; stops that it had before are no longer its
    children. *)
Theorem enabled_update_writes_stops rnd u st root el :
  Scope.plainIds rnd (document st) (selectedElements st) = true ->
  forallb (fun stop => Scope.safeNumber (offset stop))
    (stops (applyUpdate (gradientProps st) u)) = true ->
  selectedElements st = [el] ->
  rootSvg st = Some root ->
  enabled (applyUpdate (gradientProps st) u) = true ->
  let st' := updateGradientProperty rnd u st in
  exists ge ss,
    getAttribute (document st') ge "id"
      = Some (gradIdFor rnd (document st) 0 el) /\
    childrenOf (document st') ge = ss /\
    Forall2 (stopNode (document st') ge) ss (stops (gradientProps st')).
Proof.
  intros _ _ Hsel Hroot He st'.
  assert (Hne : selectedElements st ≠ []) by (by rewrite Hsel).
  destruct (updateGradientProperty_state rnd u st) as (_ & _ & Hg).
  unfold st'. rewrite (Hg Hne).
  rewrite (updateGradientProperty_document rnd u st root Hne Hroot), Hsel.
  cbn [foldl].
  destruct (gradientStep_stops rnd (applyUpdate (gradientProps st) u)
              (ensureDefs root (document st)).1
              (ensureDefs root (document st)).2 0 el He)
    as (ge & ss & Hid & Hk & Hf).
  exists ge, ss. split; [|done].
  rewrite Hid. unfold gradIdFor. by rewrite !getAttribute_ensureDefs.
Qed.
End StopNodeFacts.

(** ** The layout panel and the layout pass *)

Section LayoutPanelFacts.
Import Js Dom Editor Inspector.
Implicit Types (d : Document) (r x c p g : ref) (k v : string).
Variable getBBox : ref -> option BoundingBox.

(** X26.  The panel and the layout pass read a missing gap and padding
    differently.  For a selected flex [g] that carries neither [data-gap],
    [data-padding] nor [data-direction], the panel shows the row with gap 16
    and padding 16, while the layout pass works with 0 and 0: the [i]-th
    child is translated by the sum of the widths before it, and by 0
    vertically (the widths being whole numbers whose sums are safe
    integers). *)
Theorem layout_panel_defaults_are_not_the_layout_defaults (st : State)
    (prev : LayoutProps) g (cs : list ref) (ws : list Z) :
  Scope.exactSums 0 0 ws = true ->
  selectedElements st = [g] ->
  tagOf (document st) g = "g" ->
  getAttribute (document st) g "data-layout" = Some "flex" ->
  getAttribute (document st) g "data-direction" = None ->
  getAttribute (document st) g "data-gap" = None ->
  getAttribute (document st) g "data-padding" = None ->
  childrenOf (document st) g = cs ->
  NoDup cs ->
  (forall c, c ∈ cs ->
     is_Some (document st !! c) /\
     tagOf (document st) c ≠ "title" /\ tagOf (document st) c ≠ "desc") ->
  Forall2 (measures getBBox) cs ws ->
  selectionEffect_layout st prev = mkLayout true "horizontal" (Int 16) (Int 16) /\
  forall i c, cs !! i = Some c ->
    getAttribute (runAutoLayout getBBox g (document st)) c "transform"
    = Some (translate (Int (advance 0 (take i ws))) (Int 0)).
Proof.
  intros _ Hsel Htag Hflex Hdir Hgap Hpad Hcs Hnd Hch Hm. split.
  - unfold selectionEffect_layout. rewrite Hsel.
    rewrite (bool_decide_eq_true_2 _ Htag). cbv zeta.
    rewrite Hflex, Hdir, Hgap, Hpad. reflexivity.
  - apply (runAutoLayout_measured getBBox (document st) g cs ws 0 0 "horizontal");
      try done.
    + by rewrite Hdir.
    + by rewrite Hgap.
    + by rewrite Hpad.
Qed.
End LayoutPanelFacts.

(** ** The further properties on the sample inputs *)

Lemma withRetry_budget_witness :
  (1 <= Service.calls (Retry.withRetry Samples.flaky 2).1 <= 3)%nat /\
  0 <= Service.waited (Retry.withRetry Samples.flaky 2).1 <= 6000.
Proof.
  destruct (withRetry_budget Samples.flaky 2 ltac:(lia)) as (H1 & H2 & _).
  split; [exact H1|exact H2].
Defined.


Lemma withRetry_unknown_error_surfaces_witness :
  Retry.withRetry Samples.broken 2
  = ([Retry.Call 0; Retry.Sleep 2000; Retry.Call 1],
     Retry.Rejected Samples.unknown_err).
Proof.
  apply (withRetry_unknown_error_surfaces Samples.broken 2 1 Samples.unknown_err).
  - lia.
  - intros j Hj. exists Samples.quota_err.
    destruct j as [|j]; [done|lia].
  - reflexivity.
  - reflexivity.
  - reflexivity.
Defined.

Lemma svgMatch_fragment_witness :
  Service.startsWith_ci "<svg" "<svg><rect/></svg>" = true /\
  Service.svgMatch "<svg><rect/></svg>" = Some "<svg><rect/></svg>".
Proof.
  destruct (svgMatch_fragment Samples.answer "<svg><rect/></svg>") as (_ & H2 & _ & H4).
  - vm_compute. reflexivity.
  - split; [exact H2|exact H4].
Defined.

Lemma handleGenerate_brief_failure_witness :
  Service.handleGenerate None Samples.joinMessage Samples.briefFlaky
    Samples.vectorReady
  = Service.mkRun
      [Retry.Call 0; Retry.Sleep 2000; Retry.Call 1; Retry.Sleep 4000;
       Retry.Call 2]
      [] (Service.Failed Service.SessionInvalid).
Proof.
  refine (proj1 (proj2 (handleGenerate_brief_failure Samples.joinMessage
                   Samples.briefFlaky Samples.vectorReady
                   2 Samples.entity_err _ _)) _).
  - split; [lia|]. intros j Hj. exists Samples.quota_err.
    destruct j as [|[|j]]; [done|done|lia].
  - reflexivity.
  - reflexivity.
Defined.

Lemma handleGenerate_vector_stage_witness :
  Service.handleGenerate None Samples.joinMessage Samples.briefReady
    Samples.vectorReady
  = Service.mkRun [Retry.Call 0] [Retry.Call 0]
      (Service.Generated Samples.brief "<svg><rect/></svg>") /\
  Service.handleGenerate None Samples.joinMessage Samples.briefEmpty
    Samples.vectorReady
  = Service.mkRun [Retry.Call 0] []
      (Service.Failed (Service.SystemError Samples.joinMessage)).
Proof.
  split.
  - refine (proj1 (proj2 (handleGenerate_vector_stage Samples.joinMessage
                     Samples.briefReady Samples.vectorReady 0 Samples.brief _ _)
                     0%nat _ _) Samples.answer "<svg><rect/></svg>" _ _).
    + split; [lia|]. intros j Hj. lia.
    + reflexivity.
    + by eexists.
    + split; [lia|]. intros j Hj. lia.
    + reflexivity.
    + vm_compute. reflexivity.
  - refine (proj2 (proj1 (handleGenerate_vector_stage Samples.joinMessage
                     Samples.briefEmpty Samples.vectorReady 0 Samples.emptyBrief
                     _ _) _) _ _ _).
    + split; [lia|]. intros j Hj. lia.
    + reflexivity.
    + reflexivity.
    + discriminate.
    + discriminate.
    + vm_compute. reflexivity.
Defined.

Lemma handleCanvasMouseDown_climbs_witness :
  Editor.selectedElements
    (Editor.handleCanvasMouseDown 3%positive false (Samples.showing Samples.doc5 []))
  = [2%positive].
Proof.
  apply (handleCanvasMouseDown_climbs (Samples.showing Samples.doc5 [])
           [3%positive] 2%positive
           (Samples.node "text" [] [3%positive] (Some 1%positive))).
  - vm_compute. done.
  - apply (bool_decide_unpack _). vm_compute. exact I.
  - intros x Hx. apply list_elem_of_singleton in Hx. subst x. split.
    + vm_compute. by eexists.
    + apply (bool_decide_unpack _). vm_compute. exact I.
  - vm_compute. reflexivity.
  - apply (bool_decide_unpack _). vm_compute. exact I.
Defined.

Lemma handleCanvasMouseDown_clears_witness :
  Editor.selectedElements
    (Editor.handleCanvasMouseDown 6%positive true
       (Samples.gradientOn [2; 3]%positive))
  = [].
Proof.
  apply (handleCanvasMouseDown_clears (Samples.gradientOn [2; 3]%positive)
           [6; 5]%positive 1%positive true).
  - vm_compute. done.
  - apply (bool_decide_unpack _). vm_compute. exact I.
  - intros x Hx. cbn [app] in Hx.
    repeat (apply elem_of_cons in Hx as [->|Hx];
            [split; [vm_compute; by eexists
                    |apply (bool_decide_unpack _); vm_compute; exact I]|]).
    by apply elem_of_nil in Hx.
  - vm_compute. reflexivity.
Defined.

Lemma handleCanvasMouseDown_keeps_NoDup_witness :
  NoDup
    (Editor.selectedElements
       (Editor.handleCanvasMouseDown 4%positive true
          (Samples.editing [2; 3]%positive))).
Proof.
  apply (handleCanvasMouseDown_keeps_NoDup (Samples.editing [2; 3]%positive)
           4%positive true).
  apply (bool_decide_unpack _). vm_compute. exact I.
Defined.

Lemma handleCanvasMouseDown_twice_witness :
  Editor.selectedElements
    (Editor.handleCanvasMouseDown 3%positive true
       (Editor.handleCanvasMouseDown 3%positive true
          (Samples.editing [2%positive])))
  = [2%positive].
Proof.
  refine (proj1 (handleCanvasMouseDown_twice (Samples.editing [2%positive])
                   3%positive 3%positive _ _) _).
  - vm_compute. reflexivity.
  - apply (bool_decide_unpack _). vm_compute. exact I.
  - apply (bool_decide_unpack _). vm_compute. exact I.
Defined.

Lemma gradient_id_stable_for_explicit_id_witness :
  Dom.getAttribute
    (Editor.document
       (Editor.updateGradientProperty Samples.draws' (Editor.SetAngle 45)
          (Editor.updateGradientProperty Samples.draws (Editor.SetEnabled true)
             (Samples.editing [2%positive])))) 2%positive "fill"
  = Some "url(#grad-a)".
Proof.
  refine (proj2 (proj2 (gradient_id_stable_for_explicit_id
            Samples.draws Samples.draws' (Editor.SetEnabled true)
            (Editor.SetAngle 45) (Samples.editing [2%positive])
            1%positive 2%positive "a" _ _ _ _ _ _ _ _))).
  - vm_compute. reflexivity.
  - vm_compute. reflexivity.
  - reflexivity.
  - apply list_elem_of_here.
  - vm_compute. reflexivity.
  - discriminate.
  - reflexivity.
  - reflexivity.
Defined.

Lemma enabled_update_records_original_witness :
  Dom.getAttribute
    (Editor.document
       (Editor.updateGradientProperty Samples.draws (Editor.SetEnabled true)
          (Samples.editing [4%positive]))) 4%positive "data-orig-fill"
  = Some "#ff0000".
Proof.
  refine (proj1 (proj2 (enabled_update_records_original Samples.draws
            (Editor.SetEnabled true) (Samples.editing [4%positive])
            1%positive 4%positive _ _ _ _ _)) _ "#ff0000" _ _).
  - vm_compute. reflexivity.
  - reflexivity.
  - apply list_elem_of_here.
  - vm_compute. by eexists.
  - reflexivity.
  - vm_compute. reflexivity.
  - vm_compute. reflexivity.
  - discriminate.
Defined.

Lemma gradient_on_then_off_restores_fill_witness :
  Dom.getAttribute
    (Editor.document
       (Editor.updateGradientProperty Samples.draws' (Editor.SetEnabled false)
          (Editor.updateGradientProperty Samples.draws (Editor.SetEnabled true)
             (Samples.editing [4%positive])))) 4%positive "fill"
  = Some "#ff0000".
Proof.
  refine (proj2 (gradient_on_then_off_restores_fill Samples.draws Samples.draws'
            (Editor.SetEnabled true) (Editor.SetEnabled false)
            (Samples.editing [4%positive]) 1%positive 4%positive _ _ _ _ _)
            _ "#ff0000" _ _).
  - reflexivity.
  - apply list_elem_of_here.
  - vm_compute. by eexists.
  - reflexivity.
  - reflexivity.
  - vm_compute. reflexivity.
  - vm_compute. reflexivity.
  - discriminate.
Defined.

Lemma radial_gradient_geometry_witness :
  exists ge gid,
    Dom.getAttribute
      (Editor.document
         (Editor.updateGradientProperty Samples.draws (Editor.SetAngle 10)
            (Samples.gradientOn [3%positive]))) 3%positive "fill"
    = Some (Editor.url gid) /\
    Dom.getAttribute
      (Editor.document
         (Editor.updateGradientProperty Samples.draws (Editor.SetAngle 10)
            (Samples.gradientOn [3%positive]))) ge "id" = Some gid /\
    Dom.getAttribute
      (Editor.document
         (Editor.updateGradientProperty Samples.draws (Editor.SetAngle 10)
            (Samples.gradientOn [3%positive]))) ge "r" = Some "50%".
Proof.
  destruct (radial_gradient_geometry Samples.draws (Editor.SetAngle 10)
              (Samples.gradientOn [3%positive]) 1%positive 3%positive)
    as (ge & gid & H1 & H2 & _ & _ & _ & H6).
  - vm_compute. reflexivity.
  - reflexivity.
  - apply list_elem_of_here.
  - vm_compute. by eexists.
  - reflexivity.
  - reflexivity.
  - exists ge, gid. split; [exact H1|split; [exact H2|exact H6]].
Defined.

Lemma removeGradientStop_floor_witness :
  (2 <= length
          (Editor.stops
             (Editor.gradientProps
                (Editor.removeGradientStop Samples.draws 0
                   (Samples.gradientOn [3%positive])))))%nat.
Proof.
  apply (proj1 (removeGradientStop_floor Samples.draws 0
                  (Samples.gradientOn [3%positive]))).
  cbn. lia.
Defined.

Lemma gradient_controls_need_a_selection_witness :
  Editor.addGradientStop Samples.draws (Samples.editing []) = Samples.editing [].
Proof.
  refine (proj1 (proj2 (proj1 (gradient_controls_need_a_selection Samples.draws
            (Editor.SetEnabled true) 0 (Samples.editing [])) _))).
  reflexivity.
Defined.

Lemma runAutoLayout_places_each_child_witness :
  Dom.getAttribute
    (Editor.runAutoLayout Samples.partialBox 2%positive Samples.doc4)
    4%positive "transform"
  = Some "translate(16, 16)".
Proof.
  apply (runAutoLayout_places_each_child Samples.partialBox Samples.doc4
           2%positive 1 4%positive "horizontal" (Js.Int 16) (Js.Int 16)).
  - vm_compute. reflexivity.
  - vm_compute. reflexivity.
  - vm_compute. reflexivity.
  - vm_compute. reflexivity.
  - vm_compute. reflexivity.
  - apply (bool_decide_unpack _). vm_compute. exact I.
  - intros x Hx. change (x ∈ [3; 4]%positive) in Hx.
    repeat (apply elem_of_cons in Hx as [->|Hx]; [vm_compute; by eexists|]).
    by apply elem_of_nil in Hx.
  - vm_compute. reflexivity.
Defined.


Lemma runAutoLayout_column_offsets_witness :
  Dom.getAttribute
    (Editor.runAutoLayout Samples.box10 2%positive Samples.doc6)
    4%positive "transform"
  = Some "translate(4, 32)".
Proof.
  apply (runAutoLayout_column_offsets Samples.box10 Samples.doc6 2%positive
           [3; 4]%positive [20; 20] 8 4 "vertical" ltac:(vm_compute; reflexivity)
           ltac:(vm_compute; reflexivity)
           ltac:(vm_compute; reflexivity) ltac:(discriminate)
           ltac:(vm_compute; reflexivity) ltac:(vm_compute; reflexivity)
           ltac:(vm_compute; reflexivity)
           ltac:(apply (bool_decide_unpack _); vm_compute; exact I)) with (i := 1%nat).
  - intros c Hc.
    repeat (apply elem_of_cons in Hc as [->|Hc];
            [split; [vm_compute; by eexists|split; vm_compute; discriminate]|]).
    by apply elem_of_nil in Hc.
  - repeat constructor; by eexists.
  - reflexivity.
Defined.

Lemma updateLayoutProperty_direction_witness :
  Dom.getAttribute
    (Editor.document
       (Inspector.updateLayoutProperty Samples.box10 2%positive "direction"
          "vertical" (Samples.showing Samples.doc4 [2%positive])
          (Inspector.mkLayout true "horizontal" (Js.Int 16) (Js.Int 16))).1)
    4%positive "transform"
  = Some "translate(16, 52)" /\
  (Inspector.updateLayoutProperty Samples.box10 2%positive "direction"
     "vertical" (Samples.showing Samples.doc4 [2%positive])
     (Inspector.mkLayout true "horizontal" (Js.Int 16) (Js.Int 16))).2
  = Inspector.mkLayout true "vertical" (Js.Int 16) (Js.Int 16).
Proof.
  destruct (updateLayoutProperty_direction Samples.box10
              (Samples.showing Samples.doc4 [2%positive])
              (Inspector.mkLayout true "horizontal" (Js.Int 16) (Js.Int 16))
              2%positive [3; 4]%positive [20; 20] 16 16 "vertical")
    as (_ & H2 & _ & H4).
  - vm_compute. reflexivity.
  - discriminate.
  - vm_compute. reflexivity.
  - vm_compute. reflexivity.
  - vm_compute. reflexivity.
  - vm_compute. reflexivity.
  - apply (bool_decide_unpack _). vm_compute. exact I.
  - intros c Hc.
    repeat (apply elem_of_cons in Hc as [->|Hc];
            [split; [vm_compute; by eexists|split; vm_compute; discriminate]|]).
    by apply elem_of_nil in Hc.
  - repeat constructor; by eexists.
  - split; [exact (H2 1%nat 4%positive eq_refl)|exact H4].
Defined.

Lemma createAutoLayoutGroup_container_witness :
  Editor.selectedElements
    (Editor.createAutoLayoutGroup Samples.box10 "x" (Samples.editing [2; 3]%positive))
  = [5%positive] /\
  Dom.getAttribute
    (Editor.document
       (Editor.createAutoLayoutGroup Samples.box10 "x"
          (Samples.editing [2; 3]%positive))) 5%positive "id"
  = Some "layout-x" /\
  Dom.childrenOf
    (Editor.document
       (Editor.createAutoLayoutGroup Samples.box10 "x"
          (Samples.editing [2; 3]%positive))) 5%positive
  = [2; 3]%positive /\
  Inspector.selectionEffect_layout
    (Editor.createAutoLayoutGroup Samples.box10 "x" (Samples.editing [2; 3]%positive))
    (Inspector.mkLayout false "vertical" (Js.Int 0) (Js.Int 0))
  = Inspector.mkLayout true "horizontal" (Js.Int 16) (Js.Int 16).
Proof.
  destruct (createAutoLayoutGroup_container Samples.box10 "x"
              (Samples.editing [2; 3]%positive) 1%positive 1%positive 2%positive
              [3%positive] [] [3; 4]%positive)
    as (_ & H2 & _ & _ & _ & _ & _ & H8 & _ & H10 & _ & _ & H13).
  - reflexivity.
  - reflexivity.
  - cbn. lia.
  - apply (bool_decide_unpack _). vm_compute. exact I.
  - apply (bool_decide_unpack _). vm_compute. exact I.
  - intros e He.
    repeat (apply elem_of_cons in He as [->|He]; [vm_compute; reflexivity|]).
    by apply elem_of_nil in He.
  - vm_compute. reflexivity.
  - apply (bool_decide_unpack _). vm_compute. exact I.
  - intros c Hc. cbn [app] in Hc.
    repeat (apply elem_of_cons in Hc as [->|Hc]; [vm_compute; by eexists|]).
    by apply elem_of_nil in Hc.
  - split; [exact H2|split; [exact H8|split; [exact H10|apply H13]]].
Defined.

Lemma createAutoLayoutGroup_row_witness :
  Dom.getAttribute
    (Editor.document
       (Editor.createAutoLayoutGroup Samples.box10 "x"
          (Samples.editing [2; 3]%positive))) 3%positive "transform"
  = Some "translate(42, 16)".
Proof.
  apply (createAutoLayoutGroup_row Samples.box10 "x"
           (Samples.editing [2; 3]%positive) 1%positive 1%positive 2%positive
           [3%positive] [] [3; 4]%positive [10; 10]) with (i := 1%nat).
  - vm_compute. reflexivity.
  - reflexivity.
  - reflexivity.
  - cbn. lia.
  - apply (bool_decide_unpack _). vm_compute. exact I.
  - apply (bool_decide_unpack _). vm_compute. exact I.
  - intros e He.
    repeat (apply elem_of_cons in He as [->|He];
            [split; [vm_compute; reflexivity|split; vm_compute; discriminate]|]).
    by apply elem_of_nil in He.
  - vm_compute. reflexivity.
  - apply (bool_decide_unpack _). vm_compute. exact I.
  - intros c Hc. cbn [app] in Hc.
    repeat (apply elem_of_cons in Hc as [->|Hc]; [vm_compute; by eexists|]).
    by apply elem_of_nil in Hc.
  - repeat constructor; by eexists.
  - reflexivity.
Defined.

Lemma ungroup_container_witness :
  Editor.selectedElements
    (Editor.ungroup (Samples.showing Samples.doc4 [2%positive]))
  = [3; 4]%positive /\
  Dom.childrenOf
    (Editor.document (Editor.ungroup (Samples.showing Samples.doc4 [2%positive])))
    1%positive
  = [3; 4]%positive.
Proof.
  destruct (ungroup_container (Samples.showing Samples.doc4 [2%positive])
              2%positive 1%positive [3; 4]%positive [] [])
    as (H1 & H2 & _).
  - reflexivity.
  - vm_compute. reflexivity.
  - vm_compute. reflexivity.
  - vm_compute. reflexivity.
  - vm_compute. reflexivity.
  - apply (bool_decide_unpack _). vm_compute. exact I.
  - apply (bool_decide_unpack _). vm_compute. exact I.
  - apply (bool_decide_unpack _). vm_compute. exact I.
  - discriminate.
  - apply not_elem_of_nil.
  - apply not_elem_of_nil.
  - intros e He.
    repeat (apply elem_of_cons in He as [->|He]; [vm_compute; reflexivity|]).
    by apply elem_of_nil in He.
  - split; [exact H1|exact H2].
Defined.

Lemma enabled_update_writes_stops_witness :
  exists ge ss,
    Dom.getAttribute
      (Editor.document
         (Editor.updateGradientProperty Samples.draws (Editor.SetEnabled true)
            (Samples.editing [2%positive]))) ge "id" = Some "grad-a" /\
    Dom.childrenOf
      (Editor.document
         (Editor.updateGradientProperty Samples.draws (Editor.SetEnabled true)
            (Samples.editing [2%positive]))) ge = ss /\
    length ss = 2%nat.
Proof.
  destruct (enabled_update_writes_stops Samples.draws (Editor.SetEnabled true)
              (Samples.editing [2%positive]) 1%positive 2%positive)
    as (ge & ss & H1 & H2 & H3).
  - vm_compute. reflexivity.
  - vm_compute. reflexivity.
  - reflexivity.
  - reflexivity.
  - reflexivity.
  - exists ge, ss. split; [exact H1|split; [exact H2|]].
    apply Forall2_length in H3. exact H3.
Defined.

Lemma layout_panel_defaults_are_not_the_layout_defaults_witness :
  Inspector.selectionEffect_layout (Samples.showing Samples.doc7 [2%positive])
    (Inspector.mkLayout false "vertical" (Js.Int 0) (Js.Int 0))
  = Inspector.mkLayout true "horizontal" (Js.Int 16) (Js.Int 16) /\
  Dom.getAttribute
    (Editor.runAutoLayout Samples.box10 2%positive Samples.doc7)
    4%positive "transform"
  = Some "translate(10, 0)".
Proof.
  destruct (layout_panel_defaults_are_not_the_layout_defaults Samples.box10
              (Samples.showing Samples.doc7 [2%positive])
              (Inspector.mkLayout false "vertical" (Js.Int 0) (Js.Int 0))
              2%positive [3; 4]%positive [10; 10])
    as (H1 & H2).
  - vm_compute. reflexivity.
  - reflexivity.
  - vm_compute. reflexivity.
  - vm_compute. reflexivity.
  - vm_compute. reflexivity.
  - vm_compute. reflexivity.
  - vm_compute. reflexivity.
  - vm_compute. reflexivity.
  - apply (bool_decide_unpack _). vm_compute. exact I.
  - intros c Hc.
    repeat (apply elem_of_cons in Hc as [->|Hc];
            [split; [vm_compute; by eexists|split; vm_compute; discriminate]|]).
    by apply elem_of_nil in Hc.
  - repeat constructor; by eexists.
  - split; [exact H1|exact (H2 1%nat 4%positive eq_refl)].
Defined.

